(** * Diffusivity estimation in porous media: a shallow embedding

    The development follows [porous_media/parameters.py] and
    [raw_data/read_data.py].  Python floats are idealised as real numbers
    (rounding, infinities and NaN are outside the model); the exceptions
    that Python's arithmetic raises (division by zero, square root of a
    negative number, ordering a complex number, [math.exp] beyond the
    largest double) are kept, together with the underflow of [math.exp] to
    zero, which decides whether the division that follows raises; so are
    [KeyError], [IndexError] and [AssertionError].  Methods are computations
    in a state-and-exception monad over the object they are called on, so
    that the assignment made by [knudsen_i] is visible. *)

From Stdlib Require Import Reals Lra Lia Ascii.
From stdpp Require Import base option list gmap strings.

(** ** Exceptions and results *)

(** The text of an [AssertionError]: either a plain string, or a string with
    one float rendered by [%2.3f] in the middle. *)
Inductive message : Type :=
  | Text (s : string)
  | Text_2_3f (before : string) (value : R) (after : string).

Inductive exn : Type :=
  | KeyError (key : string)
  | IndexError
  | ZeroDivisionError
  | ValueError
  | TypeError
  | OverflowError
  | AttributeError (name : string)
  | AssertionError (msg : message).

Inductive res (A : Type) : Type :=
  | Ok (a : A)
  | Raise (e : exn).
Arguments Ok {A} a.
Arguments Raise {A} e.

(** ** The monad of methods: state of the receiver, and exceptions *)

Definition M (S A : Type) : Type := S -> res A * S.

Definition ret {S A} (a : A) : M S A := fun s => (Ok a, s).
Definition raise {S A} (e : exn) : M S A := fun s => (Raise e, s).
Definition bind {S A B} (c : M S A) (k : A -> M S B) : M S B :=
  fun s => match c s with
           | (Ok a, s') => k a s'
           | (Raise e, s') => (Raise e, s')
           end.
Definition attr {S A} (f : S -> A) : M S A := fun s => (Ok (f s), s).
Definition modify {S} (f : S -> S) : M S unit := fun s => (Ok tt, f s).

Declare Scope py_scope.
Delimit Scope py_scope with py.
Notation "x <- c ;; k" := (bind c (fun x => k))
  (at level 100, c at next level, right associativity) : py_scope.
Notation "c ;;; k" := (bind c (fun _ => k))
  (at level 100, right associativity) : py_scope.

Fixpoint for_each {S A} (l : list A) (body : A -> M S unit) : M S unit :=
  match l with
  | [] => ret tt
  | x :: l' => bind (body x) (fun _ => for_each l' body)
  end.

(** ** Float operations that can raise *)

(** A number as [omega_ij] computes with it: a float, or a complex number
    that is not real, of which nothing but its being one is observed. *)
Inductive number : Type :=
  | Real (x : R)
  | Complex.

Section Arithmetic.
Context {S : Type}.
Local Open Scope R_scope.

(** [x / y] on floats. *)
Definition truediv (x y : R) : M S R :=
  if Req_dec_T y 0 then raise ZeroDivisionError else ret (x / y).

(** [x / y] where [y] may be [None]. *)
Definition truediv_obj (x : R) (y : option R) : M S R :=
  match y with
  | Some y => truediv x y
  | None => raise TypeError
  end.

(** [math.sqrt]. *)
Definition math_sqrt (x : R) : M S R :=
  if Rlt_dec x 0 then raise ValueError else ret (sqrt x).

(** [math.exp] on a double.  Above [exp_max], the logarithm of the largest
    double, it raises [OverflowError]; below [exp_min], the logarithm of
    half the smallest positive double, the result is the float zero; in
    between the result is idealised as [exp x]. *)
Definition exp_max : R := 709.782712893384.
Definition exp_min : R := -745.1332191019412.

Definition math_exp (x : R) : M S R :=
  if Rlt_dec exp_max x then raise OverflowError
  else if Rlt_dec x exp_min then ret 0
  else ret (exp x).

(** [pow(w, b)] for a positive exponent [b] that is not an integer, as the
    only call has it.  On a negative base Python returns a complex number
    (other than zero). *)
Definition pow (w b : R) : M S number :=
  if Rlt_dec 0 w then ret (Real (Rpower w b))
  else if Req_dec_T w 0 then ret (Real 0)
  else ret Complex.

(** [x / y] for a float [x] and the result of [pow]. *)
Definition truediv_number (x : R) (y : number) : M S number :=
  match y with
  | Real y => bind (truediv x y) (fun q => ret (Real q))
  | Complex => ret Complex
  end.

(** [x + y] for a float [y]. *)
Definition add_float (x : number) (y : R) : number :=
  match x with
  | Real x => Real (x + y)
  | Complex => Complex
  end.

(** A number that is about to be ordered against a float: [a < x] raises
    [TypeError] for a complex [x]. *)
Definition ordered (x : number) : M S R :=
  match x with
  | Real x => ret x
  | Complex => raise TypeError
  end.

(** [assert cond, msg]. *)
Definition assert (cond : bool) (msg : message) : M S unit :=
  if cond then ret tt else raise (AssertionError msg).
End Arithmetic.

Definition Rltb (x y : R) : bool := if Rlt_dec x y then true else false.

Local Open Scope py_scope.

(** ** [class PureFluid] *)

Record PureFluid : Type := mkPureFluid {
  void_fraction : R;
  d_pore : R;
  molecular_weight : option R;
  tortuosity : R;
  R_gas : R                      (* the attribute [R] *)
}.

(** [PureFluid.__init__]; [molecular_weight] defaults to [None]. *)
Definition PureFluid_init (void_fraction d_pore tortuosity : R)
    (molecular_weight : option R) : PureFluid :=
  {| void_fraction := void_fraction;
     d_pore := d_pore;
     molecular_weight := molecular_weight;
     tortuosity := tortuosity;
     R_gas := 8.314%R |}.

Definition set_molecular_weight (v : option R) (self : PureFluid) : PureFluid :=
  {| void_fraction := void_fraction self;
     d_pore := d_pore self;
     molecular_weight := v;
     tortuosity := tortuosity self;
     R_gas := R_gas self |}.

(** [PureFluid.knudsen]:
    [void_fraction*d_pore/tortuosity/3.*math.sqrt(8*R*T/math.pi/molecular_weight)],
    evaluated left to right. *)
Definition knudsen (T : R) : M PureFluid R :=
  e <- attr void_fraction ;;
  d <- attr d_pore ;;
  t <- attr tortuosity ;;
  a <- truediv (e * d) t ;;
  b <- truediv a 3 ;;
  Rg <- attr R_gas ;;
  c <- truediv (8 * Rg * T) PI ;;
  mw <- attr molecular_weight ;;
  q <- truediv_obj c mw ;;
  r <- math_sqrt q ;;
  ret (b * r)%R.

(** ** [class FluidMixture(PureFluid)] *)

Record FluidMixture : Type := mkFluidMixture {
  base : PureFluid;            (* the attributes set by [PureFluid.__init__] *)
  molecular_weight_i : gmap string R;
  sigma_i : gmap string R;
  epsilon_i : gmap string R;
  component_i : list string
}.

Definition set_base (b : PureFluid) (self : FluidMixture) : FluidMixture :=
  {| base := b;
     molecular_weight_i := molecular_weight_i self;
     sigma_i := sigma_i self;
     epsilon_i := epsilon_i self;
     component_i := component_i self |}.

(** An inherited method runs on the inherited attributes of the same object. *)
Definition inherited {A} (c : M PureFluid A) : M FluidMixture A :=
  fun self => let (r, b) := c (base self) in (r, set_base b self).

(** [{key: val for key, val in zip(keys, vals)}]: a later pair replaces an
    earlier one with the same key; [zip] stops at the shorter list. *)
Definition dict_zip (keys : list string) (vals : list R) : gmap string R :=
  foldl (fun d kv => <[kv.1 := kv.2]> d) ∅ (zip keys vals).

(** [FluidMixture.__init__], with [*args] the three (or, with the molecular
    weight, four) arguments of [PureFluid.__init__]. *)
Definition FluidMixture_init (components : list string)
    (molecular_weight sigma epsilon_molecular : list R)
    (void_fraction d_pore tortuosity : R) (mw : option R) : FluidMixture :=
  {| base := PureFluid_init void_fraction d_pore tortuosity mw;
     molecular_weight_i := dict_zip components molecular_weight;
     sigma_i := dict_zip components sigma;
     epsilon_i := dict_zip components epsilon_molecular;
     component_i := components |}.

(** [d[key]] on a dict attribute. *)
Definition getitem {S V} (d : S -> gmap string V) (key : string) : M S V :=
  fun self => match d self !! key with
              | Some v => (Ok v, self)
              | None => (Raise (KeyError key), self)
              end.

(** [FluidMixture.knudsen_i]: stores the species' molecular weight on the
    object, then calls the inherited [knudsen]. *)
Definition knudsen_i (i j : string) (temperature pressure : R) : M FluidMixture R :=
  m <- getitem molecular_weight_i i ;;
  modify (fun self => set_base (set_molecular_weight (Some m) (base self)) self) ;;;
  inherited (knudsen temperature).

Definition sigma_ij_rule (i j : string) : M FluidMixture R :=
  si <- getitem sigma_i i ;;
  sj <- getitem sigma_i j ;;
  truediv (si + sj) 2.

Definition epsilon_ij_rule (i j : string) : M FluidMixture R :=
  ei <- getitem epsilon_i i ;;
  ej <- getitem epsilon_i j ;;
  math_sqrt (ei * ej).

Section Omega.
Local Open Scope R_scope.

Definition A1 : R := 1.06036.
Definition B1 : R := 0.15610.
Definition A2 : R := 0.19300.
Definition B2 : R := 0.47635.
Definition A3 : R := 1.03587.
Definition B3 : R := 1.52996.
Definition A4 : R := 1.76474.
Definition B4 : R := 3.89411.

(** The correlation of Bird 1960 p. 746 as a real function. *)
Definition omega_value (w : R) : R :=
  A1 / Rpower w B1 + A2 / exp (B2 * w) + A3 / exp (B3 * w) + A4 / exp (B4 * w).

Definition not_reasonable (value : R) : message :=
  Text_2_3f "Value predicted of " value " is not reasonable".

(** [FluidMixture.omega_ij]. *)
Definition omega_ij (w : R) : M FluidMixture R :=
  p <- pow w B1 ;;
  t1 <- truediv_number A1 p ;;
  e2 <- math_exp (B2 * w) ;;
  t2 <- truediv A2 e2 ;;
  e3 <- math_exp (B3 * w) ;;
  t3 <- truediv A3 e3 ;;
  e4 <- math_exp (B4 * w) ;;
  t4 <- truediv A4 e4 ;;
  value <- ordered (add_float (add_float (add_float t1 t2) t3) t4) ;;
  assert (Rltb 0.5 value && Rltb value 2.7) (not_reasonable value) ;;;
  ret value.

(** [FluidMixture.molecular_ij]; [P] in atm. *)
Definition molecular_ij (i j : string) (T P : R) : M FluidMixture R :=
  mi <- getitem molecular_weight_i i ;;
  let M_i := mi * 1000 in
  mj <- getitem molecular_weight_i j ;;
  let M_j := mj * 1000 in
  ri <- truediv 1 M_i ;;
  rj <- truediv 1 M_j ;;
  s <- math_sqrt (T * T * T * (ri + rj)) ;;
  let num := 1.858e-3 * s in
  s1 <- sigma_ij_rule i j ;;
  s2 <- sigma_ij_rule i j ;;
  eps <- epsilon_ij_rule i j ;;
  w <- truediv T eps ;;
  om <- omega_ij w ;;
  q <- truediv num (P * s1 * s2 * om) ;;
  q1 <- truediv q 100 ;;
  truediv q1 100.

(** [FluidMixture.effective_macropore_i]; [pressure] in Pa. *)
Definition effective_macropore_i (i j : string) (temperature pressure : R)
    : M FluidMixture R :=
  P_atm <- truediv pressure 101325 ;;
  e <- attr (fun self => void_fraction (base self)) ;;
  t <- attr (fun self => tortuosity (base self)) ;;
  et <- truediv e t ;;
  Dm <- molecular_ij i j temperature P_atm ;;
  rm <- truediv 1 Dm ;;
  Dk <- knudsen_i i j temperature pressure ;;
  rk <- truediv 1 Dk ;;
  truediv et (rm + rk).
End Omega.

(** ** [FluidMixture.write_calculations] *)

(** One line of the output file, [i,j,attr [m^2/s],value]. *)
Definition row : Type := string * string * string * R.

(** [getattr(self, attr)] for the bound methods that take [(i, j, T, P)]. *)
Definition getattr {S} (name : string)
    : M S (string -> string -> R -> R -> M FluidMixture R) :=
  if String.eqb name "effective_macropore_i" then ret effective_macropore_i
  else if String.eqb name "knudsen_i" then ret knudsen_i
  else if String.eqb name "molecular_ij" then ret molecular_ij
  else raise (AttributeError name).

(** The receiver together with the lines written so far. *)
Definition on_self {A} (c : M FluidMixture A) : M (FluidMixture * list row) A :=
  fun w => let (r, self) := c w.1 in (r, (self, w.2)).

Definition write (r : row) : M (FluidMixture * list row) unit :=
  modify (fun w => (w.1, w.2 ++ [r])).

Definition attrs : list string :=
  ["effective_macropore_i"; "knudsen_i"; "molecular_ij"].

Definition write_calculations (temperature pressure : R)
    : M (FluidMixture * list row) unit :=
  modify (fun w => (w.1, [])) ;;;          (* open(output_file, 'w') *)
  outer <- attr (fun w => component_i w.1) ;;
  for_each outer (fun i =>
    inner <- attr (fun w => component_i w.1) ;;
    for_each inner (fun j =>
      if String.eqb i j then ret tt        (* continue *)
      else
        for_each attrs (fun a =>
          func <- getattr a ;;
          v <- on_self (func i j temperature pressure) ;;
          write (i, j, a, v)))).

(** ** [raw_data/read_data.py] *)

(** A value stored by [read_csv]: a float when the text parses as one, the
    text itself otherwise. *)
Inductive cell : Type :=
  | Float (x : R)
  | Str (s : string).

(** [key == c] for a string [key]. *)
Definition str_eq_cell (key : string) (c : cell) : bool :=
  match c with
  | Str s => String.eqb key s
  | Float _ => false
  end.

(** [key in col]. *)
Definition contains (col : list cell) (key : string) : bool :=
  existsb (str_eq_cell key) col.

(** [col.index(key)]. *)
Fixpoint index {S} (col : list cell) (key : string) : M S nat :=
  match col with
  | [] => raise ValueError
  | c :: col' =>
      if str_eq_cell key c then ret 0%nat
      else n <- index col' key ;; ret (Datatypes.S n)
  end.

(** [col[n]] for a non-negative [n]. *)
Definition list_getitem {S} (col : list cell) (n : nat) : M S cell :=
  match col !! n with
  | Some c => ret c
  | None => raise IndexError
  end.

Definition no_parameters (key : string) : message :=
  Text ("No parameters found for " ++ key ++ " in LJparams.csv").

(** The body of the loop of [get_LJ_params]; the state is the pair of the
    local lists [sigma] and [epsilon]. *)
Definition get_LJ_params_body (LJ_data : gmap string (list cell)) (key : string)
    : M (list cell * list cell) unit :=
  col <- getitem (fun _ => LJ_data) "Substance" ;;
  assert (contains col key) (no_parameters key) ;;;
  col <- getitem (fun _ => LJ_data) "Substance" ;;
  n <- index col key ;;
  scol <- getitem (fun _ => LJ_data) "sigma [angstrom]" ;;
  s <- list_getitem scol n ;;
  modify (fun st => (st.1 ++ [s], st.2)) ;;;
  ecol <- getitem (fun _ => LJ_data) "epsilon [K]" ;;
  e <- list_getitem ecol n ;;
  modify (fun st => (st.1, st.2 ++ [e])).

Definition get_LJ_params (components : list string)
    (LJ_data : gmap string (list cell)) : res (list cell * list cell) :=
  match for_each components (get_LJ_params_body LJ_data) ([], []) with
  | (Ok _, st) => Ok st
  | (Raise e, _) => Raise e
  end.

(** * Vocabulary of the properties *)

Section Values.
Local Open Scope R_scope.

(** The value [knudsen] computes, as a real expression in the code's order. *)
Definition knudsen_value (self : PureFluid) (M T : R) : R :=
  void_fraction self * d_pore self / tortuosity self / 3
  * sqrt (8 * R_gas self * T / PI / M).

(** The value [molecular_ij] computes, in the code's order of operations. *)
Definition molecular_value (mi mj si sj ei ej T P : R) : R :=
  1.858e-3 * sqrt (T * T * T * (1 / (mi * 1000) + 1 / (mj * 1000)))
  / (P * ((si + sj) / 2) * ((si + sj) / 2) * omega_value (T / sqrt (ei * ej)))
  / 100 / 100.

(** What the stored parameters must satisfy for [molecular_ij] to return. *)
Record molecular_defined (mi mj si sj ei ej T P : R) : Prop := {
  md_mi : mi * 1000 <> 0;
  md_mj : mj * 1000 <> 0;
  md_root : 0 <= T * T * T * (1 / (mi * 1000) + 1 / (mj * 1000));
  md_eps : 0 <= ei * ej;
  md_eps0 : sqrt (ei * ej) <> 0;
  md_w : 0 < T / sqrt (ei * ej);
  md_omega : 0.5 < omega_value (T / sqrt (ei * ej)) < 2.7;
  md_den : P * ((si + sj) / 2) * ((si + sj) / 2)
           * omega_value (T / sqrt (ei * ej)) <> 0
}.

(** A computation that leaves the receiver as it was. *)
Definition read_only {S A} (c : M S A) : Prop :=
  forall s r s', c s = (r, s') -> s' = s.

(** The receiver after [self.molecular_weight = m]. *)
Definition with_molecular_weight (m : R) (self : FluidMixture) : FluidMixture :=
  set_base (set_molecular_weight (Some m) (base self)) self.

(** The value [effective_macropore_i] computes from the two diffusivities. *)
Definition effective_value (self : FluidMixture) (Dm Dk : R) : R :=
  void_fraction (base self) / tortuosity (base self) / (1 / Dm + 1 / Dk).

Record effective_defined (self : FluidMixture) (Dm Dk : R) : Prop := {
  ed_t : tortuosity (base self) <> 0;
  ed_m : Dm <> 0;
  ed_k : Dk <> 0;
  ed_sum : 1 / Dm + 1 / Dk <> 0
}.

(** What a call may change: at most the attribute [molecular_weight], which
    then holds the stored molecular weight of species [i]. *)
Definition sets_molecular_weight (i : string) (self self' : FluidMixture) : Prop :=
  self' = self \/
  exists m, molecular_weight_i self !! i = Some m /\ self' = with_molecular_weight m self.

Definition frames {S A} (Q : S -> S -> Prop) (c : M S A) : Prop :=
  forall s r s', c s = (r, s') -> Q s s'.

(** The attributes other than [molecular_weight]. *)
Definition other_attributes (self : FluidMixture) :=
  (void_fraction (base self), d_pore (base self), tortuosity (base self),
   R_gas (base self), molecular_weight_i self, sigma_i self, epsilon_i self,
   component_i self).

(** The first three fields of a line: species, partner, quantity. *)
Definition row_key (r : row) : string * string * string := r.1.

(** The lines of a complete table for the species list [l], in order. *)
Definition table_keys (l : list string) : list (string * string * string) :=
  l ≫= λ i, l ≫= λ j, if String.eqb i j then [] else (λ a, (i, j, a)) <$> attrs.

(** [c], when it returns, keeps the species list and appends lines whose
    keys are [ks] of the species list. *)
Definition emits {A} (ks : list string -> list (string * string * string))
    (c : M (FluidMixture * list row) A) : Prop :=
  forall w u w', c w = (Ok u, w') ->
    component_i w'.1 = component_i w.1
    /\ row_key <$> w'.2 = (row_key <$> w.2) ++ ks (component_i w.1).

(** The position [col.index(key)] finds, when there is one. *)
Fixpoint first_index (col : list cell) (key : string) : option nat :=
  match col with
  | [] => None
  | c :: col' =>
      if str_eq_cell key c then Some 0%nat
      else Datatypes.S <$> first_index col' key
  end.

(** A Lennard-Jones table: the three columns, one value per row in each. *)
Record LJ_table (LJ_data : gmap string (list cell))
    (substance sigma epsilon : list cell) : Prop := {
  lj_substance : LJ_data !! "Substance"%string = Some substance;
  lj_sigma : LJ_data !! "sigma [angstrom]"%string = Some sigma;
  lj_epsilon : LJ_data !! "epsilon [K]"%string = Some epsilon;
  lj_sigma_rows : length sigma = length substance;
  lj_epsilon_rows : length epsilon = length substance
}.

(** The values of the first row whose substance is [key]. *)
Definition LJ_row (substance sigma epsilon : list cell) (key : string)
    (r : cell * cell) : Prop :=
  exists n, first_index substance key = Some n
            /\ sigma !! n = Some r.1 /\ epsilon !! n = Some r.2.


(** ** The methane / hydrogen example

    Molecular weights in kg/mol, the Lennard-Jones parameters of the two
    species, and the geometry of [examples/methane_hydrogen_porous_media/run.py]. *)

Definition example : FluidMixture :=
  FluidMixture_init ["CH4"; "H2"] [16.043e-3; 2.016e-3]%R
    [3.758; 2.827]%R [148.6; 59.7]%R 0.35%R 1e-8%R 1.5%R None.

Definition example_Dm : R :=
  molecular_value 16.043e-3 2.016e-3 3.758 2.827 148.6 59.7 300 (101325 / 101325).

Definition example_Dk : R :=
  knudsen_value (set_molecular_weight (Some 16.043e-3) (base example)) 16.043e-3 300.

(** The table of the example at 300 K and 101325 Pa. *)
Definition example_table : list row :=
  let after_CH4 := with_molecular_weight 16.043e-3 example in
  [ ("CH4", "H2", "effective_macropore_i",
     effective_value example
       (molecular_value 16.043e-3 2.016e-3 3.758 2.827 148.6 59.7 300 (101325 / 101325))
       (knudsen_value (base example) 16.043e-3 300));
    ("CH4", "H2", "knudsen_i", knudsen_value (base example) 16.043e-3 300);
    ("CH4", "H2", "molecular_ij",
     molecular_value 16.043e-3 2.016e-3 3.758 2.827 148.6 59.7 300 101325);
    ("H2", "CH4", "effective_macropore_i",
     effective_value after_CH4
       (molecular_value 2.016e-3 16.043e-3 2.827 3.758 59.7 148.6 300 (101325 / 101325))
       (knudsen_value (base after_CH4) 2.016e-3 300));
    ("H2", "CH4", "knudsen_i", knudsen_value (base after_CH4) 2.016e-3 300);
    ("H2", "CH4", "molecular_ij",
     molecular_value 2.016e-3 16.043e-3 2.827 3.758 59.7 148.6 300 101325) ]%string.

(** The two rows of the reference table that the example uses. *)
Definition example_LJ_data : gmap string (list cell) :=
  <["Substance"%string := [Str "CH4"; Str "H2"]]>
  (<["sigma [angstrom]"%string := [Float 3.758; Float 2.827]]>
  (<["epsilon [K]"%string := [Float 148.6; Float 59.7]]> ∅)).
End Values.

(** Two runs of [c] from states related by [Q] give the same result and
    related states. *)
Definition agree {S A} (Q : S -> S -> Prop) (c : M S A) : Prop :=
  forall s1 s2, Q s1 s2 -> (c s1).1 = (c s2).1 /\ Q (c s1).2 (c s2).2.

(** Two objects that differ at most in [molecular_weight]. *)
Definition same_other (s1 s2 : FluidMixture) : Prop :=
  other_attributes s1 = other_attributes s2.

(** A line holds the value that the method of its name returns on [self0]
    for its pair of species. *)
Definition row_sound (self0 : FluidMixture) (T P : R) (r : row) : Prop :=
  exists func, getattr r.1.2 tt = (Ok func, tt)
    /\ (func r.1.1.1 r.1.1.2 T P self0).1 = Ok r.2.

(** Started on an object that differs from [self0] at most in
    [molecular_weight], [c] keeps it so and appends sound lines only: those
    with the keys [ks] when it returns, an initial segment of them when it
    raises. *)
Definition logs {A} (self0 : FluidMixture) (T P : R)
    (ks : list (string * string * string))
    (c : M (FluidMixture * list row) A) : Prop :=
  forall w r w', same_other w.1 self0 -> c w = (r, w') ->
    same_other w'.1 self0
    /\ exists new, w'.2 = w.2 ++ new
         /\ Forall (row_sound self0 T P) new
         /\ match r with
            | Ok _ => row_key <$> new = ks
            | Raise _ => (row_key <$> new) `prefix_of` ks
            end.

(** ** [PureFluid.write_params]

    The method walks [self.__dict__], so it is modelled on Python values of
    the kinds it tells apart, and on a [__dict__] given as the list of its
    items in insertion order.  A line of the file is the triple of the values
    that ['{},{},{}\n'.format] renders. *)

#[local] Set Warnings "-register-all".
Inductive value : Type :=
  | VFloat (x : R)
  | VInt (n : Z)
  | VBool (b : bool)
  | VStr (s : string)
  | VNone
  | VTuple (elements : list value)
  | VList (elements : list value)
  | VDict (items : list (value * value)).

Definition line : Type := value * value * value.

(** What [write_params] can raise. *)
Inductive write_params_error : Type :=
  | JoinTypeError                      (* [' '.join] on a tuple with a non-string *)
  | ValTypeNotFound (key : string) (val : value).

(** The field [' ']. *)
Definition blank : value := VStr " ".

(** [' '.join(key2)] for a tuple [key2]. *)
Fixpoint join_strings (elements : list value) : option string :=
  match elements with
  | [] => Some ""%string
  | [VStr s] => Some s
  | VStr s :: rest => (λ r, s ++ " " ++ r)%string <$> join_strings rest
  | _ => None
  end.

(** The lines of the items of a dict value, up to the first exception. *)
Fixpoint dict_lines (items : list (value * value))
    : list line * option write_params_error :=
  match items with
  | [] => ([], None)
  | (key2, val2) :: rest =>
      match key2 with
      | VTuple elements =>
          match join_strings elements with
          | Some s => let (ls, e) := dict_lines rest in
                      ((blank, VStr s, val2) :: ls, e)
          | None => ([], Some JoinTypeError)
          end
      | _ => let (ls, e) := dict_lines rest in
             ((blank, key2, val2) :: ls, e)
      end
  end.

(** The lines of one attribute, up to the first exception. *)
Definition attribute_lines (key : string) (val : value)
    : list line * option write_params_error :=
  match val with
  | VFloat _ => ([(VStr key, blank, val)], None)
  | VDict items =>
      let (ls, e) := dict_lines items in ((VStr key, blank, blank) :: ls, e)
  | VList elements =>
      ((VStr key, blank, blank) :: ((λ val2, (blank, val2, blank)) <$> elements), None)
  | VStr _ | VNone => ([(VStr key, blank, val)], None)
  | _ => ([], Some (ValTypeNotFound key val))
  end.

(** [write_params] on the items of [self.__dict__]: the lines written to the
    file (opened for writing, so it starts empty), and the exception if one
    is raised. *)
Fixpoint write_params (vars : list (string * value))
    : list line * option write_params_error :=
  match vars with
  | [] => ([], None)
  | (key, val) :: rest =>
      match attribute_lines key val with
      | (ls, Some e) => (ls, Some e)
      | (ls, None) => let (ls', e) := write_params rest in (ls ++ ls', e)
      end
  end.

(** The items of the dict built by [{key: val for key, val in pairs}], in
    insertion order: a key that comes again keeps its place and takes the
    new value. *)
Fixpoint dict_set (items : list (string * R)) (key : string) (val : R)
    : list (string * R) :=
  match items with
  | [] => [(key, val)]
  | (k, v) :: rest =>
      if String.eqb k key then (k, val) :: rest
      else (k, v) :: dict_set rest key val
  end.

Definition dict_zip_items (keys : list string) (vals : list R) : list (string * R) :=
  foldl (λ items kv, dict_set items kv.1 kv.2) [] (zip keys vals).

Definition float_dict (items : list (string * R)) : value :=
  VDict ((λ kv, (VStr kv.1, VFloat kv.2)) <$> items).

(** [self.__dict__] of a mixture after [FluidMixture.__init__], in the order
    of the assignments; [mwo] is what [molecular_weight] holds. *)
Definition FluidMixture_vars (components : list string)
    (molecular_weight sigma epsilon_molecular : list R)
    (void_fraction d_pore tortuosity : R) (mwo : option R)
    : list (string * value) :=
  [ ("void_fraction", VFloat void_fraction);
    ("d_pore", VFloat d_pore);
    ("molecular_weight", match mwo with Some m => VFloat m | None => VNone end);
    ("tortuosity", VFloat tortuosity);
    ("R", VFloat 8.314%R);
    ("molecular_weight_i", float_dict (dict_zip_items components molecular_weight));
    ("sigma_i", float_dict (dict_zip_items components sigma));
    ("epsilon_i", float_dict (dict_zip_items components epsilon_molecular));
    ("component_i", VList (VStr <$> components)) ]%string.

(** The values [write_params] has a branch for. *)
Definition supported (val : value) : Prop :=
  match val with
  | VFloat _ | VStr _ | VNone | VList _ => True
  | VDict items =>
      Forall (λ kv, match kv.1 with
                    | VTuple elements => is_Some (join_strings elements)
                    | _ => True
                    end) items
  | _ => False
  end.

(** The number of lines of a supported attribute. *)
Definition attribute_size (val : value) : nat :=
  match val with
  | VDict items => Datatypes.S (length items)
  | VList elements => Datatypes.S (length elements)
  | _ => 1
  end.

(** ** [read_csv]

    The file is the list of its lines as iteration yields them (each with
    its newline, the last one possibly without).  Two builtins are left
    open: [eval] on a header field, which gives the name of the column (a
    string, as the keys that [get_LJ_params] looks up) or raises, and
    [float] on a field, which gives a number or raises [ValueError]. *)

Inductive read_csv_error (E : Type) : Type :=
  | StopIteration                    (* [next(f)] on a file without lines *)
  | EvalRaised (e : E).
Arguments StopIteration {E}.
Arguments EvalRaised {E} e.

(** [s.split(',')]. *)
Fixpoint split_comma (s : string) : list string :=
  match s with
  | EmptyString => [EmptyString]
  | String c s' =>
      let r := split_comma s' in
      if Ascii.eqb c ","%char then EmptyString :: r
      else match r with
           | h :: t => String c h :: t
           | [] => [String c EmptyString]
           end
  end.

(** [s.rstrip('\n')]. *)
Fixpoint rstrip_newline (s : string) : string :=
  match s with
  | EmptyString => EmptyString
  | String c s' =>
      match rstrip_newline s' with
      | EmptyString =>
          if Ascii.eqb c "010"%char then EmptyString else String c EmptyString
      | r => String c r
      end
  end.

(** The fields of a line. *)
Definition fields (ln : string) : list string := split_comma (rstrip_newline ln).

Section ReadCsv.
Context {E : Type} (py_eval : string -> E + string) (float_of : string -> option R).

(** [list(map(eval, names))]: stops at the first exception. *)
Fixpoint eval_all (names : list string) : E + list string :=
  match names with
  | [] => inr []
  | n :: rest =>
      match py_eval n with
      | inl e => inl e
      | inr key =>
          match eval_all rest with
          | inl e => inl e
          | inr keys => inr (key :: keys)
          end
      end
  end.

(** [float(val)], or [val] itself on [ValueError]. *)
Definition float_or_str (val : string) : cell :=
  match float_of val with
  | Some x => Float x
  | None => Str val
  end.

(** [data[key].append(c)]. *)
Definition append_cell (data : gmap string (list cell)) (key : string) (c : cell)
    : gmap string (list cell) :=
  alter (λ col, col ++ [c]) key data.

(** The inner loop, over [zip(header, fields)]. *)
Definition read_row (header : list string) (data : gmap string (list cell))
    (ln : string) : gmap string (list cell) :=
  foldl (λ d kv, append_cell d kv.1 (float_or_str kv.2)) data (zip header (fields ln)).

(** [{key: [] for key in header}]. *)
Definition empty_columns (header : list string) : gmap string (list cell) :=
  foldl (λ d key, <[key := []]> d) ∅ header.

Definition read_csv (f : list string)
    : read_csv_error E + gmap string (list cell) :=
  match f with
  | [] => inl StopIteration
  | first :: rows =>
      match eval_all (fields first) with
      | inl e => inl (EvalRaised e)
      | inr header => inr (foldl (read_row header) (empty_columns header) rows)
      end
  end.

(** The cell that a row gives to the column at position [k], if it has one. *)
Definition cell_at (k : nat) (ln : string) : option cell :=
  float_or_str <$> fields ln !! k.
End ReadCsv.

(** The steps of [molecular_ij] once the six entries are found. *)
Definition molecular_steps (mi mj si sj ei ej T P : R) : M FluidMixture R :=
  bind (truediv 1 (mi * 1000)) (λ ri,
    bind (truediv 1 (mj * 1000)) (λ rj,
      bind (math_sqrt (T * T * T * (ri + rj))) (λ s,
        bind (math_sqrt (ei * ej)) (λ eps,
          bind (truediv T eps) (λ w,
            bind (omega_ij w) (λ om,
              bind (truediv (1.858e-3 * s)
                      (P * ((si + sj) / 2) * ((si + sj) / 2) * om)) (λ q,
                bind (truediv q 100) (λ q1, truediv q1 100)))))))).

(** A file whose last row holds a name only: the substance column has three
    entries, the other two columns two. *)
Definition ragged_LJ_data : gmap string (list cell) :=
  <["Substance"%string := [Str "CH4"; Str "H2"; Str "N2"]]>
  (<["sigma [angstrom]"%string := [Float 3.758; Float 2.827]]>
  (<["epsilon [K]"%string := [Float 148.6; Float 59.7]]> ∅)).

(** ** [eval] and [float] on the fields of a parameter file

    [read_csv] is modelled over any [eval] and [float].  The two functions
    below are these on the texts that a parameter file holds: string
    literals in the header, decimal numerals and names in the rows. *)

Definition double_quote : ascii := "034"%char.
Definition apostrophe : ascii := "039"%char.
Definition backslash : ascii := "092"%char.

(** The text of a string literal after its opening quote [q]: everything up
    to the closing quote, which ends the field. *)
Fixpoint literal_body (q : ascii) (s : string) : option string :=
  match s with
  | EmptyString => None
  | String c s' =>
      if Ascii.eqb c q then
        match s' with
        | EmptyString => Some EmptyString
        | String _ _ => None
        end
      else if Ascii.eqb c backslash then None
      else String c <$> literal_body q s'
  end.

(** [eval] on a string literal in single or double quotes and without
    escapes: its text.  Any other expression is handed back uninterpreted;
    a bare name such as [Substance] is one on which Python raises
    [NameError]. *)
Definition eval_literal (s : string) : string + string :=
  match s with
  | EmptyString => inl s
  | String q s' =>
      if Ascii.eqb q double_quote || Ascii.eqb q apostrophe then
        match literal_body q s' with
        | Some text => inr text
        | None => inl s
        end
      else inl s
  end.

Definition digit (c : ascii) : option Z :=
  let n := Z.of_N (N_of_ascii c) in
  if ((48 <=? n) && (n <=? 57))%Z then Some (n - 48)%Z else None.

(** Digits with at most one point and at least one digit, read as the pair
    of the number without its point and the power of ten to divide by. *)
Fixpoint decimal (s : string) (point any : bool) (m scale : Z) : option (Z * Z) :=
  match s with
  | EmptyString => if any then Some (m, scale) else None
  | String c s' =>
      if Ascii.eqb c "."%char then
        if point then None else decimal s' true any m scale
      else
        match digit c with
        | Some d =>
            decimal s' point true (10 * m + d)%Z
              (if point then (10 * scale)%Z else scale)
        | None => None
        end
  end.

Definition signed_decimal (s : string) : option (Z * Z) :=
  match s with
  | String c s' =>
      if Ascii.eqb c "-"%char then
        (λ p, (- p.1, p.2)%Z) <$> decimal s' false false 0 1
      else if Ascii.eqb c "+"%char then decimal s' false false 0 1
      else decimal s false false 0 1
  | EmptyString => None
  end.

(** [float] on a decimal numeral with an optional sign; [None] stands for
    [ValueError], which is what a name such as [CH4] gives.  The other
    texts that Python accepts (an exponent, [inf], [nan], underscores,
    blanks around the numeral) do not occur in the files run here and are
    not recognised by this function. *)
Definition float_decimal (s : string) : option R :=
  (λ p, (IZR p.1 / IZR p.2)%R) <$> signed_decimal s.

(** A parameter file of a header and two rows. *)
Definition example_csv : list string :=
  ["'Substance','sigma [angstrom]','epsilon [K]'
"; "CH4,3.758,148.6
"; "H2,2.827,59.7
"]%string.

(** * Properties *)

(** ** Running and inverting computations *)

Section MonadLemmas.
Context {S : Type}.
Implicit Types s : S.

Lemma bind_run {A B} (c : M S A) (k : A -> M S B) s a s1 :
  c s = (Ok a, s1) -> bind c k s = k a s1.
Proof. unfold bind. now intros ->. Qed.

Lemma bind_raise {A B} (c : M S A) (k : A -> M S B) s e s1 :
  c s = (Raise e, s1) -> bind c k s = (Raise e, s1).
Proof. unfold bind. now intros ->. Qed.

Lemma bind_ok_inv {A B} (c : M S A) (k : A -> M S B) s b s2 :
  bind c k s = (Ok b, s2) ->
  exists a s1, c s = (Ok a, s1) /\ k a s1 = (Ok b, s2).
Proof.
  unfold bind. destruct (c s) as [[a|e] s1]; [eauto | discriminate].
Qed.

Lemma truediv_run (x y : R) s : y <> 0%R -> truediv x y s = (Ok (x / y)%R, s).
Proof. intros H. unfold truediv. now destruct (Req_dec_T y 0). Qed.

Lemma truediv_inv (x y : R) s r s' :
  truediv x y s = (r, s') ->
  s' = s /\ ((y <> 0%R /\ r = Ok (x / y)%R) \/ (y = 0%R /\ r = Raise ZeroDivisionError)).
Proof.
  unfold truediv, ret, raise. destruct (Req_dec_T y 0); intros [= <- <-]; auto.
Qed.

Lemma math_sqrt_run (x : R) s : (0 <= x)%R -> math_sqrt x s = (Ok (sqrt x), s).
Proof. intros H. unfold math_sqrt. destruct (Rlt_dec x 0); [lra | reflexivity]. Qed.

Lemma math_sqrt_inv (x : R) s r s' :
  math_sqrt x s = (r, s') ->
  s' = s /\ (((0 <= x)%R /\ r = Ok (sqrt x)) \/ ((x < 0)%R /\ r = Raise ValueError)).
Proof.
  unfold math_sqrt, ret, raise. destruct (Rlt_dec x 0); intros [= <- <-];
    split; auto. left. split; [lra | reflexivity].
Qed.

Lemma getitem_run {V} (d : S -> gmap string V) key s v :
  d s !! key = Some v -> getitem d key s = (Ok v, s).
Proof. unfold getitem. now intros ->. Qed.

Lemma getitem_missing {V} (d : S -> gmap string V) key s :
  d s !! key = None -> getitem d key s = (Raise (KeyError key), s).
Proof. unfold getitem. now intros ->. Qed.

Lemma getitem_inv {V} (d : S -> gmap string V) key s r s' :
  getitem d key s = (r, s') ->
  s' = s /\ ((exists v, d s !! key = Some v /\ r = Ok v)
             \/ (d s !! key = None /\ r = Raise (KeyError key))).
Proof.
  unfold getitem. destruct (d s !! key) as [v|]; intros [= <- <-]; eauto.
Qed.

Lemma assert_inv (cond : bool) msg s r s' :
  assert cond msg s = (r, s') ->
  s' = s /\ ((cond = true /\ r = Ok tt) \/ (cond = false /\ r = Raise (AssertionError msg))).
Proof. destruct cond; intros [= <- <-]; auto. Qed.

Lemma math_exp_run (x : R) s :
  (exp_min <= x <= exp_max)%R -> math_exp x s = (Ok (exp x), s).
Proof.
  intros [Hlo Hhi]. unfold math_exp.
  destruct (Rlt_dec exp_max x); [lra|]. destruct (Rlt_dec x exp_min); [lra|].
  reflexivity.
Qed.

Lemma math_exp_overflow (x : R) s :
  (exp_max < x)%R -> math_exp x s = (Raise OverflowError, s).
Proof. intros H. unfold math_exp. now destruct (Rlt_dec exp_max x). Qed.

Lemma math_exp_underflow (x : R) s :
  (x < exp_min)%R -> math_exp x s = (Ok 0%R, s).
Proof.
  intros H. unfold math_exp, exp_max, exp_min in *.
  destruct (Rlt_dec _ x); [lra|]. now destruct (Rlt_dec x _).
Qed.

Lemma math_exp_inv (x : R) s r s' :
  math_exp x s = (r, s') ->
  s' = s /\ forall v, r = Ok v ->
             (x <= exp_max)%R /\ v = (if Rlt_dec x exp_min then 0 else exp x)%R.
Proof.
  unfold math_exp, ret, raise.
  destruct (Rlt_dec exp_max x); [|destruct (Rlt_dec x exp_min)];
    intros [= <- <-]; (split; [reflexivity|]); intros v [= <-]; split; lra.
Qed.

(** One term [A / math.exp(x)] of the correlation. *)
Lemma exp_term_run {B} (A x : R) (k : R -> M S B) s :
  (exp_min <= x <= exp_max)%R ->
  bind (math_exp x) (fun e => bind (truediv A e) k) s = k (A / exp x)%R s.
Proof.
  intros H. rewrite (bind_run _ _ _ _ _ (math_exp_run x s H)).
  apply bind_run, truediv_run. pose proof (exp_pos x). lra.
Qed.

Lemma exp_term_overflow {B} (A x : R) (k : R -> M S B) s :
  (exp_max < x)%R ->
  bind (math_exp x) (fun e => bind (truediv A e) k) s = (Raise OverflowError, s).
Proof. intros H. now rewrite (bind_raise _ _ _ _ _ (math_exp_overflow x s H)). Qed.

Lemma exp_term_underflow {B} (A x : R) (k : R -> M S B) s :
  (x < exp_min)%R ->
  bind (math_exp x) (fun e => bind (truediv A e) k) s = (Raise ZeroDivisionError, s).
Proof.
  intros H. rewrite (bind_run _ _ _ _ _ (math_exp_underflow x s H)).
  apply bind_raise. unfold truediv. now destruct (Req_dec_T 0 0).
Qed.
End MonadLemmas.

Lemma Rltb_true (x y : R) : Rltb x y = true <-> (x < y)%R.
Proof. unfold Rltb. destruct (Rlt_dec x y); split; auto; discriminate. Qed.

Lemma in_range_true (v lo hi : R) :
  Rltb lo v && Rltb v hi = true <-> (lo < v < hi)%R.
Proof. rewrite andb_true_iff, !Rltb_true. tauto. Qed.

Lemma in_range_false (v lo hi : R) :
  Rltb lo v && Rltb v hi = false <-> ~ (lo < v < hi)%R.
Proof. rewrite <- in_range_true. destruct (Rltb lo v && Rltb v hi); split; congruence. Qed.

(** Splits a hypothesis about a chain of binds into one fact per step. *)
Ltac step_ok H :=
  let a := fresh "a" in let s1 := fresh "s" in let H1 := fresh "Hstep" in
  apply bind_ok_inv in H; destruct H as (a & s1 & H1 & H).

Ltac inv_prim H :=
  first
    [ apply truediv_inv in H; destruct H as [-> [[? H]|[? H]]]; [|discriminate H]
    | apply math_sqrt_inv in H; destruct H as [-> [[? H]|[? H]]]; [|discriminate H]
    | apply getitem_inv in H; destruct H as [-> [(? & ? & H)|[? H]]]; [|discriminate H]
    | apply assert_inv in H; destruct H as [-> [[? H]|[? H]]]; [|discriminate H] ];
  injection H as ->.

(** Evaluates the decisions a computation takes, one by one; branches that
    contradict the context are closed. *)
Ltac decide_step :=
  cbv beta iota;
  match goal with
  | H : ?o = Some _ |- context [match ?o with _ => _ end] => rewrite H
  | H : ?o = None |- context [match ?o with _ => _ end] => rewrite H
  | |- context [Req_dec_T ?y 0%R] =>
      destruct (Req_dec_T y 0%R);
      [try (exfalso; first [contradiction | lra | pose proof PI_RGT_0; lra]) |]
  | |- context [Rlt_dec ?x ?y] =>
      destruct (Rlt_dec x y);
      try (exfalso; first [contradiction | lra])
  end.

(** ** Knudsen diffusivity *)

Section Knudsen.
Local Open Scope R_scope.


Lemma knudsen_run (self : PureFluid) (M T : R) :
  molecular_weight self = Some M ->
  tortuosity self <> 0 -> M <> 0 -> 0 <= 8 * R_gas self * T / PI / M ->
  knudsen T self = (Ok (knudsen_value self M T), self).
Proof.
  intros HM Ht HM0 Hpos.
  unfold knudsen, attr, bind, truediv_obj, truediv, math_sqrt, ret, raise, knudsen_value.
  repeat decide_step. reflexivity.
Qed.

Lemma knudsen_inv (self self' : PureFluid) (T : R) (r : res R) :
  knudsen T self = (r, self') ->
  self' = self /\
  forall v, r = Ok v ->
    exists M, molecular_weight self = Some M /\ tortuosity self <> 0 /\ M <> 0
              /\ 0 <= 8 * R_gas self * T / PI / M /\ v = knudsen_value self M T.
Proof.
  unfold knudsen, attr, bind, truediv_obj, truediv, math_sqrt, ret, raise, knudsen_value.
  cbv beta iota.
  destruct (Req_dec_T (tortuosity self) 0); [intros [= <- <-]; split; [auto | discriminate]|].
  cbv beta iota. destruct (Req_dec_T 3 0); [lra|].
  cbv beta iota. destruct (Req_dec_T PI 0); [pose proof PI_RGT_0; lra|].
  cbv beta iota.
  destruct (molecular_weight self) as [M|]; [|intros [= <- <-]; split; [auto | discriminate]].
  destruct (Req_dec_T M 0); [intros [= <- <-]; split; [auto | discriminate]|].
  cbv beta iota.
  destruct (Rlt_dec _ 0); intros [= <- <-]; (split; [auto|]); [discriminate|].
  intros v [= <-]. exists M. repeat split; auto. lra.
Qed.
End Knudsen.

(** ** The collision integral *)

Section CollisionIntegral.
Local Open Scope R_scope.
Context (self : FluidMixture).

Lemma Rpower_neq_0 (w b : R) : Rpower w b <> 0.
Proof. unfold Rpower. pose proof (exp_pos (b * ln w)). lra. Qed.

Lemma exp_neq_0 (x : R) : exp x <> 0.
Proof. pose proof (exp_pos x). lra. Qed.

(** *** The correlation beyond the overflow of [math.exp]

    [math.exp (B4 * w)] overflows for [w] above 182.27; from 182 on the
    correlation value is below 0.5, so that the assertion fails wherever the
    exponential overflows. *)

Lemma exp_double (x : R) : exp (2 * x) = exp x * exp x.
Proof. replace (2 * x) with (x + x) by ring. apply exp_plus. Qed.

Lemma exp_square_lower (x a b : R) :
  0 <= a -> a <= exp x -> b <= a * a -> b <= exp (2 * x).
Proof. intros Ha Hx Hb. rewrite exp_double. nra. Qed.

(** A lower bound on [exp x] from [(1 + x / 64) ^ 64], by six squarings
    with rounded intermediate bounds. *)
Lemma exp_lower_64 (x a1 a2 a3 a4 a5 a6 : R) :
  0 <= 1 + x / 64 -> 0 <= a1 -> 0 <= a2 -> 0 <= a3 -> 0 <= a4 -> 0 <= a5 ->
  a1 <= (1 + x / 64) * (1 + x / 64) -> a2 <= a1 * a1 -> a3 <= a2 * a2 ->
  a4 <= a3 * a3 -> a5 <= a4 * a4 -> a6 <= a5 * a5 ->
  a6 <= exp x.
Proof.
  intros H0 H1 H2 H3 H4 H5 L1 L2 L3 L4 L5 L6.
  pose proof (exp_ineq1_le (x / 64)) as E0.
  pose proof (exp_square_lower _ _ _ H0 E0 L1) as E1.
  pose proof (exp_square_lower _ _ _ H1 E1 L2) as E2.
  pose proof (exp_square_lower _ _ _ H2 E2 L3) as E3.
  pose proof (exp_square_lower _ _ _ H3 E3 L4) as E4.
  pose proof (exp_square_lower _ _ _ H4 E4 L5) as E5.
  pose proof (exp_square_lower _ _ _ H5 E5 L6) as E6.
  replace (2 * (2 * (2 * (2 * (2 * (2 * (x / 64))))))) with x in E6 by field.
  exact E6.
Qed.

Lemma exp_4_9 : exp 4.9 <= 182.
Proof.
  assert (H : 0.006 <= exp (Ropp 4.9)).
  { apply (exp_lower_64 _ 0.8527 0.727 0.5285 0.2793 0.078); lra. }
  rewrite exp_Ropp in H. pose proof (exp_pos 4.9) as Hp.
  pose proof (Rinv_r (exp 4.9) ltac:(lra)) as Hi. nra.
Qed.

Lemma ln_182 : 4.9 <= ln 182.
Proof.
  destruct (Rle_lt_dec 4.9 (ln 182)) as [H|H]; [exact H|].
  apply exp_increasing in H. rewrite exp_ln in H by lra.
  pose proof exp_4_9. lra.
Qed.

Lemma Rpower_B1_large (w : R) : 182 <= w -> 2.138 <= Rpower w B1.
Proof.
  intros Hw. unfold Rpower, B1.
  assert (Hln : 4.9 <= ln w).
  { pose proof ln_182. destruct (Req_dec_T w 182) as [->|Hne]; [lra|].
    assert (ln 182 < ln w) by (apply ln_increasing; lra). lra. }
  assert (H : 2.138 <= exp (0.15610 * 4.9)).
  { apply (exp_lower_64 _ 1.02404 1.04865 1.09966 1.20925 1.46228); lra. }
  destruct (Req_dec_T (0.15610 * 4.9) (0.15610 * ln w)) as [<-|Hne]; [exact H|].
  assert (exp (0.15610 * 4.9) < exp (0.15610 * ln w))
    by (apply exp_increasing; lra).
  lra.
Qed.

Lemma exp_large (x : R) : 86 <= x -> 1936 <= exp x.
Proof.
  intros Hx. pose proof (exp_ineq1_le (x / 2)) as H.
  replace x with (2 * (x / 2)) by field. rewrite exp_double. nra.
Qed.

Lemma div_le_bound (A x b : R) : 0 < A -> 0 < b -> b <= x -> A / x <= A / b.
Proof.
  intros HA Hb Hx. unfold Rdiv. apply Rmult_le_compat_l; [lra|].
  apply Rinv_le_contravar; lra.
Qed.

Lemma omega_value_large (w : R) : 182 <= w -> omega_value w < 0.5.
Proof.
  intros Hw. unfold omega_value.
  pose proof (div_le_bound A1 _ 2.138 ltac:(unfold A1; lra) ltac:(lra)
                (Rpower_B1_large w Hw)) as H1.
  pose proof (div_le_bound A2 _ 1936 ltac:(unfold A2; lra) ltac:(lra)
                (exp_large (B2 * w) ltac:(unfold B2; lra))) as H2.
  pose proof (div_le_bound A3 _ 1936 ltac:(unfold A3; lra) ltac:(lra)
                (exp_large (B3 * w) ltac:(unfold B3; lra))) as H3.
  pose proof (div_le_bound A4 _ 1936 ltac:(unfold A4; lra) ltac:(lra)
                (exp_large (B4 * w) ltac:(unfold B4; lra))) as H4.
  unfold A1, A2, A3, A4 in *. lra.
Qed.

(** Within the asserted range no exponential overflows. *)
Lemma in_range_no_overflow (w : R) :
  0.5 < omega_value w -> B4 * w <= exp_max.
Proof.
  intros H. destruct (Rle_lt_dec 182 w) as [Hw|Hw].
  - pose proof (omega_value_large w Hw). lra.
  - unfold B4, exp_max. lra.
Qed.

Lemma pow_pos (w b : R) : 0 < w -> pow w b self = (Ok (Real (Rpower w b)), self).
Proof. intros Hw. unfold pow. now destruct (Rlt_dec 0 w). Qed.

Lemma pow_neg (w b : R) : w < 0 -> pow w b self = (Ok Complex, self).
Proof.
  intros Hw. unfold pow. destruct (Rlt_dec 0 w); [lra|].
  now destruct (Req_dec_T w 0); [lra|].
Qed.

Lemma truediv_number_run (x y : R) :
  y <> 0 -> truediv_number x (Real y) self = (Ok (Real (x / y)), self).
Proof.
  intros Hy. unfold truediv_number.
  now rewrite (bind_run _ _ _ _ _ (truediv_run x y self Hy)).
Qed.

(** On a positive argument: [OverflowError] where the last exponential
    overflows, and otherwise no exception but the failed assertion. *)
Lemma omega_ij_pos (w : R) :
  0 < w ->
  omega_ij w self =
    (if Rlt_dec exp_max (B4 * w) then Raise OverflowError
     else if Rltb 0.5 (omega_value w) && Rltb (omega_value w) 2.7
          then Ok (omega_value w)
          else Raise (AssertionError (not_reasonable (omega_value w))), self).
Proof.
  intros Hw. unfold omega_ij.
  rewrite (bind_run _ _ _ _ _ (pow_pos w B1 Hw)).
  rewrite (bind_run _ _ _ _ _ (truediv_number_run A1 _ (Rpower_neq_0 w B1))).
  assert (L2 : exp_min <= B2 * w) by (unfold exp_min, B2; lra).
  assert (L3 : exp_min <= B3 * w) by (unfold exp_min, B3; lra).
  assert (L4 : exp_min <= B4 * w) by (unfold exp_min, B4; lra).
  destruct (Rlt_dec exp_max (B2 * w)) as [O2|O2].
  { rewrite exp_term_overflow by exact O2.
    destruct (Rlt_dec exp_max (B4 * w)) as [_|N]; [reflexivity|].
    exfalso. unfold B2, B4 in *. lra. }
  rewrite exp_term_run by lra.
  destruct (Rlt_dec exp_max (B3 * w)) as [O3|O3].
  { rewrite exp_term_overflow by exact O3.
    destruct (Rlt_dec exp_max (B4 * w)) as [_|N]; [reflexivity|].
    exfalso. unfold B3, B4 in *. lra. }
  rewrite exp_term_run by lra.
  destruct (Rlt_dec exp_max (B4 * w)) as [O4|O4].
  { now rewrite exp_term_overflow by exact O4. }
  rewrite exp_term_run by lra.
  cbn [add_float ordered]. unfold bind at 1, ret at 1. fold (omega_value w).
  unfold bind, assert, ret, raise.
  now destruct (Rltb 0.5 (omega_value w) && Rltb (omega_value w) 2.7).
Qed.

(** Within the asserted range [omega_ij] returns the correlation value. *)
Lemma omega_ij_in_range (w : R) :
  0 < w -> 0.5 < omega_value w < 2.7 ->
  omega_ij w self = (Ok (omega_value w), self).
Proof.
  intros Hw Hr. rewrite (omega_ij_pos w Hw).
  destruct (Rlt_dec exp_max (B4 * w)) as [O|_].
  - pose proof (in_range_no_overflow w ltac:(lra)). lra.
  - now rewrite (proj2 (in_range_true _ _ _) Hr).
Qed.

Lemma omega_ij_zero : omega_ij 0 self = (Raise ZeroDivisionError, self).
Proof.
  unfold omega_ij, pow.
  destruct (Rlt_dec 0 0); [lra|]. destruct (Req_dec_T 0 0); [|lra].
  unfold bind at 1, ret at 1. apply bind_raise.
  unfold truediv_number. apply bind_raise.
  unfold truediv. now destruct (Req_dec_T 0 0).
Qed.

(** On a negative argument the power is complex: the comparison raises
    [TypeError], unless an exponential has underflowed to zero before, in
    which case the division by it raises [ZeroDivisionError]. *)
Lemma omega_ij_neg (w : R) :
  w < 0 ->
  omega_ij w self
  = (Raise (if Rlt_dec (B4 * w) exp_min then ZeroDivisionError else TypeError),
     self).
Proof.
  intros Hw. unfold omega_ij.
  rewrite (bind_run _ _ _ _ _ (pow_neg w B1 Hw)).
  unfold truediv_number. unfold bind at 1, ret at 1.
  assert (U2 : B2 * w <= exp_max) by (unfold exp_max, B2; lra).
  assert (U3 : B3 * w <= exp_max) by (unfold exp_max, B3; lra).
  assert (U4 : B4 * w <= exp_max) by (unfold exp_max, B4; lra).
  destruct (Rlt_dec (B2 * w) exp_min) as [Z2|Z2].
  { rewrite exp_term_underflow by exact Z2.
    destruct (Rlt_dec (B4 * w) exp_min) as [_|N]; [reflexivity|].
    exfalso. unfold B2, B4 in *. lra. }
  rewrite exp_term_run by lra.
  destruct (Rlt_dec (B3 * w) exp_min) as [Z3|Z3].
  { rewrite exp_term_underflow by exact Z3.
    destruct (Rlt_dec (B4 * w) exp_min) as [_|N]; [reflexivity|].
    exfalso. unfold B3, B4 in *. lra. }
  rewrite exp_term_run by lra.
  destruct (Rlt_dec (B4 * w) exp_min) as [Z4|Z4].
  { now rewrite exp_term_underflow by exact Z4. }
  rewrite exp_term_run by lra.
  reflexivity.
Qed.

Lemma omega_ij_inv (w : R) (r : res R) (self' : FluidMixture) :
  omega_ij w self = (r, self') ->
  self' = self /\
  forall v, r = Ok v -> 0 < w /\ v = omega_value w /\ 0.5 < v < 2.7.
Proof.
  destruct (Rlt_dec 0 w) as [Hw|Hw].
  - rewrite (omega_ij_pos w Hw).
    destruct (Rlt_dec exp_max (B4 * w));
      [intros [= <- <-]; split; [auto | discriminate]|].
    destruct (Rltb 0.5 _ && Rltb _ 2.7) eqn:E; intros [= <- <-]; split; auto;
      [|discriminate].
    intros v [= <-]. apply in_range_true in E. auto.
  - destruct (Req_dec_T w 0) as [->|Hw0].
    + rewrite omega_ij_zero. intros [= <- <-]. split; [auto | discriminate].
    + rewrite (omega_ij_neg w) by lra. intros [= <- <-]. split; [auto | discriminate].
Qed.
End CollisionIntegral.

(** ** Computations that leave the receiver as it was *)


Create HintDb read_only.

Section ReadOnly.
Context {S : Type}.

Lemma read_only_bind {A B} (c : M S A) (k : A -> M S B) :
  read_only c -> (forall a, read_only (k a)) -> read_only (bind c k).
Proof.
  intros Hc Hk s r s'. unfold bind. destruct (c s) as [[a|e] s1] eqn:E.
  - intros H. apply Hk in H. apply Hc in E. congruence.
  - intros [= <- <-]. now apply Hc in E.
Qed.

Lemma read_only_ret {A} (a : A) : read_only (S := S) (ret a).
Proof. now intros s r s' [= <- <-]. Qed.

Lemma read_only_raise {A} (e : exn) : read_only (S := S) (A := A) (raise e).
Proof. now intros s r s' [= <- <-]. Qed.

Lemma read_only_attr {A} (f : S -> A) : read_only (attr f).
Proof. now intros s r s' [= <- <-]. Qed.

Lemma read_only_truediv (x y : R) : read_only (S := S) (truediv x y).
Proof. intros s r s' H. now apply truediv_inv in H. Qed.

Lemma read_only_math_sqrt (x : R) : read_only (S := S) (math_sqrt x).
Proof. intros s r s' H. now apply math_sqrt_inv in H. Qed.

Lemma read_only_getitem {V} (d : S -> gmap string V) key : read_only (getitem d key).
Proof. intros s r s' H. now apply getitem_inv in H. Qed.

Lemma read_only_assert (cond : bool) msg : read_only (S := S) (assert cond msg).
Proof. intros s r s' H. now apply assert_inv in H. Qed.

Lemma read_only_pow (w b : R) : read_only (S := S) (pow w b).
Proof.
  intros s r s'. unfold pow.
  destruct (Rlt_dec 0 w); [|destruct (Req_dec_T w 0)]; now intros [= <- <-].
Qed.

Lemma read_only_math_exp (x : R) : read_only (S := S) (math_exp x).
Proof. intros s r s' H. now apply math_exp_inv in H. Qed.

Lemma read_only_truediv_number (x : R) (y : number) :
  read_only (S := S) (truediv_number x y).
Proof.
  destruct y as [y|]; cbn [truediv_number].
  - apply read_only_bind; [apply read_only_truediv | intros q; apply read_only_ret].
  - apply read_only_ret.
Qed.

Lemma read_only_ordered (x : number) : read_only (S := S) (ordered x).
Proof. destruct x; [apply read_only_ret | apply read_only_raise]. Qed.
End ReadOnly.

#[export] Hint Resolve read_only_ret read_only_raise read_only_attr
  read_only_truediv read_only_math_sqrt read_only_getitem read_only_assert
  read_only_pow read_only_math_exp read_only_truediv_number read_only_ordered
  : read_only.

Ltac read_only_tac :=
  repeat first [ apply read_only_bind; [|intros ?] | solve [auto with read_only] ].

Lemma sigma_ij_rule_read_only i j : read_only (sigma_ij_rule i j).
Proof. unfold sigma_ij_rule. read_only_tac. Qed.

Lemma epsilon_ij_rule_read_only i j : read_only (epsilon_ij_rule i j).
Proof. unfold epsilon_ij_rule. read_only_tac. Qed.

Lemma omega_ij_read_only w : read_only (omega_ij w).
Proof. unfold omega_ij. read_only_tac. Qed.

#[export] Hint Resolve sigma_ij_rule_read_only epsilon_ij_rule_read_only
  omega_ij_read_only : read_only.

Lemma molecular_ij_read_only i j T P : read_only (molecular_ij i j T P).
Proof. unfold molecular_ij. read_only_tac. Qed.

Lemma knudsen_read_only T : read_only (knudsen T).
Proof. intros s r s' H. now apply knudsen_inv in H. Qed.

(** ** Molecular diffusivity *)

Section Molecular.
Local Open Scope R_scope.


Context (self : FluidMixture) (i j : string) (mi mj si sj ei ej : R).
Hypothesis Hmi : molecular_weight_i self !! i = Some mi.
Hypothesis Hmj : molecular_weight_i self !! j = Some mj.
Hypothesis Hsi : sigma_i self !! i = Some si.
Hypothesis Hsj : sigma_i self !! j = Some sj.
Hypothesis Hei : epsilon_i self !! i = Some ei.
Hypothesis Hej : epsilon_i self !! j = Some ej.

Lemma sigma_ij_rule_run : sigma_ij_rule i j self = (Ok ((si + sj) / 2), self).
Proof.
  unfold sigma_ij_rule.
  rewrite (bind_run _ _ _ _ _ (getitem_run _ _ _ _ Hsi)).
  rewrite (bind_run _ _ _ _ _ (getitem_run _ _ _ _ Hsj)).
  apply truediv_run. lra.
Qed.

Lemma epsilon_ij_rule_run :
  0 <= ei * ej -> epsilon_ij_rule i j self = (Ok (sqrt (ei * ej)), self).
Proof.
  intros H. unfold epsilon_ij_rule.
  rewrite (bind_run _ _ _ _ _ (getitem_run _ _ _ _ Hei)).
  rewrite (bind_run _ _ _ _ _ (getitem_run _ _ _ _ Hej)).
  now apply math_sqrt_run.
Qed.

Lemma molecular_ij_run (T P : R) :
  molecular_defined mi mj si sj ei ej T P ->
  molecular_ij i j T P self = (Ok (molecular_value mi mj si sj ei ej T P), self).
Proof.
  intros [H1 H2 H3 H4 H5 H6 H7 H8]. unfold molecular_ij.
  rewrite (bind_run _ _ _ _ _ (getitem_run _ _ _ _ Hmi)).
  rewrite (bind_run _ _ _ _ _ (getitem_run _ _ _ _ Hmj)).
  rewrite (bind_run _ _ _ _ _ (truediv_run 1 _ self H1)).
  rewrite (bind_run _ _ _ _ _ (truediv_run 1 _ self H2)).
  rewrite (bind_run _ _ _ _ _ (math_sqrt_run _ self H3)).
  rewrite (bind_run _ _ _ _ _ sigma_ij_rule_run).
  rewrite (bind_run _ _ _ _ _ sigma_ij_rule_run).
  rewrite (bind_run _ _ _ _ _ (epsilon_ij_rule_run H4)).
  rewrite (bind_run _ _ _ _ _ (truediv_run T _ self H5)).
  assert (Hom : omega_ij (T / sqrt (ei * ej)) self
                = (Ok (omega_value (T / sqrt (ei * ej))), self))
    by exact (omega_ij_in_range self _ H6 H7).
  rewrite (bind_run _ _ _ _ _ Hom).
  rewrite (bind_run _ _ _ _ _ (truediv_run _ _ self H8)).
  rewrite (bind_run _ _ _ _ _ (truediv_run _ 100 self ltac:(lra))).
  apply truediv_run. lra.
Qed.
End Molecular.

Section MolecularInversion.
Local Open Scope R_scope.

Lemma sigma_ij_rule_inv (self self' : FluidMixture) i j v :
  sigma_ij_rule i j self = (Ok v, self') ->
  exists si sj, sigma_i self !! i = Some si /\ sigma_i self !! j = Some sj
                /\ v = (si + sj) / 2.
Proof.
  intros H. unfold sigma_ij_rule in H.
  step_ok H. inv_prim Hstep. step_ok H. inv_prim Hstep. inv_prim H.
  eauto.
Qed.

Lemma epsilon_ij_rule_inv (self self' : FluidMixture) i j v :
  epsilon_ij_rule i j self = (Ok v, self') ->
  exists ei ej, epsilon_i self !! i = Some ei /\ epsilon_i self !! j = Some ej
                /\ 0 <= ei * ej /\ v = sqrt (ei * ej).
Proof.
  intros H. unfold epsilon_ij_rule in H.
  step_ok H. inv_prim Hstep. step_ok H. inv_prim Hstep. inv_prim H.
  eauto 6.
Qed.

Lemma molecular_ij_inv (self self' : FluidMixture) i j T P v :
  molecular_ij i j T P self = (Ok v, self') ->
  exists mi mj si sj ei ej,
    molecular_weight_i self !! i = Some mi /\
    molecular_weight_i self !! j = Some mj /\
    sigma_i self !! i = Some si /\ sigma_i self !! j = Some sj /\
    epsilon_i self !! i = Some ei /\ epsilon_i self !! j = Some ej /\
    molecular_defined mi mj si sj ei ej T P /\
    v = molecular_value mi mj si sj ei ej T P.
Proof.
  intros H. unfold molecular_ij in H.
  step_ok H. inv_prim Hstep. rename H0 into Hmi.
  step_ok H. inv_prim Hstep. rename H0 into Hmj.
  step_ok H. inv_prim Hstep. step_ok H. inv_prim Hstep.
  step_ok H. inv_prim Hstep.
  step_ok H. pose proof (sigma_ij_rule_read_only _ _ _ _ _ Hstep) as ->.
  apply sigma_ij_rule_inv in Hstep as (si & sj & Hsi & Hsj & ->).
  step_ok H. pose proof (sigma_ij_rule_read_only _ _ _ _ _ Hstep) as ->.
  apply sigma_ij_rule_inv in Hstep as (si' & sj' & Hsi' & Hsj' & ->).
  rewrite Hsi in Hsi'. rewrite Hsj in Hsj'.
  injection Hsi' as <-. injection Hsj' as <-.
  step_ok H. pose proof (epsilon_ij_rule_read_only _ _ _ _ _ Hstep) as ->.
  apply epsilon_ij_rule_inv in Hstep as (ei & ej & Hei & Hej & Heps & ->).
  step_ok H. inv_prim Hstep.
  step_ok H. apply omega_ij_inv in Hstep as [-> Hom].
  destruct (Hom _ eq_refl) as (Hw & -> & Hrange).
  step_ok H. inv_prim Hstep. step_ok H. inv_prim Hstep. inv_prim H.
  do 6 eexists. repeat split; eauto; lra.
Qed.
End MolecularInversion.

(** ** [knudsen_i] and the effective macropore diffusivity *)


Section Effective.
Local Open Scope R_scope.

Lemma set_base_base (self : FluidMixture) : set_base (base self) self = self.
Proof. now destruct self. Qed.

Lemma inherited_read_only {A} (c : M PureFluid A) (self : FluidMixture) r b :
  read_only c -> c (base self) = (r, b) -> inherited c self = (r, self).
Proof.
  intros Hc H. unfold inherited. rewrite H.
  apply Hc in H. subst b. now rewrite set_base_base.
Qed.

Lemma knudsen_i_missing (self : FluidMixture) i j T P :
  molecular_weight_i self !! i = None ->
  knudsen_i i j T P self = (Raise (KeyError i), self).
Proof.
  intros H. unfold knudsen_i.
  now rewrite (bind_raise _ _ _ _ _ (getitem_missing _ _ _ H)).
Qed.

Lemma knudsen_i_found (self : FluidMixture) i j T P m :
  molecular_weight_i self !! i = Some m ->
  knudsen_i i j T P self
  = ((knudsen T (set_molecular_weight (Some m) (base self))).1,
     with_molecular_weight m self).
Proof.
  intros H. unfold knudsen_i.
  rewrite (bind_run _ _ _ _ _ (getitem_run _ _ _ _ H)).
  unfold bind at 1, modify. fold (with_molecular_weight m self).
  destruct (knudsen T (set_molecular_weight (Some m) (base self))) as [r b] eqn:E.
  apply (inherited_read_only _ (with_molecular_weight m self) r b);
    [apply knudsen_read_only | exact E].
Qed.

Lemma knudsen_i_inv (self self' : FluidMixture) i j T P r :
  knudsen_i i j T P self = (r, self') ->
  (molecular_weight_i self !! i = None /\ r = Raise (KeyError i) /\ self' = self)
  \/ (exists m, molecular_weight_i self !! i = Some m
                /\ r = (knudsen T (set_molecular_weight (Some m) (base self))).1
                /\ self' = with_molecular_weight m self).
Proof.
  destruct (molecular_weight_i self !! i) as [m|] eqn:E.
  - rewrite (knudsen_i_found _ _ _ _ _ _ E). intros [= <- <-]. right. eauto.
  - rewrite (knudsen_i_missing _ _ _ _ _ E). intros [= <- <-]. left. auto.
Qed.


Lemma effective_macropore_i_run (self : FluidMixture) i j T P m Dm Dk :
  molecular_weight_i self !! i = Some m ->
  molecular_ij i j T (P / 101325) self = (Ok Dm, self) ->
  (knudsen T (set_molecular_weight (Some m) (base self))).1 = Ok Dk ->
  effective_defined self Dm Dk ->
  effective_macropore_i i j T P self
  = (Ok (effective_value self Dm Dk), with_molecular_weight m self).
Proof.
  intros Hm HDm HDk [H1 H2 H3 H4]. unfold effective_macropore_i.
  rewrite (bind_run _ _ _ _ _ (truediv_run P 101325 self ltac:(lra))).
  unfold bind at 1 2, attr.
  rewrite (bind_run _ _ _ _ _ (truediv_run _ _ self H1)).
  rewrite (bind_run _ _ _ _ _ HDm).
  rewrite (bind_run _ _ _ _ _ (truediv_run 1 _ self H2)).
  rewrite (bind_run _ _ _ Dk (with_molecular_weight m self)).
  2:{ rewrite (knudsen_i_found _ _ _ _ _ _ Hm). now rewrite HDk. }
  rewrite (bind_run _ _ _ _ _ (truediv_run 1 _ _ H3)).
  now rewrite truediv_run.
Qed.

Lemma effective_macropore_i_inv (self self' : FluidMixture) i j T P v :
  effective_macropore_i i j T P self = (Ok v, self') ->
  exists m Dm Dk,
    molecular_weight_i self !! i = Some m /\
    molecular_ij i j T (P / 101325) self = (Ok Dm, self) /\
    (knudsen T (set_molecular_weight (Some m) (base self))).1 = Ok Dk /\
    effective_defined self Dm Dk /\
    v = effective_value self Dm Dk /\
    self' = with_molecular_weight m self.
Proof.
  intros H. unfold effective_macropore_i in H.
  step_ok H. inv_prim Hstep.
  unfold bind at 1 2, attr in H.
  step_ok H. inv_prim Hstep.
  step_ok H. pose proof (molecular_ij_read_only _ _ _ _ _ _ _ Hstep) as ->.
  rename Hstep into HDm.
  step_ok H. inv_prim Hstep.
  step_ok H. apply knudsen_i_inv in Hstep as [(_ & [=] & _)|(m & Hm & HDk & ->)].
  step_ok H. inv_prim Hstep. inv_prim H.
  exists m, a, a0. repeat split; auto.
Qed.
End Effective.

(** ** Where the correlation is within its asserted range *)

Section OmegaRange.
Local Open Scope R_scope.

Lemma ln_le_pred (w : R) : 0 < w -> ln w <= w - 1.
Proof.
  intros Hw. destruct (Rle_dec (ln w) (w - 1)) as [H|H]; [exact H|].
  exfalso. assert (Hlt : w - 1 < ln w) by lra.
  apply exp_increasing in Hlt. rewrite (exp_ln w Hw) in Hlt.
  pose proof (exp_ineq1_le (w - 1)). lra.
Qed.

Lemma ln_nonneg (w : R) : 1 <= w -> 0 <= ln w.
Proof.
  intros Hw. destruct (Req_dec_T w 1) as [->|Hne]; [rewrite ln_1; lra|].
  rewrite <- ln_1. left. apply ln_increasing; lra.
Qed.

(** [A / exp x] is positive and at most [A / (1 + x)]. *)
Lemma div_exp_bounds (A x : R) :
  0 < A -> 0 <= x -> 0 < A / exp x <= A / (1 + x).
Proof.
  intros HA Hx. pose proof (exp_pos x) as He. pose proof (exp_ineq1_le x) as Hle.
  split.
  - now apply Rdiv_lt_0_compat.
  - unfold Rdiv. apply Rmult_le_compat_l; [lra|].
    apply Rinv_le_contravar; lra.
Qed.

Lemma inv_exp_lower (x : R) : 1 - x <= / exp x.
Proof. rewrite <- exp_Ropp. pose proof (exp_ineq1_le (- x)). lra. Qed.

Lemma inv_exp_upper (x : R) : 0 <= x -> / exp x <= 1.
Proof.
  intros Hx. pose proof (exp_ineq1_le x). rewrite <- Rinv_1.
  apply Rinv_le_contravar; lra.
Qed.

(** For reduced temperatures between 1 and 4 the assertion holds. *)
Lemma omega_value_range (w : R) : 1 <= w <= 4 -> 0.5 < omega_value w < 2.7.
Proof.
  intros [Hlo Hhi]. unfold omega_value, A1, A2, A3, A4, B1, B2, B3, B4.
  pose proof (ln_le_pred w ltac:(lra)) as Hln.
  pose proof (ln_nonneg w Hlo) as Hln0.
  destruct (div_exp_bounds 0.19300 (0.47635 * w) ltac:(lra) ltac:(lra)) as [P2 Q2].
  destruct (div_exp_bounds 1.03587 (1.52996 * w) ltac:(lra) ltac:(lra)) as [P3 Q3].
  destruct (div_exp_bounds 1.76474 (3.89411 * w) ltac:(lra) ltac:(lra)) as [P4 Q4].
  assert (U2 : 0.19300 / (1 + 0.47635 * w) <= 0.19300 / (1 + 0.47635)).
  { unfold Rdiv. apply Rmult_le_compat_l; [lra|]. apply Rinv_le_contravar; lra. }
  assert (U3 : 1.03587 / (1 + 1.52996 * w) <= 1.03587 / (1 + 1.52996)).
  { unfold Rdiv. apply Rmult_le_compat_l; [lra|]. apply Rinv_le_contravar; lra. }
  assert (U4 : 1.76474 / (1 + 3.89411 * w) <= 1.76474 / (1 + 3.89411)).
  { unfold Rdiv. apply Rmult_le_compat_l; [lra|]. apply Rinv_le_contravar; lra. }
  unfold Rpower.
  pose proof (inv_exp_lower (0.15610 * ln w)) as L1.
  pose proof (inv_exp_upper (0.15610 * ln w) ltac:(lra)) as U1.
  change (1.06036 / exp (0.15610 * ln w))
    with (1.06036 * / exp (0.15610 * ln w)).
  generalize dependent (/ exp (0.15610 * ln w)). intros p L1 U1.
  split; lra.
Qed.
End OmegaRange.

(** ** Positive parameters *)

Section Positive.
Local Open Scope R_scope.

Lemma sqrt_between (x lo hi : R) :
  0 <= lo -> 0 <= hi -> lo * lo <= x <= hi * hi -> lo <= sqrt x <= hi.
Proof.
  intros Hlo Hhi [H1 H2]. split.
  - rewrite <- (sqrt_square lo Hlo). now apply sqrt_le_1_alt.
  - rewrite <- (sqrt_square hi Hhi). now apply sqrt_le_1_alt.
Qed.

Lemma molecular_root_pos (mi mj T : R) :
  0 < mi -> 0 < mj -> 0 < T ->
  0 < T * T * T * (1 / (mi * 1000) + 1 / (mj * 1000)).
Proof.
  intros Hi Hj HT.
  assert (0 < 1 / (mi * 1000)) by (apply Rdiv_lt_0_compat; lra).
  assert (0 < 1 / (mj * 1000)) by (apply Rdiv_lt_0_compat; lra).
  assert (0 < T * T * T) by (repeat apply Rmult_lt_0_compat; lra).
  apply Rmult_lt_0_compat; lra.
Qed.

Lemma molecular_den_pos (si sj P om : R) :
  0 < si -> 0 < sj -> 0 < P -> 0 < om ->
  0 < P * ((si + sj) / 2) * ((si + sj) / 2) * om.
Proof. intros. repeat apply Rmult_lt_0_compat; lra. Qed.

(** With positive parameters, [molecular_ij] returns as soon as the
    correlation is within the asserted range. *)
Lemma molecular_defined_pos (mi mj si sj ei ej T P : R) :
  0 < mi -> 0 < mj -> 0 < si -> 0 < sj -> 0 < ei -> 0 < ej ->
  0 < T -> 0 < P ->
  0.5 < omega_value (T / sqrt (ei * ej)) < 2.7 ->
  molecular_defined mi mj si sj ei ej T P.
Proof.
  intros Hmi Hmj Hsi Hsj Hei Hej HT HP Hom.
  assert (He : 0 < ei * ej) by now apply Rmult_lt_0_compat.
  pose proof (sqrt_lt_R0 _ He) as Hs.
  pose proof (molecular_root_pos mi mj T Hmi Hmj HT).
  pose proof (molecular_den_pos si sj P (omega_value (T / sqrt (ei * ej)))
                Hsi Hsj HP ltac:(lra)).
  constructor; try lra.
  now apply Rdiv_lt_0_compat.
Qed.

Lemma molecular_value_pos (mi mj si sj ei ej T P : R) :
  0 < mi -> 0 < mj -> 0 < si -> 0 < sj -> 0 < T -> 0 < P ->
  0 < omega_value (T / sqrt (ei * ej)) ->
  0 < molecular_value mi mj si sj ei ej T P.
Proof.
  intros Hmi Hmj Hsi Hsj HT HP Hom. unfold molecular_value.
  pose proof (sqrt_lt_R0 _ (molecular_root_pos mi mj T Hmi Hmj HT)).
  pose proof (molecular_den_pos si sj P _ Hsi Hsj HP Hom).
  repeat apply Rdiv_lt_0_compat; lra.
Qed.

Lemma knudsen_root_pos (Rg T M : R) :
  0 < Rg -> 0 < T -> 0 < M -> 0 < 8 * Rg * T / PI / M.
Proof.
  intros HR HT HM. pose proof PI_RGT_0.
  repeat apply Rdiv_lt_0_compat; try lra.
  repeat apply Rmult_lt_0_compat; lra.
Qed.

Lemma knudsen_value_pos (self : PureFluid) (M T : R) :
  0 < void_fraction self -> 0 < d_pore self -> 0 < tortuosity self ->
  0 < R_gas self -> 0 < T -> 0 < M ->
  0 < knudsen_value self M T.
Proof.
  intros He Hd Ht HR HT HM. unfold knudsen_value.
  pose proof (sqrt_lt_R0 _ (knudsen_root_pos _ _ _ HR HT HM)).
  apply Rmult_lt_0_compat; [|lra].
  repeat apply Rdiv_lt_0_compat; try lra.
  apply Rmult_lt_0_compat; lra.
Qed.
End Positive.

(** ** The methane / hydrogen example *)


Ltac example_fields :=
  cbv [example FluidMixture_init PureFluid_init base set_molecular_weight
       with_molecular_weight set_base
       void_fraction d_pore tortuosity R_gas molecular_weight].

Section Example.
Local Open Scope R_scope.

Lemma example_reduced_temperature : 1 <= 300 / sqrt (148.6 * 59.7) <= 4.
Proof.
  destruct (sqrt_between (148.6 * 59.7) 75 300) as [H1 H2]; try lra.
  set (s := sqrt (148.6 * 59.7)) in *. clearbody s.
  assert (Hs : 0 < s) by lra.
  split.
  - apply Rmult_le_reg_r with s; [lra|].
    unfold Rdiv. rewrite Rmult_assoc, Rinv_l; lra.
  - apply Rmult_le_reg_r with s; [lra|].
    unfold Rdiv. rewrite Rmult_assoc, Rinv_l; lra.
Qed.



Lemma example_molecular_defined :
  molecular_defined 16.043e-3 2.016e-3 3.758 2.827 148.6 59.7 300 (101325 / 101325).
Proof.
  apply molecular_defined_pos; try lra.
  apply omega_value_range, example_reduced_temperature.
Qed.

Lemma example_molecular_ij :
  molecular_ij "CH4" "H2" 300 (101325 / 101325) example = (Ok example_Dm, example).
Proof.
  now apply (molecular_ij_run example "CH4" "H2" _ _ _ _ _ _), example_molecular_defined.
Qed.

Lemma example_knudsen :
  knudsen 300 (set_molecular_weight (Some 16.043e-3) (base example))
  = (Ok example_Dk, set_molecular_weight (Some 16.043e-3) (base example)).
Proof.
  apply knudsen_run; [reflexivity | example_fields; lra | lra |].
  left. apply knudsen_root_pos; example_fields; lra.
Qed.

Lemma example_Dm_pos : 0 < example_Dm.
Proof.
  apply molecular_value_pos; try lra.
  pose proof (omega_value_range _ example_reduced_temperature). lra.
Qed.

Lemma example_Dk_pos : 0 < example_Dk.
Proof. apply knudsen_value_pos; example_fields; lra. Qed.

Lemma example_effective_defined : effective_defined example example_Dm example_Dk.
Proof.
  pose proof example_Dm_pos as Hm. pose proof example_Dk_pos as Hk.
  assert (0 < 1 / example_Dm) by (apply Rdiv_lt_0_compat; lra).
  assert (0 < 1 / example_Dk) by (apply Rdiv_lt_0_compat; lra).
  constructor; example_fields; lra.
Qed.

Lemma example_effective_macropore_i :
  effective_macropore_i "CH4" "H2" 300 101325 example
  = (Ok (effective_value example example_Dm example_Dk),
     with_molecular_weight 16.043e-3 example).
Proof.
  apply effective_macropore_i_run.
  - reflexivity.
  - apply example_molecular_ij.
  - now rewrite example_knudsen.
  - apply example_effective_defined.
Qed.
End Example.

(** * The claims *)

Section Claims.
Local Open Scope R_scope.

Lemma omega_ij_run (self : FluidMixture) (w : R) :
  0 < w -> 0.5 < omega_value w < 2.7 ->
  omega_ij w self = (Ok (omega_value w), self).
Proof.
  intros Hw Hr. now apply omega_ij_in_range.
Qed.

(** C6.  For a fluid constructed with void fraction [e], pore diameter [d],
    tortuosity [t] (non-zero) and a molecular weight [M > 0], at a
    temperature [T > 0], [knudsen] returns
    [(e * d / t / 3) * sqrt (8 * R * T / (pi * M))] with [R = 8.314], and
    leaves the object as it was. *)
Theorem knudsen_formula (e d t M T : R) :
  t <> 0 -> 0 < M -> 0 < T ->
  knudsen T (PureFluid_init e d t (Some M))
  = (Ok ((e * d / t / 3) * sqrt (8 * 8.314 * T / (PI * M))),
     PureFluid_init e d t (Some M)).
Proof.
  intros Ht HM HT. pose proof PI_RGT_0 as Hpi.
  rewrite (knudsen_run _ M T); try reflexivity; try assumption; try lra.
  - unfold knudsen_value. cbn [void_fraction d_pore tortuosity R_gas PureFluid_init].
    replace (8 * 8.314 * T / PI / M) with (8 * 8.314 * T / (PI * M))
      by (field; lra).
    reflexivity.
  - left. apply knudsen_root_pos; cbn [R_gas PureFluid_init]; lra.
Qed.

Lemma knudsen_formula_witness :
  (1.5 <> 0 /\ 0 < 16.043e-3 /\ 0 < 300) /\
  knudsen 300 (PureFluid_init 0.35 1e-8 1.5 (Some 16.043e-3))
  = (Ok ((0.35 * 1e-8 / 1.5 / 3) * sqrt (8 * 8.314 * 300 / (PI * 16.043e-3))),
     PureFluid_init 0.35 1e-8 1.5 (Some 16.043e-3)).
Proof.
  split; [repeat split; lra | apply knudsen_formula; lra].
Defined.

(** C4.  Whenever [omega_ij] returns on a positive reduced temperature [w],
    the value is [A1/w^B1 + A2/exp(B2*w) + A3/exp(B3*w) + A4/exp(B4*w)]
    with the constants of Bird's correlation. *)
Theorem omega_ij_formula (self self' : FluidMixture) (w v : R) :
  0 < w ->
  omega_ij w self = (Ok v, self') ->
  v = 1.06036 / Rpower w 0.15610 + 0.19300 / exp (0.47635 * w)
      + 1.03587 / exp (1.52996 * w) + 1.76474 / exp (3.89411 * w).
Proof.
  intros Hw H. apply omega_ij_inv in H as [_ H].
  now destruct (H v eq_refl) as (_ & -> & _).
Qed.

Lemma omega_ij_formula_witness :
  0 < 2 /\ omega_ij 2 example = (Ok (omega_value 2), example) /\
  omega_value 2 = 1.06036 / Rpower 2 0.15610 + 0.19300 / exp (0.47635 * 2)
                  + 1.03587 / exp (1.52996 * 2) + 1.76474 / exp (3.89411 * 2).
Proof.
  assert (H : omega_ij 2 example = (Ok (omega_value 2), example)).
  { apply omega_ij_run; [lra | apply omega_value_range; lra]. }
  split; [lra | split; [exact H |]].
  apply (omega_ij_formula example example 2 (omega_value 2)); [lra | exact H].
Defined.

(** C3, amended.  On a positive reduced temperature [w], [omega_ij] raises
    if and only if the correlation value is outside the open interval
    (0.5, 2.7), and a returned value is strictly inside the interval.  The
    exception is the assertion's as long as [B4 * w] does not exceed
    [exp_max] (reduced temperatures up to about 182.27); beyond, it is the
    [OverflowError] of [math.exp], raised before the value is formed. *)
Theorem omega_ij_domain_range (self : FluidMixture) (w : R) :
  0 < w ->
  ((exists e, (omega_ij w self).1 = Raise e) <-> ~ (0.5 < omega_value w < 2.7))
  /\ (forall e, (omega_ij w self).1 = Raise e ->
                e = if Rlt_dec exp_max (B4 * w) then OverflowError
                    else AssertionError (not_reasonable (omega_value w)))
  /\ (forall v, (omega_ij w self).1 = Ok v -> 0.5 < v < 2.7).
Proof.
  intros Hw. rewrite (omega_ij_pos self w Hw). cbn [fst].
  destruct (Rlt_dec exp_max (B4 * w)) as [Hov|Hov].
  - repeat split.
    + intros _ Hr. pose proof (in_range_no_overflow w ltac:(lra)). lra.
    + intros _. eauto.
    + intros e [= <-]. reflexivity.
    + discriminate H.
    + discriminate H.
  - destruct (Rltb 0.5 (omega_value w) && Rltb (omega_value w) 2.7) eqn:E.
    + apply in_range_true in E. repeat split.
      * intros [e [=]].
      * intros H. contradiction.
      * intros e [=].
      * injection H as <-. lra.
      * injection H as <-. lra.
    + apply in_range_false in E. repeat split.
      * intros _. exact E.
      * intros _. eauto.
      * intros e [= <-]. reflexivity.
      * discriminate H.
      * discriminate H.
Qed.

Lemma omega_ij_domain_range_witness :
  0 < 182
  /\ (omega_ij 182 example).1
     = Raise (AssertionError (not_reasonable (omega_value 182))).
Proof.
  split; [lra|].
  destruct (omega_ij_domain_range example 182 ltac:(lra)) as (Hiff & Hexn & _).
  destruct (proj2 Hiff) as [e He].
  { pose proof (omega_value_large 182 ltac:(lra)). lra. }
  rewrite He. f_equal. rewrite (Hexn e He).
  destruct (Rlt_dec exp_max (B4 * 182)) as [H|_]; [|reflexivity].
  exfalso. unfold exp_max, B4 in H. lra.
Defined.

(** C3 fails as stated: at the reduced temperature 200 (and already at 183)
    the correlation value is outside the interval, but what [omega_ij]
    raises is not the assertion's error: [math.exp] raises [OverflowError]
    on [B4 * 200]. *)
Lemma omega_ij_overflows :
  0 < 200
  /\ ~ (0.5 < omega_value 200 < 2.7)
  /\ omega_ij 200 example = (Raise OverflowError, example)
  /\ (forall msg, omega_ij 200 example <> (Raise (AssertionError msg), example))
  /\ omega_ij 183 example = (Raise OverflowError, example).
Proof.
  assert (E : omega_ij 200 example = (Raise OverflowError, example)).
  { rewrite (omega_ij_pos example 200 ltac:(lra)).
    destruct (Rlt_dec exp_max (B4 * 200)) as [_|H]; [reflexivity|].
    exfalso. unfold exp_max, B4 in H. lra. }
  split; [lra|]. split; [|split; [exact E|split]].
  - pose proof (omega_value_large 200 ltac:(lra)). lra.
  - intros msg. rewrite E. discriminate.
  - rewrite (omega_ij_pos example 183 ltac:(lra)).
    destruct (Rlt_dec exp_max (B4 * 183)) as [_|H]; [reflexivity|].
    exfalso. unfold exp_max, B4 in H. lra.
Qed.

Lemma molecular_value_spec (mi mj si sj ei ej T P : R) :
  molecular_value mi mj si sj ei ej T P
  = 1.858e-3 * sqrt (T ^ 3 * (1 / (mi * 1000) + 1 / (mj * 1000)))
    / (P * ((si + sj) / 2) ^ 2 * omega_value (T / sqrt (ei * ej))) / 10000.
Proof.
  unfold molecular_value.
  replace (T * T * T) with (T ^ 3) by ring.
  replace (P * ((si + sj) / 2) * ((si + sj) / 2)) with (P * ((si + sj) / 2) ^ 2) by ring.
  lra.
Qed.

(** C5.  For species [i], [j] with entries in the three mappings, a
    temperature [T > 0] and a pressure [P > 0] in atm: whenever
    [molecular_ij] returns, the value is
    [1.858e-3 * sqrt (T^3 * (1/M_i + 1/M_j)) / (P * sigma_ij^2 * Omega (T / epsilon_ij)) / 10000]
    with the stored weights times 1000, the arithmetic mean of the sigmas
    and the geometric mean of the epsilons, and the object is unchanged;
    and it does return when the stored parameters are positive and the
    correlation is within its asserted range. *)
Theorem molecular_ij_formula (self : FluidMixture) (i j : string)
    (mi mj si sj ei ej T P : R) :
  molecular_weight_i self !! i = Some mi ->
  molecular_weight_i self !! j = Some mj ->
  sigma_i self !! i = Some si -> sigma_i self !! j = Some sj ->
  epsilon_i self !! i = Some ei -> epsilon_i self !! j = Some ej ->
  0 < T -> 0 < P ->
  let M_i := mi * 1000 in
  let M_j := mj * 1000 in
  let sigma_ij := (si + sj) / 2 in
  let epsilon_ij := sqrt (ei * ej) in
  let D := 1.858e-3 * sqrt (T ^ 3 * (1 / M_i + 1 / M_j))
           / (P * sigma_ij ^ 2 * omega_value (T / epsilon_ij)) / 10000 in
  (forall v self', molecular_ij i j T P self = (Ok v, self') -> v = D /\ self' = self)
  /\ (0 < mi -> 0 < mj -> 0 < si -> 0 < sj -> 0 < ei -> 0 < ej ->
      0.5 < omega_value (T / epsilon_ij) < 2.7 ->
      molecular_ij i j T P self = (Ok D, self)).
Proof.
  intros Hmi Hmj Hsi Hsj Hei Hej HT HP M_i M_j sigma_ij epsilon_ij D.
  assert (HD : D = molecular_value mi mj si sj ei ej T P)
    by (symmetry; apply molecular_value_spec).
  split.
  - intros v self' H.
    pose proof (molecular_ij_read_only _ _ _ _ _ _ _ H) as ->.
    apply molecular_ij_inv in H
      as (mi' & mj' & si' & sj' & ei' & ej' & E1 & E2 & E3 & E4 & E5 & E6 & _ & ->).
    split; [|reflexivity]. rewrite HD. congruence.
  - intros. rewrite HD.
    apply (molecular_ij_run self i j mi mj si sj ei ej); auto.
    now apply molecular_defined_pos.
Qed.

Lemma molecular_ij_formula_witness :
  (0 < 300 /\ 0 < 1) /\
  molecular_ij "CH4" "H2" 300 1 example
  = (Ok (1.858e-3 * sqrt (300 ^ 3 * (1 / (16.043e-3 * 1000) + 1 / (2.016e-3 * 1000)))
         / (1 * ((3.758 + 2.827) / 2) ^ 2 * omega_value (300 / sqrt (148.6 * 59.7)))
         / 10000),
     example).
Proof.
  split; [lra |].
  apply (molecular_ij_formula example "CH4" "H2" 16.043e-3 2.016e-3 3.758 2.827
           148.6 59.7 300 1); try reflexivity; try lra.
  apply omega_value_range, example_reduced_temperature.
Defined.

(** C1.  [effective_macropore_i(i, j, T, P)] returns [v] exactly when
    [molecular_ij] at the pressure [P / 101325] returns some [Dm],
    [knudsen] with the molecular weight of species [i] returns some [Dk]
    (neither [j] nor [P] enters it), no division is by zero, and
    [v = e / t / (1 / Dm + 1 / Dk)] for the void fraction [e] and the
    tortuosity [t]. *)
Theorem effective_macropore_i_formula (self self' : FluidMixture)
    (i j : string) (T P v : R) :
  let e := void_fraction (base self) in
  let t := tortuosity (base self) in
  effective_macropore_i i j T P self = (Ok v, self') <->
  exists m Dm Dk,
    molecular_weight_i self !! i = Some m /\
    molecular_ij i j T (P / 101325) self = (Ok Dm, self) /\
    knudsen T (set_molecular_weight (Some m) (base self))
    = (Ok Dk, set_molecular_weight (Some m) (base self)) /\
    t <> 0 /\ Dm <> 0 /\ Dk <> 0 /\ 1 / Dm + 1 / Dk <> 0 /\
    v = e / t / (1 / Dm + 1 / Dk) /\
    self' = with_molecular_weight m self.
Proof.
  intros e t. split.
  - intros H. apply effective_macropore_i_inv in H
      as (m & Dm & Dk & Hm & HDm & HDk & [H1 H2 H3 H4] & -> & ->).
    exists m, Dm, Dk. repeat split; auto.
    destruct (knudsen T _) as [r b] eqn:E. cbn in HDk. subst r.
    now rewrite (knudsen_read_only _ _ _ _ E).
  - intros (m & Dm & Dk & Hm & HDm & HDk & H1 & H2 & H3 & H4 & -> & ->).
    apply effective_macropore_i_run; auto.
    + now rewrite HDk.
    + now constructor.
Qed.

(** C7.  With a void fraction [0 < e <= t] (as for [e] in (0, 1] and a
    tortuosity of at least 1), a positive pore diameter and a positive
    pressure, a value returned by [effective_macropore_i] is at most the
    Knudsen diffusivity [knudsen_i] returns and at most the molecular
    diffusivity [molecular_ij] returns at [P / 101325]. *)
Theorem effective_macropore_i_le_min (self self' : FluidMixture)
    (i j : string) (T P v : R) :
  0 < void_fraction (base self) <= tortuosity (base self) ->
  0 < d_pore (base self) ->
  0 < P ->
  effective_macropore_i i j T P self = (Ok v, self') ->
  exists Dm Dk,
    molecular_ij i j T (P / 101325) self = (Ok Dm, self) /\
    knudsen_i i j T P self = (Ok Dk, self') /\
    v <= Dk /\ v <= Dm.
Proof.
  intros [He Het] Hd HP H.
  apply effective_macropore_i_inv in H
    as (m & Dm & Dk & Hm & HDm & HDk & [H1 H2 H3 H4] & -> & ->).
  exists Dm, Dk. split; [exact HDm|]. split.
  { rewrite (knudsen_i_found _ _ _ _ _ _ Hm). now rewrite HDk. }
  (* both diffusivities are positive *)
  assert (HDk0 : 0 < Dk).
  { destruct (knudsen T _) as [r b] eqn:E. cbn in HDk. subst r.
    apply knudsen_inv in E as [_ E].
    destruct (E _ eq_refl) as (M & _ & _ & _ & _ & EDk).
    assert (0 <= Dk); [|lra]. rewrite EDk. unfold knudsen_value.
    cbn [void_fraction d_pore tortuosity set_molecular_weight].
    apply Rmult_le_pos; [|apply sqrt_pos].
    left. repeat apply Rdiv_lt_0_compat; try lra.
    apply Rmult_lt_0_compat; lra. }
  assert (HDm0 : 0 < Dm).
  { apply molecular_ij_inv in HDm
      as (mi & mj & si & sj & ei & ej & _ & _ & _ & _ & _ & _ & Hdef & EDm).
    destruct Hdef as [_ _ _ _ _ _ Hom Hden].
    assert (0 <= Dm); [|lra]. rewrite EDm. unfold molecular_value.
    assert (Hden0 : 0 < P / 101325 * ((si + sj) / 2) * ((si + sj) / 2)
                        * omega_value (T / sqrt (ei * ej))).
    { assert (Hsq : 0 <= (si + sj) / 2 * ((si + sj) / 2)) by apply Rle_0_sqr.
      assert (HP' : 0 < P / 101325) by lra.
      assert (0 <= P / 101325 * ((si + sj) / 2) * ((si + sj) / 2)).
      { rewrite Rmult_assoc. apply Rmult_le_pos; lra. }
      assert (0 <= P / 101325 * ((si + sj) / 2) * ((si + sj) / 2)
                   * omega_value (T / sqrt (ei * ej)))
        by (apply Rmult_le_pos; lra).
      lra. }
    pose proof (sqrt_pos (T * T * T * (1 / (mi * 1000) + 1 / (mj * 1000)))) as Hs.
    set (den := P / 101325 * ((si + sj) / 2) * ((si + sj) / 2)
                * omega_value (T / sqrt (ei * ej))) in *.
    assert (0 <= 1.858e-3 * sqrt (T * T * T * (1 / (mi * 1000) + 1 / (mj * 1000))) / den).
    { unfold Rdiv. apply Rmult_le_pos; [apply Rmult_le_pos; lra|].
      left. now apply Rinv_0_lt_compat. }
    lra. }
  (* the harmonic combination, scaled by a ratio of at most one *)
  unfold effective_value.
  set (r := void_fraction (base self) / tortuosity (base self)).
  assert (Hr : 0 < r <= 1).
  { unfold r. split; [apply Rdiv_lt_0_compat; lra|].
    apply Rmult_le_reg_r with (tortuosity (base self)); [lra|].
    unfold Rdiv. rewrite Rmult_assoc, Rinv_l; lra. }
  assert (Ha : 0 < 1 / Dm) by (apply Rdiv_lt_0_compat; lra).
  assert (Hb : 0 < 1 / Dk) by (apply Rdiv_lt_0_compat; lra).
  assert (Hx : r / (1 / Dm + 1 / Dk) * (1 / Dm + 1 / Dk) = r) by (field; lra).
  assert (Em : Dm * (1 / Dm) = 1) by (field; lra).
  assert (Ek : Dk * (1 / Dk) = 1) by (field; lra).
  set (x := r / (1 / Dm + 1 / Dk)) in *.
  set (a := 1 / Dm) in *. set (b := 1 / Dk) in *.
  assert (Hx0 : 0 < x).
  { unfold x. apply Rdiv_lt_0_compat; lra. }
  split.
  - apply Rmult_le_reg_r with b; [lra|]. nra.
  - apply Rmult_le_reg_r with a; [lra|]. nra.
Qed.

Lemma effective_macropore_i_le_min_witness :
  (0 < void_fraction (base example) <= tortuosity (base example)
   /\ 0 < d_pore (base example) /\ 0 < 101325) /\
  exists Dm Dk,
    molecular_ij "CH4" "H2" 300 (101325 / 101325) example = (Ok Dm, example) /\
    knudsen_i "CH4" "H2" 300 101325 example
    = (Ok Dk, with_molecular_weight 16.043e-3 example) /\
    effective_value example example_Dm example_Dk <= Dk /\
    effective_value example example_Dm example_Dk <= Dm.
Proof.
  split; [example_fields; lra |].
  apply (effective_macropore_i_le_min example _ "CH4" "H2" 300 101325);
    [example_fields; lra | example_fields; lra | lra |].
  apply example_effective_macropore_i.
Defined.


Lemma frames_bind_l {S A B} (Q : S -> S -> Prop) (c : M S A) (k : A -> M S B) :
  (forall s, Q s s) -> read_only c -> (forall a, frames Q (k a)) ->
  frames Q (bind c k).
Proof.
  intros Hrefl Hc Hk s r s'. unfold bind. destruct (c s) as [[a|e] s1] eqn:E.
  - apply Hc in E. subst s1. apply Hk.
  - apply Hc in E. subst s1. intros [= <- <-]. apply Hrefl.
Qed.

Lemma frames_bind_r {S A B} (Q : S -> S -> Prop) (c : M S A) (k : A -> M S B) :
  frames Q c -> (forall a, read_only (k a)) -> frames Q (bind c k).
Proof.
  intros Hc Hk s r s'. unfold bind. destruct (c s) as [[a|e] s1] eqn:E.
  - intros H. apply Hk in H. subst s'. now apply Hc in E.
  - intros [= <- <-]. now apply Hc in E.
Qed.

Lemma knudsen_i_frames i j T P : frames (sets_molecular_weight i) (knudsen_i i j T P).
Proof.
  intros s r s' H. apply knudsen_i_inv in H as [(_ & _ & ->)|(m & Hm & _ & ->)].
  - now left.
  - right. eauto.
Qed.

Lemma effective_macropore_i_frames i j T P :
  frames (sets_molecular_weight i) (effective_macropore_i i j T P).
Proof.
  unfold effective_macropore_i.
  apply frames_bind_l; [now left | auto with read_only | intros P_atm].
  apply frames_bind_l; [now left | auto with read_only | intros e].
  apply frames_bind_l; [now left | auto with read_only | intros t].
  apply frames_bind_l; [now left | auto with read_only | intros et].
  apply frames_bind_l; [now left | apply molecular_ij_read_only | intros Dm].
  apply frames_bind_l; [now left | auto with read_only | intros rm].
  apply frames_bind_r; [apply knudsen_i_frames | intros Dk].
  read_only_tac.
Qed.


Lemma sets_molecular_weight_other i self self' :
  sets_molecular_weight i self self' -> other_attributes self' = other_attributes self.
Proof. now intros [->|(m & _ & ->)]. Qed.

(** C2, as the code has it.  [molecular_ij] leaves every attribute of the
    object as it was.  [knudsen_i] and [effective_macropore_i] leave every
    attribute other than [molecular_weight] as it was; [molecular_weight]
    is either untouched or holds the stored molecular weight of species
    [i], and it does hold it whenever [knudsen_i] finds species [i]. *)
Theorem diffusivities_frame (self : FluidMixture) (i j : string) (T P : R) :
  (forall r self', molecular_ij i j T P self = (r, self') -> self' = self)
  /\ (forall r self', knudsen_i i j T P self = (r, self') ->
        other_attributes self' = other_attributes self
        /\ sets_molecular_weight i self self'
        /\ forall m, molecular_weight_i self !! i = Some m ->
                     molecular_weight (base self') = Some m)
  /\ (forall r self', effective_macropore_i i j T P self = (r, self') ->
        other_attributes self' = other_attributes self
        /\ sets_molecular_weight i self self').
Proof.
  split; [|split].
  - intros r self'. apply molecular_ij_read_only.
  - intros r self' H. pose proof (knudsen_i_frames _ _ _ _ _ _ _ H) as HQ.
    split; [now apply sets_molecular_weight_other in HQ|]. split; [exact HQ|].
    intros m Hm. rewrite (knudsen_i_found _ _ _ _ _ _ Hm) in H.
    now injection H as _ <-.
  - intros r self' H. pose proof (effective_macropore_i_frames _ _ _ _ _ _ _ H) as HQ.
    split; [now apply sets_molecular_weight_other in HQ | exact HQ].
Qed.

(** C2 fails as stated: on the example mixture, constructed without a
    molecular weight, [knudsen_i] leaves [molecular_weight] set. *)
Lemma knudsen_i_changes_molecular_weight :
  molecular_weight (base example) = None
  /\ molecular_weight (base (knudsen_i "CH4" "H2" 300 101325 example).2)
     = Some 16.043e-3
  /\ (knudsen_i "CH4" "H2" 300 101325 example).2 <> example.
Proof.
  assert (E : (knudsen_i "CH4" "H2" 300 101325 example).2
              = with_molecular_weight 16.043e-3 example).
  { now rewrite (knudsen_i_found example "CH4" "H2" 300 101325 16.043e-3 eq_refl). }
  rewrite E. split; [reflexivity|]. split; [reflexivity|].
  intros H. apply (f_equal (fun s => molecular_weight (base s))) in H.
  discriminate H.
Qed.
End Claims.

(** ** The table written by [write_calculations] *)


Lemma emits_ret {A} (a : A) : emits (λ _, []) (ret a).
Proof. intros w u w' [= <- <-]. now rewrite app_nil_r. Qed.

Lemma emits_bind {A B} ks1 ks2 (c : M _ A) (k : A -> M _ B) :
  emits ks1 c -> (forall a, emits ks2 (k a)) ->
  emits (λ l, ks1 l ++ ks2 l) (bind c k).
Proof.
  intros Hc Hk w u w' H. apply bind_ok_inv in H as (a & w1 & H1 & H2).
  apply Hc in H1 as [E1 K1]. apply Hk in H2 as [E2 K2].
  split; [congruence|]. rewrite K2, K1, E1. now rewrite app_assoc.
Qed.

Lemma emits_for_each {A} (f : A -> list string -> list (string * string * string))
    (body : A -> M _ unit) (xs : list A) :
  (forall x, emits (f x) (body x)) ->
  emits (λ l, xs ≫= λ x, f x l) (for_each xs body).
Proof.
  intros Hbody. induction xs as [|x xs IH]; cbn [for_each].
  - apply emits_ret.
  - intros w u w' H.
    apply (emits_bind (f x) (λ l, xs ≫= λ x, f x l) _ _ (Hbody x) (λ _, IH)) in H.
    exact H.
Qed.

Lemma emits_components {A} ks (k : list string -> M _ A) :
  (forall l, emits (ks l) (k l)) ->
  emits (λ l, ks l l) (bind (attr (λ w, component_i w.1)) k).
Proof. intros Hk w u w' H. unfold bind, attr in H. now apply Hk in H. Qed.

Lemma molecular_ij_frames i j T P : frames (sets_molecular_weight i) (molecular_ij i j T P).
Proof. intros s r s' H. apply molecular_ij_read_only in H. now left. Qed.

Lemma sets_molecular_weight_components i self self' :
  sets_molecular_weight i self self' -> component_i self' = component_i self.
Proof. now intros [->|(m & _ & ->)]. Qed.

Lemma getattr_inv {S} a (s s' : S) func :
  getattr a s = (Ok func, s') ->
  s' = s /\ a ∈ attrs /\
  forall i j T P, frames (sets_molecular_weight i) (func i j T P).
Proof.
  unfold getattr, attrs.
  destruct (String.eqb a "effective_macropore_i") eqn:E1;
    [|destruct (String.eqb a "knudsen_i") eqn:E2;
      [|destruct (String.eqb a "molecular_ij") eqn:E3]];
    intros [= <- <-]; (split; [reflexivity|]).
  - apply String.eqb_eq in E1 as ->. split; [set_solver|].
    intros. apply effective_macropore_i_frames.
  - apply String.eqb_eq in E2 as ->. split; [set_solver|].
    intros. apply knudsen_i_frames.
  - apply String.eqb_eq in E3 as ->. split; [set_solver|].
    intros. apply molecular_ij_frames.
Qed.

Lemma write_row_emits i j a T P :
  emits (λ _, [(i, j, a)])
    (bind (getattr a) (λ func,
       bind (on_self (func i j T P)) (λ v, write (i, j, a, v)))).
Proof.
  intros w u w' H.
  apply bind_ok_inv in H as (func & w1 & H1 & H).
  apply getattr_inv in H1 as (-> & _ & Hfunc).
  apply bind_ok_inv in H as (v & w2 & H2 & H).
  unfold on_self in H2.
  destruct (func i j T P w.1) as [r self2] eqn:E. injection H2 as -> <-.
  apply Hfunc, sets_molecular_weight_components in E.
  unfold write, modify in H. injection H as _ <-. cbn [fst snd].
  split; [exact E|]. now rewrite fmap_app.
Qed.

Lemma write_loops_emit T P :
  emits table_keys
    (bind (attr (λ w, component_i w.1)) (λ outer,
       for_each outer (λ i,
         bind (attr (λ w, component_i w.1)) (λ inner,
           for_each inner (λ j,
             if String.eqb i j then ret tt
             else for_each attrs (λ a,
                    bind (getattr a) (λ func,
                      bind (on_self (func i j T P)) (λ v,
                        write (i, j, a, v))))))))).
Proof.
  apply (emits_components (A := unit)
    (λ outer l, outer ≫= λ i, l ≫= λ j,
       if String.eqb i j then [] else (λ a, (i, j, a)) <$> attrs)).
  intros outer.
  apply (emits_for_each (λ i l, l ≫= λ j,
           if String.eqb i j then [] else (λ a, (i, j, a)) <$> attrs)).
  intros i.
  apply (emits_components (A := unit) (λ inner _, inner ≫= λ j,
           if String.eqb i j then [] else (λ a, (i, j, a)) <$> attrs)).
  intros inner.
  apply (emits_for_each (λ j _,
           if String.eqb i j then [] else (λ a, (i, j, a)) <$> attrs)).
  intros j. destruct (String.eqb i j); [apply emits_ret|].
  apply (emits_for_each (λ a _, [(i, j, a)]) _ attrs).
  intros a. apply write_row_emits.
Qed.

(** A table that was written completely has the keys of [table_keys]. *)
Lemma write_calculations_keys T P self out0 self' out :
  write_calculations T P (self, out0) = (Ok tt, (self', out)) ->
  row_key <$> out = table_keys (component_i self).
Proof.
  unfold write_calculations. intros H.
  apply bind_ok_inv in H as ([] & w1 & H1 & H).
  unfold modify in H1. injection H1 as <-. cbn [fst] in H.
  apply write_loops_emit in H as [_ H]. exact H.
Qed.

(** *** Counting the ordered pairs of distinct species *)

Lemma length_bind_const {A B} (f : A -> list B) (c : nat) (l : list A) :
  (forall x, x ∈ l -> length (f x) = c) -> length (l ≫= f) = length l * c.
Proof.
  induction l as [|x l IH]; intros H; [reflexivity|].
  cbn. rewrite length_app, IH, (H x); [lia | left |].
  intros y Hy. apply H. now right.
Qed.

Lemma length_skip_absent {B} (h : string -> list B) (c : nat) (i : string)
    (l : list string) :
  (forall j, length (h j) = c) -> i ∉ l ->
  length (l ≫= λ j, if String.eqb i j then [] else h j) = length l * c.
Proof.
  intros Hh Hi. apply length_bind_const. intros j Hj.
  destruct (String.eqb_spec i j) as [->|_]; [contradiction | apply Hh].
Qed.

Lemma length_skip_present {B} (h : string -> list B) (c : nat) (i : string)
    (l : list string) :
  (forall j, length (h j) = c) -> NoDup l -> i ∈ l ->
  length (l ≫= λ j, if String.eqb i j then [] else h j) = (length l - 1) * c.
Proof.
  intros Hh. induction l as [|x l IH]; intros Hnd Hi; [inversion Hi|].
  apply NoDup_cons in Hnd as [Hx Hnd]. cbn [mbind list_bind]. rewrite length_app.
  destruct (String.eqb_spec i x) as [->|Hne].
  - rewrite (length_skip_absent h c x l Hh Hx). cbn. lia.
  - apply elem_of_cons in Hi as [?|Hi]; [contradiction|].
    rewrite (IH Hnd Hi), Hh.
    assert (0 < length l) by (destruct l; [inversion Hi | cbn; lia]).
    cbn [length]. nia.
Qed.

Lemma length_distinct_pairs {B} (h : string -> string -> list B) (c : nat)
    (l : list string) :
  (forall i j, length (h i j) = c) -> NoDup l ->
  length (l ≫= λ i, l ≫= λ j, if String.eqb i j then [] else h i j)
  = length l * (length l - 1) * c.
Proof.
  intros Hh Hnd. rewrite (length_bind_const _ ((length l - 1) * c)); [lia|].
  intros i Hi. now apply length_skip_present.
Qed.

Lemma filter_bind {A B} (P : B -> Prop) `{!forall x, Decision (P x)}
    (f : A -> list B) (l : list A) :
  filter P (l ≫= f) = l ≫= λ x, filter P (f x).
Proof.
  induction l as [|x l IH]; [reflexivity|].
  cbn. now rewrite filter_app, IH.
Qed.

Lemma bind_pointwise {A B} (f g : A -> list B) (l : list A) :
  (forall x, f x = g x) -> l ≫= f = l ≫= g.
Proof.
  intros H. induction l as [|x l IH]; [reflexivity|].
  cbn. now rewrite H, IH.
Qed.

Lemma table_keys_metric (a : string) (l : list string) :
  filter (λ k, k.2 = a) (table_keys l)
  = l ≫= λ i, l ≫= λ j,
      if String.eqb i j then []
      else filter (λ k, k.2 = a) ((λ a', (i, j, a')) <$> attrs).
Proof.
  unfold table_keys. rewrite filter_bind.
  apply bind_pointwise; intros i.
  rewrite filter_bind.
  apply bind_pointwise; intros j.
  now destruct (String.eqb i j).
Qed.

Lemma table_keys_elem (l : list string) (i j a : string) :
  (i, j, a) ∈ table_keys l <-> i ∈ l /\ j ∈ l /\ i <> j /\ a ∈ attrs.
Proof.
  unfold table_keys. rewrite list_elem_of_bind. split.
  - intros (i' & H & Hi'). apply list_elem_of_bind in H as (j' & H & Hj').
    destruct (String.eqb_spec i' j') as [_|Hne]; [inversion H|].
    apply list_elem_of_fmap in H as (a' & Heq & Ha'). simplify_eq. auto.
  - intros (Hi & Hj & Hne & Ha). exists i. split; [|exact Hi].
    apply list_elem_of_bind. exists j. split; [|exact Hj].
    destruct (String.eqb_spec i j) as [?|_]; [contradiction|].
    apply list_elem_of_fmap. eauto.
Qed.

Lemma attrs_NoDup : NoDup attrs.
Proof.
  unfold attrs. repeat (apply NoDup_cons; split;
    [rewrite ?elem_of_cons, elem_of_nil; intros H; repeat destruct H as [H|H]; discriminate || exact H|]).
  apply NoDup_nil_2.
Qed.

Lemma table_keys_NoDup (l : list string) : NoDup l -> NoDup (table_keys l).
Proof.
  intros Hnd. unfold table_keys. apply NoDup_bind; [| |exact Hnd].
  - intros i1 i2 [[i j] a] _ _ H1 H2.
    apply list_elem_of_bind in H1 as (j1 & H1 & _).
    apply list_elem_of_bind in H2 as (j2 & H2 & _).
    destruct (String.eqb i1 j1); [inversion H1|].
    destruct (String.eqb i2 j2); [inversion H2|].
    apply list_elem_of_fmap in H1 as (? & Heq1 & _).
    apply list_elem_of_fmap in H2 as (? & Heq2 & _). now simplify_eq.
  - intros i _. apply NoDup_bind; [| |exact Hnd].
    + intros j1 j2 [[i' j] a] _ _ H1 H2.
      destruct (String.eqb i j1); [inversion H1|].
      destruct (String.eqb i j2); [inversion H2|].
      apply list_elem_of_fmap in H1 as (? & Heq1 & _).
      apply list_elem_of_fmap in H2 as (? & Heq2 & _). now simplify_eq.
    + intros j _. destruct (String.eqb i j); [apply NoDup_nil_2|].
      apply NoDup_fmap_2; [|apply attrs_NoDup]. now intros a1 a2 [= ->].
Qed.

Lemma metric_once (i j a : string) :
  a ∈ attrs ->
  length (filter (λ k : string * string * string, k.2 = a)
            ((λ a', (i, j, a')) <$> attrs)) = 1%nat.
Proof.
  unfold attrs. rewrite !elem_of_cons, elem_of_nil.
  intros [->|[->|[->|[]]]]; reflexivity.
Qed.

(** C8.  When [write_calculations] completes on a species list [l] of [n]
    distinct names, the table it wrote holds, in the order of [l] (outer
    loop on [i], inner loop on [j], then the three quantities), exactly one
    line for each quantity and each ordered pair [(i, j)] of different
    species of [l], and none with [i = j]: [3 * n * (n - 1)] lines in all,
    [n * (n - 1)] for each quantity. *)
Theorem write_calculations_table (T P : R) (self self' : FluidMixture)
    (out0 out : list row) :
  NoDup (component_i self) ->
  write_calculations T P (self, out0) = (Ok tt, (self', out)) ->
  let l := component_i self in
  let n := length l in
  row_key <$> out = table_keys l
  /\ NoDup (row_key <$> out)
  /\ (forall i j a, (i, j, a) ∈ row_key <$> out <-> i ∈ l /\ j ∈ l /\ i <> j /\ a ∈ attrs)
  /\ length out = (3 * n * (n - 1))%nat
  /\ (forall a, a ∈ attrs ->
        length (filter (λ k, k.2 = a) (row_key <$> out)) = (n * (n - 1))%nat).
Proof.
  intros Hnd H l n. apply write_calculations_keys in H. fold l in H.
  split; [exact H|]. rewrite H.
  split; [now apply table_keys_NoDup|].
  split; [intros; apply table_keys_elem|].
  split.
  - rewrite <- (length_fmap row_key), H. unfold table_keys.
    rewrite (length_distinct_pairs _ 3 l); [subst n; lia | | exact Hnd].
    intros i j. now rewrite length_fmap.
  - intros a Ha. rewrite table_keys_metric.
    rewrite (length_distinct_pairs
               (λ i j, filter (λ k : string * string * string, k.2 = a)
                         ((λ a', (i, j, a')) <$> attrs)) 1 l);
      [subst n; lia | | exact Hnd].
    intros i j. now apply metric_once.
Qed.

(** *** A complete run *)

Lemma write_row_run a func i j T P self out v self' :
  (forall w : FluidMixture * list row, getattr a w = (Ok func, w)) ->
  func i j T P self = (Ok v, self') ->
  bind (getattr a) (λ func,
    bind (on_self (func i j T P)) (λ v, write (i, j, a, v))) (self, out)
  = (Ok tt, (self', out ++ [(i, j, a, v)])).
Proof.
  intros Hget Hf. rewrite (bind_run _ _ _ _ _ (Hget _)).
  unfold bind, on_self. cbn [fst snd]. now rewrite Hf.
Qed.

Section PairRun.
Local Open Scope R_scope.
Context (self : FluidMixture) (i j : string) (mi mj si sj ei ej T P : R).
Hypothesis Hmi : molecular_weight_i self !! i = Some mi.
Hypothesis Hmj : molecular_weight_i self !! j = Some mj.
Hypothesis Hsi : sigma_i self !! i = Some si.
Hypothesis Hsj : sigma_i self !! j = Some sj.
Hypothesis Hei : epsilon_i self !! i = Some ei.
Hypothesis Hej : epsilon_i self !! j = Some ej.
Hypothesis He : 0 < void_fraction (base self).
Hypothesis Hd : 0 < d_pore (base self).
Hypothesis Ht : 0 < tortuosity (base self).
Hypothesis HR : 0 < R_gas (base self).
Hypothesis Hpos : 0 < mi /\ 0 < mj /\ 0 < si /\ 0 < sj /\ 0 < ei /\ 0 < ej.
Hypothesis HT : 0 < T.
Hypothesis HP : 0 < P.
Hypothesis Hom : 0.5 < omega_value (T / sqrt (ei * ej)) < 2.7.

Local Abbreviation Dm := (molecular_value mi mj si sj ei ej T (P / 101325)).
Local Abbreviation Dk := (knudsen_value (base self) mi T).

Lemma pair_effective :
  effective_macropore_i i j T P self
  = (Ok (effective_value self Dm Dk), with_molecular_weight mi self).
Proof.
  destruct Hpos as (? & ? & ? & ? & ? & ?).
  assert (HDm : 0 < Dm) by (apply molecular_value_pos; lra).
  assert (HDk : 0 < Dk) by (apply knudsen_value_pos; lra).
  apply effective_macropore_i_run; [exact Hmi | | |].
  - apply (molecular_ij_run self i j mi mj si sj ei ej); auto.
    apply molecular_defined_pos; lra.
  - rewrite (knudsen_run _ mi T); [reflexivity | reflexivity | | lra |].
    + cbn [tortuosity set_molecular_weight]. lra.
    + left. apply knudsen_root_pos; cbn [R_gas set_molecular_weight]; lra.
  - assert (0 < 1 / Dm) by (apply Rdiv_lt_0_compat; lra).
    assert (0 < 1 / Dk) by (apply Rdiv_lt_0_compat; lra).
    constructor; lra.
Qed.

Lemma pair_knudsen_i (self1 : FluidMixture) :
  self1 = self \/ self1 = with_molecular_weight mi self ->
  knudsen_i i j T P self1 = (Ok Dk, with_molecular_weight mi self).
Proof.
  destruct Hpos as (? & ? & ? & ? & ? & ?).
  intros Hself1.
  assert (E : knudsen_i i j T P self1
              = ((knudsen T (set_molecular_weight (Some mi) (base self))).1,
                 with_molecular_weight mi self)).
  { destruct Hself1 as [->| ->].
    - now rewrite (knudsen_i_found self _ _ _ _ mi Hmi).
    - now rewrite (knudsen_i_found (with_molecular_weight mi self) _ _ _ _ mi Hmi). }
  rewrite E, (knudsen_run _ mi T); [reflexivity | reflexivity | | lra |].
  - cbn [tortuosity set_molecular_weight]. lra.
  - left. apply knudsen_root_pos; cbn [R_gas set_molecular_weight]; lra.
Qed.

Lemma pair_molecular_ij (m : R) :
  molecular_ij i j T P (with_molecular_weight m self)
  = (Ok (molecular_value mi mj si sj ei ej T P), with_molecular_weight m self).
Proof.
  destruct Hpos as (? & ? & ? & ? & ? & ?).
  apply (molecular_ij_run _ i j mi mj si sj ei ej); auto.
  apply molecular_defined_pos; lra.
Qed.

(** The three lines of the pair [(i, j)]. *)
Lemma write_pair_run (out : list row) :
  for_each attrs (λ a,
    bind (getattr a) (λ func,
      bind (on_self (func i j T P)) (λ v, write (i, j, a, v)))) (self, out)
  = (Ok tt,
     (with_molecular_weight mi self,
      out ++ [(i, j, "effective_macropore_i", effective_value self Dm Dk);
              (i, j, "knudsen_i", Dk);
              (i, j, "molecular_ij", molecular_value mi mj si sj ei ej T P)])).
Proof.
  unfold attrs. cbn [for_each].
  rewrite (bind_run _ _ _ _ _
             (write_row_run "effective_macropore_i" effective_macropore_i _ _ _ _ _ _ _ _
                (λ _, eq_refl) pair_effective)).
  rewrite (bind_run _ _ _ _ _
             (write_row_run "knudsen_i" knudsen_i _ _ _ _ _ _ _ _
                (λ _, eq_refl) (pair_knudsen_i _ (or_intror eq_refl)))).
  rewrite (bind_run _ _ _ _ _
             (write_row_run "molecular_ij" molecular_ij _ _ _ _ _ _ _ _
                (λ _, eq_refl) (pair_molecular_ij _))).
  unfold ret. now rewrite <- !app_assoc.
Qed.
End PairRun.

Section ExampleRun.
Local Open Scope R_scope.

Lemma example_reduced_temperature' : 1 <= 300 / sqrt (59.7 * 148.6) <= 4.
Proof. rewrite (Rmult_comm 59.7 148.6). apply example_reduced_temperature. Qed.


Lemma example_write_calculations (out0 : list row) :
  write_calculations 300 101325 (example, out0)
  = (Ok tt, (with_molecular_weight 2.016e-3 example, example_table)).
Proof.
  unfold write_calculations, modify. unfold bind at 1. cbn [fst].
  unfold bind at 1, attr at 1. cbn [fst].
  change (component_i example) with ["CH4"; "H2"]%string.
  cbn [for_each].
  (* i = CH4 *)
  unfold bind at 1. unfold bind at 1, attr at 1. cbn [fst].
  change (component_i example) with ["CH4"; "H2"]%string.
  cbn [for_each].
  change (String.eqb "CH4" "CH4") with true.
  change (String.eqb "CH4" "H2") with false.
  unfold bind at 1, ret at 1.
  rewrite (bind_run _ _ _ _ _
    (write_pair_run example "CH4" "H2" 16.043e-3 2.016e-3 3.758 2.827 148.6 59.7
       300 101325 eq_refl eq_refl eq_refl eq_refl eq_refl eq_refl
       ltac:(example_fields; lra) ltac:(example_fields; lra)
       ltac:(example_fields; lra) ltac:(example_fields; lra)
       ltac:(repeat split; lra) ltac:(lra) ltac:(lra)
       (omega_value_range _ example_reduced_temperature) [])).
  unfold ret at 1.
  (* i = H2 *)
  unfold bind at 1. unfold bind at 1, attr at 1. cbn [fst].
  change (component_i (with_molecular_weight 16.043e-3 example))
    with ["CH4"; "H2"]%string.
  cbn [for_each].
  change (String.eqb "H2" "CH4") with false.
  change (String.eqb "H2" "H2") with true.
  rewrite (bind_run _ _ _ _ _
    (write_pair_run (with_molecular_weight 16.043e-3 example)
       "H2" "CH4" 2.016e-3 16.043e-3 2.827 3.758 59.7 148.6
       300 101325 eq_refl eq_refl eq_refl eq_refl eq_refl eq_refl
       ltac:(example_fields; lra) ltac:(example_fields; lra)
       ltac:(example_fields; lra) ltac:(example_fields; lra)
       ltac:(repeat split; lra) ltac:(lra) ltac:(lra)
       (omega_value_range _ example_reduced_temperature') _)).
  reflexivity.
Qed.
End ExampleRun.

Lemma example_components_NoDup : NoDup (component_i example).
Proof.
  change (component_i example) with ["CH4"; "H2"]%string.
  apply NoDup_cons. split.
  - rewrite elem_of_cons, elem_of_nil. intros [[=]|[]].
  - apply NoDup_singleton.
Qed.

Lemma write_calculations_table_witness :
  NoDup (component_i example)
  /\ write_calculations 300 101325 (example, [])
     = (Ok tt, (with_molecular_weight 2.016e-3%R example, example_table))
  /\ row_key <$> example_table = table_keys ["CH4"; "H2"]%string
  /\ length example_table = (3 * 2 * (2 - 1))%nat
  /\ length (filter (λ k : string * string * string, k.2 = "knudsen_i"%string)
               (row_key <$> example_table)) = (2 * (2 - 1))%nat.
Proof.
  pose proof (write_calculations_table 300 101325 example _ [] example_table
                example_components_NoDup (example_write_calculations []))
    as (Hkeys & _ & _ & Hlen & Hmetric).
  split; [exact example_components_NoDup|].
  split; [exact (example_write_calculations [])|].
  split; [exact Hkeys|]. split; [exact Hlen|].
  apply Hmetric. unfold attrs. rewrite !elem_of_cons. auto.
Defined.

(** ** [get_LJ_params] *)


Lemma str_eq_cell_spec key c : str_eq_cell key c = true <-> c = Str key.
Proof.
  destruct c as [x|s]; cbn; [split; discriminate|].
  rewrite String.eqb_eq. split; congruence.
Qed.

Lemma contains_spec col key : contains col key = true <-> Str key ∈ col.
Proof.
  unfold contains. induction col as [|c col IH]; cbn.
  - split; [discriminate | intros H; inversion H].
  - rewrite orb_true_iff, IH, str_eq_cell_spec, elem_of_cons. split; intros [?|?]; auto.
Qed.

Lemma first_index_present col key :
  Str key ∈ col ->
  exists n, first_index col key = Some n /\ col !! n = Some (Str key)
            /\ forall k, (k < n)%nat -> col !! k <> Some (Str key).
Proof.
  induction col as [|c col IH]; intros H; [inversion H|]. cbn.
  destruct (str_eq_cell key c) eqn:E.
  - apply str_eq_cell_spec in E as ->. exists 0%nat. repeat split. intros k Hk. lia.
  - apply elem_of_cons in H as [H|H].
    + symmetry in H. apply str_eq_cell_spec in H. congruence.
    + destruct (IH H) as (n & -> & Hn & Hmin). exists (Datatypes.S n).
      repeat split; [exact Hn|]. intros [|k] Hk; cbn.
      * intros [= ->]. cbn in E. now rewrite String.eqb_refl in E.
      * apply Hmin. lia.
Qed.

Lemma index_spec {S} col key (s : S) n :
  first_index col key = Some n -> index col key s = (Ok n, s).
Proof.
  revert n. induction col as [|c col IH]; intros n; cbn; [discriminate|].
  destruct (str_eq_cell key c); [now intros [= <-]|].
  destruct (first_index col key) as [m|]; [|discriminate]. intros [= <-].
  now rewrite (bind_run _ _ _ _ _ (IH m eq_refl)).
Qed.

Section GetLJParams.
Context (LJ_data : gmap string (list cell)) (substance sigma epsilon : list cell).
Hypothesis Htable : LJ_table LJ_data substance sigma epsilon.


Lemma body_missing key st :
  Str key ∉ substance ->
  get_LJ_params_body LJ_data key st = (Raise (AssertionError (no_parameters key)), st).
Proof.
  intros H. destruct Htable as [Hs _ _ _ _]. unfold get_LJ_params_body.
  rewrite (bind_run _ _ _ _ _ (getitem_run (λ _, LJ_data) _ st _ Hs)).
  destruct (contains substance key) eqn:E; [now apply contains_spec in E|].
  reflexivity.
Qed.

Lemma body_present key st :
  Str key ∈ substance ->
  exists r, LJ_row substance sigma epsilon key r /\
    get_LJ_params_body LJ_data key st = (Ok tt, (st.1 ++ [r.1], st.2 ++ [r.2])).
Proof.
  intros H. destruct Htable as [Hs Hsig Heps Hl1 Hl2].
  destruct (first_index_present _ _ H) as (n & Hn & Hcol & _).
  apply lookup_lt_Some in Hcol.
  destruct (lookup_lt_is_Some_2 sigma n ltac:(lia)) as [s Hsn].
  destruct (lookup_lt_is_Some_2 epsilon n ltac:(lia)) as [e Hen].
  exists (s, e). split; [exists n; auto|].
  unfold get_LJ_params_body.
  rewrite (bind_run _ _ _ _ _ (getitem_run (λ _, LJ_data) _ st _ Hs)).
  rewrite (proj2 (contains_spec _ _) H). unfold assert.
  unfold bind at 1, ret at 1.
  rewrite (bind_run _ _ _ _ _ (getitem_run (λ _, LJ_data) _ st _ Hs)).
  rewrite (bind_run _ _ _ _ _ (index_spec _ _ st _ Hn)).
  rewrite (bind_run _ _ _ _ _ (getitem_run (λ _, LJ_data) _ st _ Hsig)).
  unfold list_getitem. rewrite Hsn.
  unfold bind at 1, ret at 1. unfold bind at 1, modify at 1.
  rewrite (bind_run _ _ _ _ _ (getitem_run (λ _, LJ_data) _ _ _ Heps)).
  rewrite Hen. reflexivity.
Qed.

(** The loop either appends the row of every component, or stops at the
    first component without a row. *)
Lemma loop_spec components st :
  (exists rows, Forall2 (LJ_row substance sigma epsilon) components rows /\
     for_each components (get_LJ_params_body LJ_data) st
     = (Ok tt, (st.1 ++ rows.*1, st.2 ++ rows.*2)))
  \/ (exists before key after,
        components = before ++ key :: after
        /\ Forall (λ k, Str k ∈ substance) before
        /\ (Str key ∉ substance)
        /\ (for_each components (get_LJ_params_body LJ_data) st).1
           = Raise (AssertionError (no_parameters key))).
Proof.
  revert st. induction components as [|key l IH]; intros st.
  - left. exists []. split; [constructor|]. cbn. now rewrite !app_nil_r, <- surjective_pairing.
  - cbn [for_each].
    destruct (contains substance key) eqn:E;
      [apply contains_spec in E; rename E into Hin
      |assert (Hout : Str key ∉ substance)
         by (intros Hin; apply contains_spec in Hin; congruence)].
    + destruct (body_present key st Hin) as (r & Hr & Hrun).
      rewrite (bind_run _ _ _ _ _ Hrun).
      destruct (IH (st.1 ++ [r.1], st.2 ++ [r.2]))
        as [(rows & Hrows & ->)|(before & k & after & -> & Hb & Hk & Hraise)].
      * left. exists (r :: rows). split; [now constructor|].
        cbn [fst snd fmap list_fmap]. now rewrite <- !app_assoc.
      * right. exists (key :: before), k, after. repeat split; auto.
    + right. exists [], key, l. repeat split; auto.
      now rewrite (bind_raise _ _ _ _ _ (body_missing key st Hout)).
Qed.
End GetLJParams.

Lemma first_index_lookup col key n :
  first_index col key = Some n -> col !! n = Some (Str key).
Proof.
  revert n. induction col as [|c col IH]; intros n; cbn; [discriminate|].
  destruct (str_eq_cell key c) eqn:E.
  - intros [= <-]. apply str_eq_cell_spec in E. now subst c.
  - destruct (first_index col key) as [m|]; [|discriminate].
    intros [= <-]. now apply IH.
Qed.

(** C9.  On a Lennard-Jones table (the three columns, with one value per row
    in each), [get_LJ_params] raises if and only if some requested component
    is not in the [Substance] column; the exception is then the assertion's,
    and its message names a component that is missing (the first one); and
    when it returns, the k-th elements of the two lists are the sigma and the
    epsilon of the first row whose substance is the k-th component. *)
Theorem get_LJ_params_spec (LJ_data : gmap string (list cell))
    (substance sigma epsilon : list cell) (components : list string) :
  LJ_table LJ_data substance sigma epsilon ->
  ((exists e, get_LJ_params components LJ_data = Raise e)
   <-> exists key, key ∈ components /\ Str key ∉ substance)
  /\ (forall e, get_LJ_params components LJ_data = Raise e ->
        exists key, key ∈ components /\ (Str key ∉ substance)
          /\ e = AssertionError
                   (Text ("No parameters found for " ++ key ++ " in LJparams.csv")))
  /\ (forall sig eps, get_LJ_params components LJ_data = Ok (sig, eps) ->
        length sig = length components /\ length eps = length components
        /\ forall k key, components !! k = Some key ->
             exists n s e,
               first_index substance key = Some n
               /\ substance !! n = Some (Str key)
               /\ sigma !! n = Some s /\ epsilon !! n = Some e
               /\ sig !! k = Some s /\ eps !! k = Some e).
Proof.
  intros Htable. unfold get_LJ_params.
  destruct (loop_spec LJ_data substance sigma epsilon Htable components ([], []))
    as [(rows & Hrows & ->)|(before & key & after & -> & Hb & Hk & Hraise)].
  - cbn [fst snd app].
    assert (Hall : forall k key, components !! k = Some key ->
              exists n s e, first_index substance key = Some n
                /\ substance !! n = Some (Str key)
                /\ sigma !! n = Some s /\ epsilon !! n = Some e
                /\ rows.*1 !! k = Some s /\ rows.*2 !! k = Some e).
    { intros k key Hkey.
      destruct (Forall2_lookup_l _ _ _ _ _ Hrows Hkey) as ([s e] & Hr & n & Hn & Hs & He).
      exists n, s, e. rewrite !list_lookup_fmap, Hr.
      repeat split; auto. now apply first_index_lookup. }
    repeat split.
    + intros [e [=]].
    + intros (key & Hin & Hout). apply list_elem_of_lookup in Hin as [k Hkey].
      destruct (Hall k key Hkey) as (n & _ & _ & _ & Hsub & _).
      exfalso. apply Hout. eapply list_elem_of_lookup_2, Hsub.
    + intros e [=].
    + injection H as <- _. rewrite length_fmap. symmetry. eapply Forall2_length, Hrows.
    + injection H as _ <-. rewrite length_fmap. symmetry. eapply Forall2_length, Hrows.
    + injection H as <- <-. apply Hall.
  - destruct (for_each _ _ _) as [[[]|e] st]; cbn [fst] in Hraise; [discriminate|].
    injection Hraise as ->.
    assert (Hin : key ∈ before ++ key :: after)
      by (apply elem_of_app; right; left).
    repeat split.
    + intros _. eauto.
    + intros _. eauto.
    + intros e [= <-]. exists key. auto.
    + discriminate H.
    + discriminate H.
    + discriminate H.
Qed.


Lemma example_LJ_table :
  LJ_table example_LJ_data [Str "CH4"; Str "H2"]
    [Float 3.758; Float 2.827] [Float 148.6; Float 59.7].
Proof. constructor; reflexivity. Qed.

Lemma get_LJ_params_spec_witness :
  LJ_table example_LJ_data [Str "CH4"; Str "H2"]
    [Float 3.758; Float 2.827] [Float 148.6; Float 59.7]
  /\ forall e, get_LJ_params ["H2"; "N2"]%string example_LJ_data = Raise e ->
       exists key, key ∈ ["H2"; "N2"]%string
         /\ (Str key ∉ [Str "CH4"; Str "H2"])
         /\ e = AssertionError
                  (Text ("No parameters found for " ++ key ++ " in LJparams.csv")).
Proof.
  split; [exact example_LJ_table|].
  apply (get_LJ_params_spec example_LJ_data _ _ _ ["H2"; "N2"]%string example_LJ_table).
Defined.

Lemma example_get_LJ_params :
  get_LJ_params ["CH4"; "H2"]%string example_LJ_data
  = Ok ([Float 3.758; Float 2.827], [Float 148.6; Float 59.7])
  /\ get_LJ_params ["H2"; "N2"]%string example_LJ_data
     = Raise (AssertionError (Text "No parameters found for N2 in LJparams.csv")).
Proof. split; reflexivity. Qed.

(** ** Construction from lists of different lengths *)



Lemma zip_keys_take (keys : list string) (vals : list R) :
  (zip keys vals).*1 = take (length vals) keys.
Proof.
  revert vals. induction keys as [|k keys IH]; intros [|v vals]; cbn; try reflexivity.
  now rewrite IH.
Qed.



Section KeyErrors.
Local Open Scope R_scope.
Context (self : FluidMixture) (i j : string) (T : R).
Hypothesis Hweights : forall k v, molecular_weight_i self !! k = Some v -> 0 < v.
Hypothesis HT : 0 < T.





End KeyErrors.



(** * Further properties of the code *)

(** ** The combining rules *)

Section CombiningRules.
Local Open Scope R_scope.
Context (self : FluidMixture) (i j : string).


(** [epsilon_ij_rule] does not depend on the order of the two species,
    unless both are missing. *)
Theorem epsilon_ij_rule_symmetric :
  is_Some (epsilon_i self !! i) \/ is_Some (epsilon_i self !! j) ->
  epsilon_ij_rule i j self = epsilon_ij_rule j i self.
Proof.
  intros H. unfold epsilon_ij_rule, bind, getitem.
  destruct (epsilon_i self !! i) as [ei|] eqn:Ei;
    destruct (epsilon_i self !! j) as [ej|] eqn:Ej; cbv beta iota;
    rewrite ?Ei, ?Ej; cbv beta iota; try reflexivity.
  - now rewrite (Rmult_comm ej ei).
  - destruct H as [[? [=]]|[? [=]]].
Qed.

(** On the diagonal the rules give the species' own sigma and the absolute
    value of its epsilon; [epsilon_ij_rule] cannot raise [ValueError] there. *)
Theorem combining_rules_diagonal (si ei : R) :
  sigma_i self !! i = Some si -> epsilon_i self !! i = Some ei ->
  sigma_ij_rule i i self = (Ok si, self)
  /\ epsilon_ij_rule i i self = (Ok (Rabs ei), self).
Proof.
  intros Hs He. split.
  - rewrite (sigma_ij_rule_run self i i si si Hs Hs). do 2 f_equal. lra.
  - rewrite (epsilon_ij_rule_run self i i ei ei He He).
    + do 2 f_equal. fold (Rsqr ei). apply sqrt_Rsqr_abs.
    + apply Rle_0_sqr.
Qed.

End CombiningRules.

Lemma example_sigma_H2 : sigma_i example !! "H2"%string = Some 2.827%R.
Proof. reflexivity. Qed.

Lemma example_epsilon_H2 : epsilon_i example !! "H2"%string = Some 59.7%R.
Proof. reflexivity. Qed.

Lemma example_epsilon_CH4 : epsilon_i example !! "CH4"%string = Some 148.6%R.
Proof. reflexivity. Qed.


Lemma epsilon_ij_rule_symmetric_witness :
  epsilon_ij_rule "H2" "N2" example = epsilon_ij_rule "N2" "H2" example.
Proof.
  apply epsilon_ij_rule_symmetric. left. rewrite example_epsilon_H2. eauto.
Defined.

Lemma combining_rules_diagonal_witness :
  sigma_ij_rule "H2" "H2" example = (Ok 2.827%R, example)
  /\ epsilon_ij_rule "H2" "H2" example = (Ok (Rabs 59.7), example).
Proof.
  apply combining_rules_diagonal; [exact example_sigma_H2 | exact example_epsilon_H2].
Defined.

(** ** Molecular diffusivity: symmetry, pressure, edge cases *)

Lemma bind_congr {S A B} (c : M S A) (k1 k2 : A -> M S B) (s : S) :
  (forall a s', c s = (Ok a, s') -> k1 a s' = k2 a s') ->
  bind c k1 s = bind c k2 s.
Proof. intros H. unfold bind. destruct (c s) as [[a|e] s'] eqn:E; auto. Qed.

Section MolecularProperties.
Local Open Scope R_scope.
Context (self : FluidMixture) (i j : string) (mi mj si sj ei ej : R).
Hypothesis Hmi : molecular_weight_i self !! i = Some mi.
Hypothesis Hmj : molecular_weight_i self !! j = Some mj.
Hypothesis Hsi : sigma_i self !! i = Some si.
Hypothesis Hsj : sigma_i self !! j = Some sj.
Hypothesis Hei : epsilon_i self !! i = Some ei.
Hypothesis Hej : epsilon_i self !! j = Some ej.


Lemma molecular_ij_found (T P : R) :
  molecular_ij i j T P self = molecular_steps mi mj si sj ei ej T P self.
Proof.
  unfold molecular_ij, molecular_steps.
  rewrite (bind_run _ _ _ _ _ (getitem_run _ _ _ _ Hmi)). cbv zeta.
  rewrite (bind_run _ _ _ _ _ (getitem_run _ _ _ _ Hmj)).
  apply bind_congr. intros ri s0 E. apply truediv_inv in E as [-> _].
  apply bind_congr. intros rj s0 E. apply truediv_inv in E as [-> _].
  apply bind_congr. intros s s0 E. apply math_sqrt_inv in E as [-> _].
  rewrite (bind_run _ _ _ _ _ (sigma_ij_rule_run self i j si sj Hsi Hsj)).
  rewrite (bind_run _ _ _ _ _ (sigma_ij_rule_run self i j si sj Hsi Hsj)).
  unfold epsilon_ij_rule.
  unfold bind at 1. unfold bind at 1.
  rewrite (getitem_run _ _ _ _ Hei).
  unfold bind at 1. rewrite (getitem_run _ _ _ _ Hej).
  reflexivity.
Qed.
End MolecularProperties.

Lemma truediv_by_zero {S} (x y : R) (s : S) :
  y = 0%R -> truediv x y s = (Raise ZeroDivisionError, s).
Proof. intros H. unfold truediv. now destruct (Req_dec_T y 0). Qed.

Lemma molecular_steps_symmetric (mi mj si sj ei ej T P : R) (self : FluidMixture) :
  molecular_steps mi mj si sj ei ej T P self
  = molecular_steps mj mi sj si ej ei T P self.
Proof.
  unfold molecular_steps.
  destruct (Req_dec_T (mi * 1000) 0) as [Zi|Ni], (Req_dec_T (mj * 1000) 0) as [Zj|Nj].
  - rewrite (bind_raise _ _ _ _ _ (truediv_by_zero 1 _ self Zi)).
    now rewrite (bind_raise _ _ _ _ _ (truediv_by_zero 1 _ self Zj)).
  - rewrite (bind_raise _ _ _ _ _ (truediv_by_zero 1 _ self Zi)).
    rewrite (bind_run _ _ _ _ _ (truediv_run 1 _ self Nj)).
    now rewrite (bind_raise _ _ _ _ _ (truediv_by_zero 1 _ self Zi)).
  - rewrite (bind_run _ _ _ _ _ (truediv_run 1 _ self Ni)).
    rewrite (bind_raise _ _ _ _ _ (truediv_by_zero 1 _ self Zj)).
    now rewrite (bind_raise _ _ _ _ _ (truediv_by_zero 1 _ self Zj)).
  - rewrite (bind_run _ _ _ _ _ (truediv_run 1 _ self Ni)).
    rewrite (bind_run _ _ _ _ _ (truediv_run 1 _ self Nj)).
    rewrite (bind_run _ _ _ _ _ (truediv_run 1 _ self Nj)).
    rewrite (bind_run _ _ _ _ _ (truediv_run 1 _ self Ni)).
    rewrite (Rplus_comm (1 / (mj * 1000)) (1 / (mi * 1000)))%R.
    rewrite (Rmult_comm ej ei), (Rplus_comm sj si). reflexivity.
Qed.

(** [molecular_ij] gives the same result for [(i, j)] and for [(j, i)] when
    both species have their entries. *)
Theorem molecular_ij_symmetric (self : FluidMixture) (i j : string)
    (mi mj si sj ei ej T P : R) :
  molecular_weight_i self !! i = Some mi ->
  molecular_weight_i self !! j = Some mj ->
  sigma_i self !! i = Some si -> sigma_i self !! j = Some sj ->
  epsilon_i self !! i = Some ei -> epsilon_i self !! j = Some ej ->
  molecular_ij i j T P self = molecular_ij j i T P self.
Proof.
  intros Hmi Hmj Hsi Hsj Hei Hej.
  rewrite (molecular_ij_found self i j mi mj si sj ei ej Hmi Hmj Hsi Hsj Hei Hej).
  rewrite (molecular_ij_found self j i mj mi sj si ej ei Hmj Hmi Hsj Hsi Hej Hei).
  apply molecular_steps_symmetric.
Qed.

Lemma molecular_ij_symmetric_witness :
  molecular_ij "CH4" "H2" 300 1 example = molecular_ij "H2" "CH4" 300 1 example.
Proof.
  apply (molecular_ij_symmetric example "CH4" "H2" 16.043e-3 2.016e-3 3.758 2.827
           148.6 59.7 300 1)%R; reflexivity.
Defined.

Section PressureScaling.
Local Open Scope R_scope.

Lemma molecular_defined_scale (mi mj si sj ei ej T P k : R) :
  k <> 0 -> molecular_defined mi mj si sj ei ej T P ->
  molecular_defined mi mj si sj ei ej T (k * P).
Proof.
  intros Hk [H1 H2 H3 H4 H5 H6 H7 H8]. constructor; auto.
  rewrite !Rmult_assoc. apply Rmult_integral_contrapositive_currified; [exact Hk|].
  rewrite <- !Rmult_assoc. exact H8.
Qed.

Lemma molecular_value_scale (mi mj si sj ei ej T P k : R) :
  k <> 0 -> molecular_defined mi mj si sj ei ej T P ->
  molecular_value mi mj si sj ei ej T (k * P)
  = molecular_value mi mj si sj ei ej T P / k.
Proof.
  intros Hk [_ _ _ _ _ _ _ H8]. unfold molecular_value.
  replace (k * P * ((si + sj) / 2) * ((si + sj) / 2) * omega_value (T / sqrt (ei * ej)))
    with (k * (P * ((si + sj) / 2) * ((si + sj) / 2) * omega_value (T / sqrt (ei * ej))))
    by ring.
  generalize dependent (P * ((si + sj) / 2) * ((si + sj) / 2)
                        * omega_value (T / sqrt (ei * ej))).
  intros den Hden0. field. auto.
Qed.

(** Multiplying the pressure by [k] divides a returned molecular diffusivity
    by [k]. *)
Theorem molecular_ij_pressure (self self' : FluidMixture) (i j : string)
    (T P D k : R) :
  k <> 0 ->
  molecular_ij i j T P self = (Ok D, self') ->
  molecular_ij i j T (k * P) self = (Ok (D / k), self).
Proof.
  intros Hk H. apply molecular_ij_inv in H
    as (mi & mj & si & sj & ei & ej & Hmi & Hmj & Hsi & Hsj & Hei & Hej & Hdef & ->).
  rewrite (molecular_ij_run self i j mi mj si sj ei ej Hmi Hmj Hsi Hsj Hei Hej T (k * P));
    [|now apply molecular_defined_scale].
  now rewrite molecular_value_scale.
Qed.

(** [write_calculations] hands the pressure in Pa to [molecular_ij], which
    takes it in atm: whenever [effective_macropore_i] returns, [molecular_ij]
    on the same arguments returns a value [vm] that is 101325 times smaller
    than the molecular diffusivity inside [effective_macropore_i], which is
    [e / t / (1 / (101325 * vm) + 1 / vk)] for the value [vk] of [knudsen_i]. *)
Theorem effective_macropore_i_same_arguments (self self' : FluidMixture)
    (i j : string) (T P ve : R) :
  effective_macropore_i i j T P self = (Ok ve, self') ->
  exists vm vk,
    molecular_ij i j T P self = (Ok vm, self)
    /\ knudsen_i i j T P self = (Ok vk, self')
    /\ ve = void_fraction (base self) / tortuosity (base self)
            / (1 / (101325 * vm) + 1 / vk).
Proof.
  intros H. apply effective_macropore_i_inv in H
    as (m & Dm & Dk & Hm & HDm & HDk & _ & -> & ->).
  apply molecular_ij_inv in HDm
    as (mi & mj & si & sj & ei & ej & Hmi & Hmj & Hsi & Hsj & Hei & Hej & Hdef & ->).
  pose proof (molecular_defined_scale _ _ _ _ _ _ _ _ 101325 ltac:(lra) Hdef) as Hdef'.
  pose proof (molecular_value_scale _ _ _ _ _ _ _ _ 101325 ltac:(lra) Hdef) as Hval.
  replace (101325 * (P / 101325)) with P in Hdef', Hval by field.
  exists (molecular_value mi mj si sj ei ej T P), Dk. split; [|split].
  - now apply (molecular_ij_run self i j mi mj si sj ei ej).
  - rewrite (knudsen_i_found _ _ _ _ _ _ Hm). now rewrite HDk.
  - unfold effective_value. rewrite Hval. do 3 f_equal. field.
Qed.

Lemma effective_macropore_i_same_arguments_witness :
  exists vm vk,
    molecular_ij "CH4" "H2" 300 101325 example = (Ok vm, example)
    /\ knudsen_i "CH4" "H2" 300 101325 example
       = (Ok vk, with_molecular_weight 16.043e-3 example)
    /\ effective_value example example_Dm example_Dk
       = void_fraction (base example) / tortuosity (base example)
         / (1 / (101325 * vm) + 1 / vk).
Proof.
  apply (effective_macropore_i_same_arguments example _ "CH4" "H2" 300 101325).
  exact example_effective_macropore_i.
Defined.

Lemma molecular_ij_pressure_witness :
  101325 <> 0 /\
  molecular_ij "CH4" "H2" 300 (101325 * (101325 / 101325)) example
  = (Ok (example_Dm / 101325), example).
Proof.
  split; [lra|].
  apply (molecular_ij_pressure example example "CH4" "H2" 300 (101325 / 101325)
           example_Dm 101325); [lra | exact example_molecular_ij].
Defined.
End PressureScaling.

(** ** Knudsen diffusivity: temperature, errors, stored weight *)

Section KnudsenProperties.
Local Open Scope R_scope.

(** For a positive geometry and molecular weight, [knudsen] returns at every
    temperature [T >= 0], and a higher temperature gives a strictly higher
    diffusivity. *)
Theorem knudsen_increasing (e d t M T1 T2 : R) :
  0 < e -> 0 < d -> 0 < t -> 0 < M -> 0 <= T1 < T2 ->
  exists D1 D2,
    knudsen T1 (PureFluid_init e d t (Some M)) = (Ok D1, PureFluid_init e d t (Some M))
    /\ knudsen T2 (PureFluid_init e d t (Some M)) = (Ok D2, PureFluid_init e d t (Some M))
    /\ 0 <= D1 < D2.
Proof.
  intros He Hd Ht HM [HT1 HT]. pose proof PI_RGT_0 as Hpi.
  set (self := PureFluid_init e d t (Some M)).
  assert (Hroot : forall T, 0 <= T -> 0 <= 8 * R_gas self * T / PI / M).
  { intros T HT0. cbn [R_gas self PureFluid_init].
    apply Rmult_le_pos; [apply Rmult_le_pos|]; [|left; now apply Rinv_0_lt_compat..].
    apply Rmult_le_pos; lra. }
  exists (knudsen_value self M T1), (knudsen_value self M T2).
  split; [|split].
  - apply knudsen_run; [reflexivity | cbn; lra | lra | apply Hroot; lra].
  - apply knudsen_run; [reflexivity | cbn; lra | lra | apply Hroot; lra].
  - unfold knudsen_value. cbn [void_fraction d_pore tortuosity R_gas self PureFluid_init].
    assert (Hc : 0 < e * d / t / 3).
    { repeat apply Rdiv_lt_0_compat; try lra. apply Rmult_lt_0_compat; lra. }
    assert (Hlt : sqrt (8 * 8.314 * T1 / PI / M) < sqrt (8 * 8.314 * T2 / PI / M)).
    { apply sqrt_lt_1_alt. split; [apply (Hroot T1 HT1)|].
      unfold Rdiv. repeat apply Rmult_lt_compat_r;
        try (apply Rinv_0_lt_compat; lra). lra. }
    pose proof (sqrt_pos (8 * 8.314 * T1 / PI / M)). split.
    + apply Rmult_le_pos; lra.
    + apply Rmult_lt_compat_l; lra.
Qed.

Lemma knudsen_increasing_witness :
  exists D1 D2,
    knudsen 300 (PureFluid_init 0.35 1e-8 1.5 (Some 16.043e-3))
    = (Ok D1, PureFluid_init 0.35 1e-8 1.5 (Some 16.043e-3))
    /\ knudsen 400 (PureFluid_init 0.35 1e-8 1.5 (Some 16.043e-3))
       = (Ok D2, PureFluid_init 0.35 1e-8 1.5 (Some 16.043e-3))
    /\ 0 <= D1 < D2.
Proof. apply knudsen_increasing; lra. Defined.

(** The exceptions of [knudsen], in the order the expression meets them: a
    zero tortuosity, a molecular weight that is [None] or zero, a negative
    argument of the square root. *)
Theorem knudsen_raises (self : PureFluid) (T : R) :
  (tortuosity self = 0 -> knudsen T self = (Raise ZeroDivisionError, self))
  /\ (tortuosity self <> 0 -> molecular_weight self = None ->
      knudsen T self = (Raise TypeError, self))
  /\ (tortuosity self <> 0 -> molecular_weight self = Some 0 ->
      knudsen T self = (Raise ZeroDivisionError, self))
  /\ (forall M, tortuosity self <> 0 -> molecular_weight self = Some M -> M <> 0 ->
      8 * R_gas self * T / PI / M < 0 ->
      knudsen T self = (Raise ValueError, self)).
Proof.
  pose proof PI_RGT_0 as Hpi.
  unfold knudsen, attr, bind, truediv_obj, truediv, math_sqrt, ret, raise.
  repeat split.
  - intros Ht. cbv beta iota. now destruct (Req_dec_T (tortuosity self) 0).
  - intros Ht HM. repeat decide_step. reflexivity.
  - intros Ht HM. repeat decide_step. reflexivity.
  - intros M Ht HM HM0 Hneg. repeat decide_step. reflexivity.
Qed.
End KnudsenProperties.

Lemma knudsen_without_weight (self : PureFluid) (T : R) :
  tortuosity self <> 0%R -> molecular_weight self = None ->
  knudsen T self = (Raise TypeError, self).
Proof.
  intros Ht HM. pose proof PI_RGT_0.
  unfold knudsen, attr, bind, truediv_obj, truediv, math_sqrt, ret, raise.
  repeat decide_step. reflexivity.
Qed.

Section StoredWeight.
Local Open Scope R_scope.

(** On a mixture constructed without a molecular weight, the inherited
    [knudsen] raises [TypeError] (the tortuosity being non-zero): it is
    [knudsen_i] that supplies the weight. *)
Theorem knudsen_before_knudsen_i (components : list string)
    (mw sigma eps : list R) (e d t T : R) :
  t <> 0 ->
  inherited (knudsen T) (FluidMixture_init components mw sigma eps e d t None)
  = (Raise TypeError, FluidMixture_init components mw sigma eps e d t None).
Proof.
  intros Ht.
  apply (inherited_read_only _ _ _ (PureFluid_init e d t None));
    [apply knudsen_read_only|].
  now apply knudsen_without_weight.
Qed.

Lemma knudsen_before_knudsen_i_witness :
  1.5 <> 0 /\
  inherited (knudsen 300) example = (Raise TypeError, example).
Proof.
  split; [lra|]. apply knudsen_before_knudsen_i. lra.
Defined.

(** After [knudsen_i] has found species [i], a second [knudsen_i] for the
    same species (with any partner and pressure) and the inherited [knudsen]
    at the same temperature both give the first result again and leave the
    object as the first call left it. *)
Theorem knudsen_i_again (self self' : FluidMixture) (i j j' : string)
    (T P P' : R) (r : res R) :
  is_Some (molecular_weight_i self !! i) ->
  knudsen_i i j T P self = (r, self') ->
  knudsen_i i j' T P' self' = (r, self')
  /\ inherited (knudsen T) self' = (r, self').
Proof.
  intros [m Hm] H. rewrite (knudsen_i_found _ _ _ _ _ _ Hm) in H.
  injection H as <- <-. split.
  - now rewrite (knudsen_i_found (with_molecular_weight m self) _ _ _ _ m Hm).
  - destruct (knudsen T (set_molecular_weight (Some m) (base self))) as [r b] eqn:E.
    apply (inherited_read_only _ (with_molecular_weight m self) r b);
      [apply knudsen_read_only | exact E].
Qed.

Lemma knudsen_i_again_witness :
  knudsen_i "CH4" "N2" 300 1 (with_molecular_weight 16.043e-3 example)
  = (Ok example_Dk, with_molecular_weight 16.043e-3 example)
  /\ inherited (knudsen 300) (with_molecular_weight 16.043e-3 example)
     = (Ok example_Dk, with_molecular_weight 16.043e-3 example).
Proof.
  apply (knudsen_i_again example _ "CH4" "H2" "N2" 300 101325 1).
  - exists 16.043e-3. reflexivity.
  - rewrite (knudsen_i_found example "CH4" "H2" 300 101325 16.043e-3 eq_refl).
    now rewrite example_knudsen.
Defined.

Lemma agree_bind {S A B} (Q : S -> S -> Prop) (c : M S A) (k : A -> M S B) :
  agree Q c -> (forall a, agree Q (k a)) -> agree Q (bind c k).
Proof.
  intros Hc Hk s1 s2 HQ. destruct (Hc s1 s2 HQ) as [E1 E2]. unfold bind.
  destruct (c s1) as [[a1|e1] t1], (c s2) as [[a2|e2] t2]; cbn in E1, E2;
    try discriminate.
  - injection E1 as ->. now apply Hk.
  - injection E1 as ->. now split.
Qed.

Lemma agree_stateless {S A} (Q : S -> S -> Prop) (c : M S A) (r : res A) :
  (forall s, c s = (r, s)) -> agree Q c.
Proof. intros H s1 s2 HQ. now rewrite !H. Qed.

Lemma agree_truediv {S} (Q : S -> S -> Prop) (x y : R) : agree Q (truediv x y).
Proof.
  unfold truediv. destruct (Req_dec_T y 0);
    [now apply (agree_stateless Q _ (Raise ZeroDivisionError))
    |now apply (agree_stateless Q _ (Ok (x / y)))].
Qed.

Lemma agree_math_sqrt {S} (Q : S -> S -> Prop) (x : R) : agree Q (math_sqrt x).
Proof.
  unfold math_sqrt. destruct (Rlt_dec x 0);
    [now apply (agree_stateless Q _ (Raise ValueError))
    |now apply (agree_stateless Q _ (Ok (sqrt x)))].
Qed.

Lemma agree_pow {S} (Q : S -> S -> Prop) (w b : R) : agree Q (pow w b).
Proof.
  unfold pow. destruct (Rlt_dec 0 w); [|destruct (Req_dec_T w 0)].
  - now apply (agree_stateless Q _ (Ok (Real (Rpower w b)))).
  - now apply (agree_stateless Q _ (Ok (Real 0))).
  - now apply (agree_stateless Q _ (Ok Complex)).
Qed.

Lemma agree_math_exp {S} (Q : S -> S -> Prop) (x : R) : agree Q (math_exp x).
Proof.
  unfold math_exp. destruct (Rlt_dec exp_max x); [|destruct (Rlt_dec x exp_min)].
  - now apply (agree_stateless Q _ (Raise OverflowError)).
  - now apply (agree_stateless Q _ (Ok 0%R)).
  - now apply (agree_stateless Q _ (Ok (exp x))).
Qed.

Lemma agree_ordered {S} (Q : S -> S -> Prop) (x : number) : agree Q (ordered x).
Proof.
  destruct x as [x|].
  - now apply (agree_stateless Q _ (Ok x)).
  - now apply (agree_stateless Q _ (Raise TypeError)).
Qed.

Lemma agree_assert {S} (Q : S -> S -> Prop) (cond : bool) msg :
  agree Q (assert cond msg).
Proof.
  destruct cond;
    [now apply (agree_stateless Q _ (Ok tt))
    |now apply (agree_stateless Q _ (Raise (AssertionError msg)))].
Qed.

Lemma agree_ret {S A} (Q : S -> S -> Prop) (a : A) : agree Q (ret a).
Proof. now apply (agree_stateless Q _ (Ok a)). Qed.

Lemma agree_truediv_number {S} (Q : S -> S -> Prop) (x : R) (y : number) :
  agree Q (truediv_number x y).
Proof.
  destruct y as [y|]; cbn [truediv_number].
  - apply agree_bind; [apply agree_truediv | intros q; apply agree_ret].
  - apply agree_ret.
Qed.

Lemma agree_getitem {S V} (Q : S -> S -> Prop) (d : S -> gmap string V) key :
  (forall s1 s2, Q s1 s2 -> d s1 = d s2) -> agree Q (getitem d key).
Proof.
  intros Hd s1 s2 HQ. unfold getitem. rewrite (Hd s1 s2 HQ).
  now destruct (d s2 !! key).
Qed.

Lemma agree_attr {S A} (Q : S -> S -> Prop) (f : S -> A) :
  (forall s1 s2, Q s1 s2 -> f s1 = f s2) -> agree Q (attr f).
Proof. intros Hf s1 s2 HQ. unfold attr. cbn. now rewrite (Hf s1 s2 HQ). Qed.

Lemma same_other_inv (s1 s2 : FluidMixture) :
  same_other s1 s2 ->
  molecular_weight_i s1 = molecular_weight_i s2 /\ sigma_i s1 = sigma_i s2
  /\ epsilon_i s1 = epsilon_i s2
  /\ void_fraction (base s1) = void_fraction (base s2)
  /\ tortuosity (base s1) = tortuosity (base s2)
  /\ forall m, with_molecular_weight m s1 = with_molecular_weight m s2.
Proof.
  destruct s1 as [[] ? ? ? ?], s2 as [[] ? ? ? ?].
  unfold same_other, other_attributes. cbn. intros [= -> -> -> -> -> -> -> ->].
  repeat split; reflexivity.
Qed.

Lemma agree_knudsen_i i j T P : agree same_other (knudsen_i i j T P).
Proof.
  intros s1 s2 HQ. pose proof (same_other_inv _ _ HQ) as (Hmw & _ & _ & _ & _ & Hw).
  destruct (molecular_weight_i s2 !! i) as [m|] eqn:Hm.
  - assert (Hm1 : molecular_weight_i s1 !! i = Some m) by now rewrite Hmw.
    rewrite (knudsen_i_found s1 i j T P m Hm1), (knudsen_i_found s2 i j T P m Hm).
    cbn [fst snd]. pose proof (Hw m) as E. split.
    + pose proof (f_equal base E) as Eb.
      unfold with_molecular_weight in Eb. cbn [base set_base] in Eb.
      now rewrite Eb.
    + unfold same_other. now rewrite E.
  - assert (Hm1 : molecular_weight_i s1 !! i = None) by now rewrite Hmw.
    rewrite (knudsen_i_missing s1 i j T P Hm1), (knudsen_i_missing s2 i j T P Hm).
    now split.
Qed.

Ltac agree_tac :=
  repeat first
    [ progress cbv zeta
    | apply agree_bind; [|intros ?]
    | apply agree_truediv | apply agree_math_sqrt | apply agree_pow
    | apply agree_math_exp | apply agree_truediv_number | apply agree_ordered
    | apply agree_assert | apply agree_ret
    | apply agree_getitem; intros ? ? HQ; apply same_other_inv in HQ; tauto
    | apply agree_attr; intros ? ? HQ; apply same_other_inv in HQ; tauto ].

Lemma agree_molecular_ij i j T P : agree same_other (molecular_ij i j T P).
Proof.
  unfold molecular_ij, sigma_ij_rule, epsilon_ij_rule, omega_ij. agree_tac.
Qed.

Lemma agree_effective_macropore_i i j T P :
  agree same_other (effective_macropore_i i j T P).
Proof.
  unfold effective_macropore_i.
  repeat first [ apply agree_molecular_ij | apply agree_knudsen_i
               | apply agree_bind; [|intros ?] | apply agree_truediv
               | apply agree_attr; intros ? ? HQ; apply same_other_inv in HQ; tauto ].
Qed.

(** The results of the three methods depend only on the attributes other
    than [molecular_weight]: whatever that attribute holds when a method is
    called (as left by an earlier [knudsen_i], say), the result is the same. *)
Theorem results_ignore_molecular_weight (s1 s2 : FluidMixture)
    (i j : string) (T P : R) :
  other_attributes s1 = other_attributes s2 ->
  (molecular_ij i j T P s1).1 = (molecular_ij i j T P s2).1
  /\ (knudsen_i i j T P s1).1 = (knudsen_i i j T P s2).1
  /\ (effective_macropore_i i j T P s1).1 = (effective_macropore_i i j T P s2).1.
Proof.
  intros H. split; [|split].
  - now apply agree_molecular_ij.
  - now apply agree_knudsen_i.
  - now apply agree_effective_macropore_i.
Qed.

Lemma results_ignore_molecular_weight_witness :
  (effective_macropore_i "CH4" "H2" 300 101325
     (with_molecular_weight 2.016e-3 example)).1
  = (effective_macropore_i "CH4" "H2" 300 101325 example).1.
Proof.
  apply (results_ignore_molecular_weight
           (with_molecular_weight 2.016e-3 example) example "CH4" "H2" 300 101325).
  reflexivity.
Defined.
End StoredWeight.

(** ** The collision integral outside and inside its domain *)

Section OmegaProperties.
Local Open Scope R_scope.

(** [omega_ij] never returns on a reduced temperature that is not positive.
    At zero the first division raises [ZeroDivisionError].  Below zero the
    power is complex and the comparison raises [TypeError]; unless [B4 * w]
    is below [exp_min] (reduced temperatures below about -191.35): there
    [math.exp] gives zero, and the division by it raises
    [ZeroDivisionError] before the comparison is reached. *)
Theorem omega_ij_not_positive (self : FluidMixture) (w : R) :
  w <= 0 ->
  omega_ij w self
  = (Raise (if Req_dec_T w 0 then ZeroDivisionError
            else if Rlt_dec (B4 * w) exp_min then ZeroDivisionError
            else TypeError), self).
Proof.
  intros Hw. destruct (Req_dec_T w 0) as [->|Hne].
  - apply omega_ij_zero.
  - apply omega_ij_neg. lra.
Qed.

Lemma omega_ij_not_positive_witness :
  omega_ij 0 example = (Raise ZeroDivisionError, example)
  /\ omega_ij (-1) example = (Raise TypeError, example)
  /\ omega_ij (-191) example = (Raise TypeError, example)
  /\ omega_ij (-192) example = (Raise ZeroDivisionError, example).
Proof.
  split; [|split; [|split]].
  - rewrite (omega_ij_not_positive example 0) by lra.
    now destruct (Req_dec_T 0 0) as [_|H].
  - rewrite (omega_ij_not_positive example (-1)) by lra.
    destruct (Req_dec_T (-1) 0) as [H|_]; [lra|].
    destruct (Rlt_dec (B4 * -1) exp_min) as [H|_]; [|reflexivity].
    exfalso. unfold B4, exp_min in H. lra.
  - rewrite (omega_ij_not_positive example (-191)) by lra.
    destruct (Req_dec_T (-191) 0) as [H|_]; [lra|].
    destruct (Rlt_dec (B4 * -191) exp_min) as [H|_]; [|reflexivity].
    exfalso. unfold B4, exp_min in H. lra.
  - rewrite (omega_ij_not_positive example (-192)) by lra.
    destruct (Req_dec_T (-192) 0) as [H|_]; [lra|].
    destruct (Rlt_dec (B4 * -192) exp_min) as [_|H]; [reflexivity|].
    exfalso. unfold B4, exp_min in H. lra.
Defined.

(** For a reduced temperature between 1 and 4 the assertion of [omega_ij]
    holds: it returns the correlation value, which is within (0.5, 2.7). *)
Theorem omega_ij_returns (self : FluidMixture) (w : R) :
  1 <= w <= 4 ->
  omega_ij w self = (Ok (omega_value w), self) /\ 0.5 < omega_value w < 2.7.
Proof.
  intros Hw. pose proof (omega_value_range w Hw) as Hr.
  split; [|exact Hr]. apply omega_ij_run; [lra | exact Hr].
Qed.

Lemma omega_ij_returns_witness :
  omega_ij 3 example = (Ok (omega_value 3), example) /\ 0.5 < omega_value 3 < 2.7.
Proof. apply omega_ij_returns. lra. Defined.
End OmegaProperties.

(** ** Conditions under which the diffusivities are not defined *)

Section EdgeCases.
Local Open Scope R_scope.
Context (self : FluidMixture) (i j : string) (mi mj si sj ei ej : R).
Hypothesis Hmi : molecular_weight_i self !! i = Some mi.
Hypothesis Hmj : molecular_weight_i self !! j = Some mj.
Hypothesis Hsi : sigma_i self !! i = Some si.
Hypothesis Hsj : sigma_i self !! j = Some sj.
Hypothesis Hei : epsilon_i self !! i = Some ei.
Hypothesis Hej : epsilon_i self !! j = Some ej.
Hypothesis Hpos : 0 < mi /\ 0 < mj /\ 0 < si /\ 0 < sj /\ 0 < ei /\ 0 < ej.

Lemma molecular_steps_prefix (T P : R) :
  0 <= T ->
  molecular_steps mi mj si sj ei ej T P self
  = bind (omega_ij (T / sqrt (ei * ej))) (λ om,
      bind (truediv
              (1.858e-3 * sqrt (T * T * T * (1 / (mi * 1000) + 1 / (mj * 1000))))
              (P * ((si + sj) / 2) * ((si + sj) / 2) * om)) (λ q,
        bind (truediv q 100) (λ q1, truediv q1 100))) self.
Proof.
  destruct Hpos as (? & ? & ? & ? & ? & ?). intros HT. unfold molecular_steps.
  assert (0 < 1 / (mi * 1000)) by (apply Rdiv_lt_0_compat; lra).
  assert (0 < 1 / (mj * 1000)) by (apply Rdiv_lt_0_compat; lra).
  assert (0 <= T * T * T) by (repeat apply Rmult_le_pos; lra).
  assert (He : 0 < ei * ej) by now apply Rmult_lt_0_compat.
  pose proof (sqrt_lt_R0 _ He).
  rewrite (bind_run _ _ _ _ _ (truediv_run 1 (mi * 1000) self ltac:(lra))).
  rewrite (bind_run _ _ _ _ _ (truediv_run 1 (mj * 1000) self ltac:(lra))).
  rewrite (bind_run _ _ _ _ _
             (math_sqrt_run (T * T * T * (1 / (mi * 1000) + 1 / (mj * 1000))) self
                ltac:(apply Rmult_le_pos; lra))).
  rewrite (bind_run _ _ _ _ _ (math_sqrt_run (ei * ej) self ltac:(lra))).
  now rewrite (bind_run _ _ _ _ _ (truediv_run T (sqrt (ei * ej)) self ltac:(lra))).
Qed.

(** With positive stored parameters, [molecular_ij] raises [ValueError] at
    a negative temperature and [ZeroDivisionError] at the temperature zero;
    and at the pressure zero it raises [ZeroDivisionError] whenever the
    collision integral is within its range. *)
Theorem molecular_ij_not_defined (T P : R) :
  (T < 0 -> molecular_ij i j T P self = (Raise ValueError, self))
  /\ (T = 0 -> molecular_ij i j T P self = (Raise ZeroDivisionError, self))
  /\ (0 < T -> 0.5 < omega_value (T / sqrt (ei * ej)) < 2.7 ->
      molecular_ij i j T 0 self = (Raise ZeroDivisionError, self)).
Proof.
  pose proof Hpos as (? & ? & ? & ? & ? & ?).
  assert (He : 0 < ei * ej) by now apply Rmult_lt_0_compat.
  pose proof (sqrt_lt_R0 _ He) as Hs.
  repeat split.
  - intros HT.
    rewrite (molecular_ij_found self i j mi mj si sj ei ej Hmi Hmj Hsi Hsj Hei Hej).
    unfold molecular_steps.
    rewrite (bind_run _ _ _ _ _ (truediv_run 1 (mi * 1000) self ltac:(lra))).
    rewrite (bind_run _ _ _ _ _ (truediv_run 1 (mj * 1000) self ltac:(lra))).
    assert (0 < 1 / (mi * 1000)) by (apply Rdiv_lt_0_compat; lra).
    assert (0 < 1 / (mj * 1000)) by (apply Rdiv_lt_0_compat; lra).
    assert (Hneg : T * T * T * (1 / (mi * 1000) + 1 / (mj * 1000)) < 0).
    { assert (0 < T * T) by nra. assert (T * T * T < 0) by nra. nra. }
    unfold bind, math_sqrt, raise.
    now destruct (Rlt_dec _ 0).
  - intros ->.
    rewrite (molecular_ij_found self i j mi mj si sj ei ej Hmi Hmj Hsi Hsj Hei Hej).
    rewrite molecular_steps_prefix by lra.
    replace (0 / sqrt (ei * ej)) with 0 by (field; lra).
    now rewrite (bind_raise _ _ _ _ _ (omega_ij_zero self)).
  - intros HT Hom.
    rewrite (molecular_ij_found self i j mi mj si sj ei ej Hmi Hmj Hsi Hsj Hei Hej).
    rewrite molecular_steps_prefix by lra.
    assert (Hw : 0 < T / sqrt (ei * ej)) by now apply Rdiv_lt_0_compat.
    rewrite (bind_run _ _ _ _ _ (omega_ij_run self _ Hw Hom)).
    rewrite (bind_raise _ _ _ ZeroDivisionError self); [reflexivity|].
    apply truediv_by_zero. ring.
Qed.

(** With positive stored parameters and a positive geometry, temperature
    and pressure, [effective_macropore_i] returns a positive diffusivity as
    soon as the collision integral is within its range. *)
Theorem effective_macropore_i_positive (T P : R) :
  0 < void_fraction (base self) -> 0 < d_pore (base self) ->
  0 < tortuosity (base self) -> 0 < R_gas (base self) ->
  0 < T -> 0 < P ->
  0.5 < omega_value (T / sqrt (ei * ej)) < 2.7 ->
  exists v, effective_macropore_i i j T P self = (Ok v, with_molecular_weight mi self)
            /\ 0 < v.
Proof.
  intros He Hd Ht HR HT HP Hom. pose proof Hpos as (? & ? & ? & ? & ? & ?).
  eexists. split.
  - apply (pair_effective self i j mi mj si sj ei ej T P); auto.
  - unfold effective_value.
    assert (HDm : 0 < molecular_value mi mj si sj ei ej T (P / 101325))
      by (apply molecular_value_pos; lra).
    assert (HDk : 0 < knudsen_value (base self) mi T)
      by (apply knudsen_value_pos; lra).
    assert (0 < 1 / molecular_value mi mj si sj ei ej T (P / 101325))
      by (apply Rdiv_lt_0_compat; lra).
    assert (0 < 1 / knudsen_value (base self) mi T)
      by (apply Rdiv_lt_0_compat; lra).
    repeat apply Rdiv_lt_0_compat; lra.
Qed.
End EdgeCases.

Lemma example_positive :
  (0 < 16.043e-3 /\ 0 < 2.016e-3 /\ 0 < 3.758 /\ 0 < 2.827 /\ 0 < 148.6 /\ 0 < 59.7)%R.
Proof. repeat split; lra. Qed.

Lemma molecular_ij_not_defined_witness :
  molecular_ij "CH4" "H2" 0 1 example = (Raise ZeroDivisionError, example).
Proof.
  apply (molecular_ij_not_defined example "CH4" "H2" 16.043e-3 2.016e-3 3.758 2.827
           148.6 59.7 eq_refl eq_refl eq_refl eq_refl eq_refl eq_refl
           example_positive 0 1)%R.
  reflexivity.
Defined.

Lemma effective_macropore_i_positive_witness :
  exists v, effective_macropore_i "CH4" "H2" 300 101325 example
            = (Ok v, with_molecular_weight 16.043e-3 example)
            /\ (0 < v)%R.
Proof.
  apply (effective_macropore_i_positive example "CH4" "H2" 16.043e-3 2.016e-3
           3.758 2.827 148.6 59.7 eq_refl eq_refl eq_refl eq_refl eq_refl eq_refl
           example_positive 300 101325)%R;
    try (example_fields; lra).
  apply omega_value_range, example_reduced_temperature.
Defined.

(** ** What the mappings of a constructed mixture hold *)

Lemma foldl_insert_last (kvs : list (string * R)) (name : string) (v : R) :
  foldl (λ d kv, <[kv.1 := kv.2]> d) (∅ : gmap string R) kvs !! name = Some v
  <-> exists k, kvs !! k = Some (name, v)
        /\ forall k' v', (k < k')%nat -> kvs !! k' <> Some (name, v').
Proof.
  induction kvs as [|[k0 v0] l IH] using rev_ind.
  - cbn. rewrite lookup_empty. split; [discriminate|]. intros (k & H & _).
    now rewrite lookup_nil in H.
  - rewrite foldl_snoc. cbn [fst snd].
    destruct (decide (k0 = name)) as [->|Hne].
    + rewrite lookup_insert_eq. split.
      * intros [= ->]. exists (length l). split.
        -- now rewrite list_lookup_middle.
        -- intros k' v' Hk'. rewrite lookup_ge_None_2; [discriminate|].
           rewrite length_app. cbn. lia.
      * intros (k & Hk & Hlast).
        destruct (lt_eq_lt_dec k (length l)) as [[Hlt|Heq]|Hgt].
        -- exfalso. apply (Hlast (length l) v0 Hlt).
           now rewrite list_lookup_middle.
        -- subst k. rewrite list_lookup_middle in Hk by reflexivity.
           now injection Hk as ->.
        -- rewrite lookup_ge_None_2 in Hk; [discriminate|].
           rewrite length_app. cbn. lia.
    + rewrite lookup_insert_ne by exact Hne. rewrite IH. split.
      * intros (k & Hk & Hlast). exists k. split.
        -- rewrite lookup_app_l; [exact Hk|]. eapply lookup_lt_Some, Hk.
        -- intros k' v' Hk' H.
           destruct (lt_eq_lt_dec k' (length l)) as [[Hlt|Heq]|Hgt].
           ++ rewrite lookup_app_l in H by exact Hlt. now apply (Hlast k' v' Hk').
           ++ subst k'. rewrite list_lookup_middle in H by reflexivity. congruence.
           ++ rewrite lookup_ge_None_2 in H; [discriminate|].
              rewrite length_app. cbn. lia.
      * intros (k & Hk & Hlast).
        assert (Hlt : (k < length l)%nat).
        { destruct (lt_eq_lt_dec k (length l)) as [[Hlt|Heq]|Hgt]; [exact Hlt| |].
          - subst k. rewrite list_lookup_middle in Hk by reflexivity. congruence.
          - rewrite lookup_ge_None_2 in Hk; [discriminate|].
            rewrite length_app. cbn. lia. }
        rewrite lookup_app_l in Hk by exact Hlt. exists k. split; [exact Hk|].
        intros k' v' Hk' H. apply (Hlast k' v' Hk').
        rewrite lookup_app_l; [exact H|]. eapply lookup_lt_Some, H.
Qed.

(** Each mapping gives, for a name, the value at the last position where
    the name stands in the components and the value list still has a value;
    for distinct components, the value at the position of the name. *)
Theorem dict_zip_lookup (keys : list string) (vals : list R) (name : string) (v : R) :
  (dict_zip keys vals !! name = Some v
   <-> exists k, keys !! k = Some name /\ vals !! k = Some v
         /\ forall k', (k < k')%nat -> keys !! k' = Some name -> vals !! k' = None)
  /\ (NoDup keys -> forall k, keys !! k = Some name -> vals !! k = Some v ->
      dict_zip keys vals !! name = Some v).
Proof.
  assert (Hiff : dict_zip keys vals !! name = Some v
    <-> exists k, keys !! k = Some name /\ vals !! k = Some v
          /\ forall k', (k < k')%nat -> keys !! k' = Some name -> vals !! k' = None).
  { unfold dict_zip. rewrite foldl_insert_last. split.
    - intros (k & Hk & Hlast). apply lookup_zip_Some in Hk as [Hk Hv].
      exists k. repeat split; auto. intros k' Hk' Hname.
      destruct (vals !! k') as [v'|] eqn:Hv'; [|reflexivity].
      exfalso. apply (Hlast k' v' Hk'). now apply lookup_zip_Some.
    - intros (k & Hk & Hv & Hlast). exists k. split; [now apply lookup_zip_Some|].
      intros k' v' Hk' H. apply lookup_zip_Some in H as [Hname Hv'].
      rewrite (Hlast k' Hk' Hname) in Hv'. discriminate. }
  split; [exact Hiff|].
  intros Hnd k Hk Hv. apply Hiff. exists k. repeat split; auto.
  intros k' Hk' Hname. exfalso.
  pose proof (NoDup_lookup _ _ _ _ Hnd Hk Hname). lia.
Qed.

(** ** [write_calculations], whatever its outcome *)

Section Logs.
Context (self0 : FluidMixture) (T P : R).

Lemma logs_ret {A} (a : A) : logs self0 T P [] (ret a).
Proof.
  intros w r w' HQ [= <- <-]. split; [exact HQ|].
  exists []. now rewrite app_nil_r.
Qed.

Lemma logs_bind {A B} ks1 ks2 (c : M _ A) (k : A -> M _ B) :
  logs self0 T P ks1 c -> (forall a, logs self0 T P ks2 (k a)) ->
  logs self0 T P (ks1 ++ ks2) (bind c k).
Proof.
  intros Hc Hk w r w' HQ H. unfold bind in H.
  destruct (c w) as [[a|e] w1] eqn:E.
  - destruct (Hc _ _ _ HQ E) as (HQ1 & new1 & E1 & S1 & K1).
    destruct (Hk a _ _ _ HQ1 H) as (HQ2 & new2 & E2 & S2 & K2).
    split; [exact HQ2|]. exists (new1 ++ new2).
    split; [now rewrite E2, E1, app_assoc|].
    split; [now apply Forall_app|].
    rewrite fmap_app, K1. destruct r; [now rewrite K2 | now apply prefix_app].
  - injection H as <- <-.
    destruct (Hc _ _ _ HQ E) as (HQ1 & new1 & E1 & S1 & K1).
    split; [exact HQ1|]. exists new1. repeat split; auto.
    now apply prefix_app_r.
Qed.

Lemma logs_for_each {A} (f : A -> list (string * string * string))
    (body : A -> M _ unit) (xs : list A) :
  (forall x, logs self0 T P (f x) (body x)) ->
  logs self0 T P (xs ≫= f) (for_each xs body).
Proof.
  intros Hbody. induction xs as [|x xs IH]; cbn [for_each].
  - apply logs_ret.
  - intros w r w' HQ H.
    exact (logs_bind (f x) (xs ≫= f) _ _ (Hbody x) (λ _, IH) w r w' HQ H).
Qed.

Lemma logs_components {A} ks (k : list string -> M _ A) :
  logs self0 T P ks (k (component_i self0)) ->
  logs self0 T P ks (bind (attr (λ w, component_i w.1)) k).
Proof.
  intros Hk w r w' HQ H. unfold bind, attr in H.
  replace (component_i w.1) with (component_i self0) in H; [now apply Hk|].
  unfold same_other, other_attributes in HQ. now injection HQ.
Qed.

Lemma getattr_stateless {S1 S2} a (s1 : S1) (s2 : S2) :
  (getattr a s1).1 = (getattr a s2).1.
Proof.
  unfold getattr.
  destruct (String.eqb a "effective_macropore_i"); [reflexivity|].
  destruct (String.eqb a "knudsen_i"); [reflexivity|].
  destruct (String.eqb a "molecular_ij"); reflexivity.
Qed.

Lemma getattr_agree {S} a (s s' : S) func i j :
  getattr a s = (Ok func, s') ->
  agree same_other (func i j T P)
  /\ frames (sets_molecular_weight i) (func i j T P).
Proof.
  unfold getattr.
  destruct (String.eqb a "effective_macropore_i");
    [|destruct (String.eqb a "knudsen_i");
      [|destruct (String.eqb a "molecular_ij")]];
    intros [= <- <-].
  - split; [apply agree_effective_macropore_i | apply effective_macropore_i_frames].
  - split; [apply agree_knudsen_i | apply knudsen_i_frames].
  - split; [apply agree_molecular_ij | apply molecular_ij_frames].
Qed.

Lemma getattr_state {S} a (s s' : S) r : getattr a s = (r, s') -> s' = s.
Proof.
  unfold getattr, ret, raise.
  repeat destruct (String.eqb _ _); now intros [= _ <-].
Qed.

Lemma logs_write_row i j a :
  logs self0 T P [(i, j, a)]
    (bind (getattr a) (λ func,
       bind (on_self (func i j T P)) (λ v, write (i, j, a, v)))).
Proof.
  intros w r w' HQ H. unfold bind in H.
  destruct (getattr a w) as [[func|e] w1] eqn:Eg.
  2:{ injection H as <- <-. apply getattr_state in Eg as ->.
      split; [exact HQ|]. exists []. rewrite app_nil_r.
      repeat split; auto. apply prefix_nil. }
  pose proof (getattr_state _ _ _ _ Eg) as ->.
  destruct (getattr_agree _ _ _ _ i j Eg) as [Hag Hfr].
  unfold on_self in H. destruct (func i j T P w.1) as [rf self2] eqn:Ef.
  pose proof (sets_molecular_weight_other _ _ _ (Hfr _ _ _ Ef)) as Hother.
  assert (HQ2 : same_other self2 self0) by (unfold same_other in *; congruence).
  destruct rf as [v|e].
  - unfold write, modify in H. injection H as <- <-. cbn [fst snd].
    split; [exact HQ2|]. exists [(i, j, a, v)]. repeat split; auto.
    constructor; [|constructor]. exists func. cbn [fst snd]. split.
    + pose proof (getattr_stateless a w tt) as Es. rewrite Eg in Es. cbn in Es.
      pose proof (getattr_state a tt (getattr a tt).2 (getattr a tt).1) as Est.
      destruct (getattr a tt) as [rg u]. cbn in Es, Est. subst rg.
      now rewrite (Est eq_refl).
    + destruct (Hag _ _ HQ) as [Hres _]. rewrite Ef in Hres. now rewrite <- Hres.
  - injection H as <- <-. cbn [fst snd]. split; [exact HQ2|].
    exists []. rewrite app_nil_r. repeat split; auto. apply prefix_nil.
Qed.

Lemma logs_write_loops :
  logs self0 T P (table_keys (component_i self0))
    (bind (attr (λ w, component_i w.1)) (λ outer,
       for_each outer (λ i,
         bind (attr (λ w, component_i w.1)) (λ inner,
           for_each inner (λ j,
             if String.eqb i j then ret tt
             else for_each attrs (λ a,
                    bind (getattr a) (λ func,
                      bind (on_self (func i j T P)) (λ v,
                        write (i, j, a, v))))))))).
Proof.
  apply logs_components. unfold table_keys.
  apply (logs_for_each (λ i, component_i self0 ≫= λ j,
           if String.eqb i j then [] else (λ a, (i, j, a)) <$> attrs)).
  intros i. apply logs_components.
  apply (logs_for_each (λ j,
           if String.eqb i j then [] else (λ a, (i, j, a)) <$> attrs)).
  intros j. destruct (String.eqb i j); [apply logs_ret|].
  apply (logs_for_each (λ a, [(i, j, a)]) _ attrs).
  intros a. apply logs_write_row.
Qed.
End Logs.

Lemma write_calculations_logs T P self out0 r self' out :
  write_calculations T P (self, out0) = (r, (self', out)) ->
  other_attributes self' = other_attributes self
  /\ Forall (row_sound self T P) out
  /\ match r with
     | Ok _ => row_key <$> out = table_keys (component_i self)
     | Raise _ => (row_key <$> out) `prefix_of` table_keys (component_i self)
     end.
Proof.
  unfold write_calculations. intros H. unfold bind at 1, modify in H.
  cbn [fst] in H.
  apply (logs_write_loops self T P) in H; [|reflexivity].
  destruct H as (HQ & new & E & Hs & Hk). cbn [fst snd app] in *. subst new.
  auto.
Qed.

(** Whatever the outcome of [write_calculations], every line it has written
    holds the value that the method of its name returns, for its pair, on the
    object as it was before the call: the weight stored by earlier calls
    never reaches a written value. *)
Theorem write_calculations_values (T P : R) (self self' : FluidMixture)
    (out0 out : list row) (r : res unit) :
  write_calculations T P (self, out0) = (r, (self', out)) ->
  forall i j a v, (i, j, a, v) ∈ out ->
    exists func, getattr a tt = (Ok func, tt) /\ (func i j T P self).1 = Ok v.
Proof.
  intros H i j a v Hin. apply write_calculations_logs in H as (_ & Hs & _).
  rewrite Forall_forall in Hs. exact (Hs _ Hin).
Qed.

(** When [write_calculations] raises, the lines it has written are an
    initial segment of the complete table, and in every case the object
    differs from before at most in [molecular_weight]. *)
Theorem write_calculations_partial (T P : R) (self self' : FluidMixture)
    (out0 out : list row) (r : res unit) :
  write_calculations T P (self, out0) = (r, (self', out)) ->
  other_attributes self' = other_attributes self
  /\ (row_key <$> out) `prefix_of` table_keys (component_i self).
Proof.
  intros H. apply write_calculations_logs in H as (Ho & _ & Hk).
  split; [exact Ho|]. destruct r; [now rewrite Hk | exact Hk].
Qed.

Lemma write_calculations_values_witness :
  exists func,
    getattr "knudsen_i" tt = (Ok func, tt)
    /\ (func "H2"%string "CH4"%string 300%R 101325%R example).1
       = Ok (knudsen_value (base (with_molecular_weight 16.043e-3 example))
               2.016e-3 300).
Proof.
  apply (write_calculations_values 300 101325 example _ [] example_table (Ok tt)
           (example_write_calculations [])).
  unfold example_table. rewrite !elem_of_cons. auto 10.
Defined.

Lemma write_calculations_partial_witness :
  other_attributes (with_molecular_weight 2.016e-3 example) = other_attributes example
  /\ (row_key <$> example_table) `prefix_of` table_keys (component_i example).
Proof.
  apply (write_calculations_partial 300 101325 example _ [] example_table (Ok tt)
           (example_write_calculations [])).
Defined.

(** ** No pair of different species *)

Lemma skip_inner_loop {S} (i : string) (body : string -> M S unit) (l : list string)
    (s : S) :
  (forall j, j ∈ l -> j = i) ->
  for_each l (λ j, if String.eqb i j then ret tt else body j) s = (Ok tt, s).
Proof.
  induction l as [|j l IH]; intros H; [reflexivity|]. cbn [for_each].
  rewrite (H j) by left. rewrite String.eqb_refl.
  unfold bind, ret. apply IH. intros j' Hj'. apply H. now right.
Qed.

(** When the species list holds no two different names (it is empty, has one
    name, or repeats one name), [write_calculations] calls no method, writes
    an empty table and leaves the object untouched, whatever the mappings
    hold. *)
Theorem write_calculations_no_pair (T P : R) (self : FluidMixture) (out0 : list row) :
  (forall i j, i ∈ component_i self -> j ∈ component_i self -> i = j) ->
  write_calculations T P (self, out0) = (Ok tt, (self, [])).
Proof.
  intros H. unfold write_calculations, modify. unfold bind at 1. cbn [fst].
  unfold bind at 1, attr at 1. cbn [fst].
  assert (Hloop : forall outer, (forall i, i ∈ outer -> i ∈ component_i self) ->
    for_each outer (λ i,
      bind (attr (λ w : FluidMixture * list row, component_i w.1)) (λ inner,
        for_each inner (λ j,
          if String.eqb i j then ret tt
          else for_each attrs (λ a,
                 bind (getattr a) (λ func,
                   bind (on_self (func i j T P)) (λ v, write (i, j, a, v)))))))
      (self, []) = (Ok tt, (self, []))).
  { induction outer as [|i outer IH]; intros Hsub; [reflexivity|].
    cbn [for_each]. unfold bind at 1. unfold bind at 1, attr at 1. cbn [fst].
    rewrite skip_inner_loop.
    - apply IH. intros i' Hi'. apply Hsub. now right.
    - intros j Hj. symmetry. apply H; [apply Hsub; left | exact Hj]. }
  apply Hloop. auto.
Qed.

Lemma write_calculations_no_pair_witness :
  write_calculations 300 101325
    (FluidMixture_init ["H2"; "H2"] [] [] [] 0.35%R 1e-8%R 1.5%R None, [])
  = (Ok tt, (FluidMixture_init ["H2"; "H2"] [] [] [] 0.35%R 1e-8%R 1.5%R None, [])).
Proof.
  apply write_calculations_no_pair.
  cbn [component_i FluidMixture_init]. intros i j Hi Hj.
  rewrite !elem_of_cons, elem_of_nil in Hi, Hj. intuition congruence.
Defined.

(** ** [get_LJ_params] on data that is not a table *)

Section NotATable.
Context (LJ_data : gmap string (list cell)) (key : string) (rest : list string).

(** A missing column raises [KeyError] with the name of the column: the
    substances as soon as one component is asked for, the sigmas (and then
    the epsilons) once the first component has been found. *)
Theorem get_LJ_params_missing_column (substance sigma : list cell) (n : nat) (s : cell) :
  (LJ_data !! "Substance"%string = None ->
   get_LJ_params (key :: rest) LJ_data = Raise (KeyError "Substance"))
  /\ (LJ_data !! "Substance"%string = Some substance ->
      Str key ∈ substance ->
      LJ_data !! "sigma [angstrom]"%string = None ->
      get_LJ_params (key :: rest) LJ_data = Raise (KeyError "sigma [angstrom]"))
  /\ (LJ_data !! "Substance"%string = Some substance ->
      first_index substance key = Some n ->
      LJ_data !! "sigma [angstrom]"%string = Some sigma ->
      sigma !! n = Some s ->
      LJ_data !! "epsilon [K]"%string = None ->
      get_LJ_params (key :: rest) LJ_data = Raise (KeyError "epsilon [K]")).
Proof.
  unfold get_LJ_params. cbn [for_each]. repeat split.
  - intros Hs.
    rewrite (bind_raise _ _ _ (KeyError "Substance") ([], [])); [reflexivity|].
    unfold get_LJ_params_body.
    now rewrite (bind_raise _ _ _ _ _ (getitem_missing (λ _, LJ_data) _ _ Hs)).
  - intros Hs Hin Hsig.
    destruct (first_index_present _ _ Hin) as (k & Hk & _).
    rewrite (bind_raise _ _ _ (KeyError "sigma [angstrom]") ([], [])); [reflexivity|].
    unfold get_LJ_params_body.
    rewrite (bind_run _ _ _ _ _ (getitem_run (λ _, LJ_data) _ _ _ Hs)).
    rewrite (proj2 (contains_spec _ _) Hin). unfold assert.
    unfold bind at 1, ret at 1.
    rewrite (bind_run _ _ _ _ _ (getitem_run (λ _, LJ_data) _ _ _ Hs)).
    rewrite (bind_run _ _ _ _ _ (index_spec _ _ _ _ Hk)).
    now rewrite (bind_raise _ _ _ _ _ (getitem_missing (λ _, LJ_data) _ _ Hsig)).
  - intros Hs Hk Hsig Hsn Heps.
    assert (Hin : Str key ∈ substance)
      by (eapply list_elem_of_lookup_2, first_index_lookup, Hk).
    rewrite (bind_raise _ _ _ (KeyError "epsilon [K]") ([s], [])); [reflexivity|].
    unfold get_LJ_params_body.
    rewrite (bind_run _ _ _ _ _ (getitem_run (λ _, LJ_data) _ _ _ Hs)).
    rewrite (proj2 (contains_spec _ _) Hin). unfold assert.
    unfold bind at 1, ret at 1.
    rewrite (bind_run _ _ _ _ _ (getitem_run (λ _, LJ_data) _ _ _ Hs)).
    rewrite (bind_run _ _ _ _ _ (index_spec _ _ _ _ Hk)).
    rewrite (bind_run _ _ _ _ _ (getitem_run (λ _, LJ_data) _ _ _ Hsig)).
    unfold list_getitem. rewrite Hsn.
    unfold bind at 1, ret at 1. unfold bind at 1, modify at 1. cbn [fst snd app].
    now rewrite (bind_raise _ _ _ _ _ (getitem_missing (λ _, LJ_data) _ _ Heps)).
Qed.

(** When the first row of a component lies beyond the end of the sigma
    column (a row of the file was short), [get_LJ_params] raises
    [IndexError], although the component is in the substance column. *)
Theorem get_LJ_params_short_column (substance sigma : list cell) (n : nat) :
  LJ_data !! "Substance"%string = Some substance ->
  LJ_data !! "sigma [angstrom]"%string = Some sigma ->
  first_index substance key = Some n ->
  (length sigma <= n)%nat ->
  get_LJ_params (key :: rest) LJ_data = Raise IndexError.
Proof.
  intros Hs Hsig Hk Hlen. unfold get_LJ_params. cbn [for_each].
  assert (Hin : Str key ∈ substance)
    by (eapply list_elem_of_lookup_2, first_index_lookup, Hk).
  rewrite (bind_raise _ _ _ IndexError ([], [])); [reflexivity|].
  unfold get_LJ_params_body.
  rewrite (bind_run _ _ _ _ _ (getitem_run (λ _, LJ_data) _ _ _ Hs)).
  rewrite (proj2 (contains_spec _ _) Hin). unfold assert.
  unfold bind at 1, ret at 1.
  rewrite (bind_run _ _ _ _ _ (getitem_run (λ _, LJ_data) _ _ _ Hs)).
  rewrite (bind_run _ _ _ _ _ (index_spec _ _ _ _ Hk)).
  rewrite (bind_run _ _ _ _ _ (getitem_run (λ _, LJ_data) _ _ _ Hsig)).
  unfold list_getitem. now rewrite (lookup_ge_None_2 sigma n Hlen).
Qed.
End NotATable.


Lemma get_LJ_params_short_column_witness :
  get_LJ_params ["N2"; "H2"]%string ragged_LJ_data = Raise IndexError.
Proof.
  apply (get_LJ_params_short_column ragged_LJ_data "N2" ["H2"%string]
           [Str "CH4"; Str "H2"; Str "N2"] [Float 3.758; Float 2.827] 2);
    [reflexivity | reflexivity | reflexivity | cbn; lia].
Defined.

(** ** [write_params] *)

Lemma dict_lines_supported (items : list (value * value)) :
  Forall (λ kv, match kv.1 with
                | VTuple elements => is_Some (join_strings elements)
                | _ => True
                end) items ->
  exists ls, dict_lines items = (ls, None) /\ length ls = length items
             /\ Forall (λ l : line, l.1.1 = blank) ls.
Proof.
  induction 1 as [|[key2 val2] items Hk _ (ls & E & Hlen & Hbl)].
  - exists []. repeat split. constructor.
  - cbn [dict_lines]. cbn [fst] in Hk. rewrite E.
    destruct key2; try (eexists; split; [reflexivity|]; cbn; split;
      [now rewrite Hlen | now constructor]).
    destruct Hk as [s ->]. eexists. split; [reflexivity|]. cbn. split;
      [now rewrite Hlen | now constructor].
Qed.

Lemma attribute_lines_supported (key : string) (val : value) :
  supported val ->
  exists third ls,
    attribute_lines key val = ((VStr key, blank, third) :: ls, None)
    /\ Datatypes.S (length ls) = attribute_size val
    /\ Forall (λ l : line, l.1.1 = blank) ls.
Proof.
  destruct val; cbn; try contradiction; intros H.
  - exists (VFloat x), []. repeat split. constructor.
  - exists (VStr s), []. repeat split. constructor.
  - exists VNone, []. repeat split. constructor.
  - eexists blank, _. split; [reflexivity|]. rewrite length_fmap. split; [reflexivity|].
    apply Forall_fmap. now apply Forall_true.
  - destruct (dict_lines_supported _ H) as (ls & -> & Hlen & Hbl).
    exists blank, ls. split; [reflexivity|]. split; [f_equal; exact Hlen | exact Hbl].
Qed.

(** The names of the attributes, each followed by one blank per further line
    of the attribute. *)
Lemma write_params_supported (vars : list (string * value)) :
  Forall (λ kv, supported kv.2) vars ->
  exists ls, write_params vars = (ls, None)
    /\ length ls = sum_list (attribute_size <$> vars.*2)
    /\ forall key val, (key, val) ∈ vars ->
         exists third, (VStr key, blank, third) ∈ ls.
Proof.
  induction 1 as [|[key val] vars Hs _ (ls & E & Hlen & Hin)].
  - exists []. repeat split. intros key val Hk. inversion Hk.
  - cbn [fst snd] in Hs.
    destruct (attribute_lines_supported key val Hs) as (third & ls1 & E1 & Hlen1 & _).
    cbn [write_params]. rewrite E1, E. eexists. split; [reflexivity|]. split.
    + cbn [fmap list_fmap snd sum_list sum_list_with]. rewrite <- Hlen1, <- Hlen.
      cbn. now rewrite length_app.
    + intros key' val' Hk. apply elem_of_cons in Hk as [[= -> ->]|Hk].
      * exists third. left.
      * destruct (Hin _ _ Hk) as (third' & H'). exists third'.
        right. apply elem_of_app. now right.
Qed.

Lemma write_params_app (before after : list (string * value)) :
  Forall (λ kv, supported kv.2) before ->
  write_params (before ++ after)
  = ((write_params before).1 ++ (write_params after).1, (write_params after).2).
Proof.
  induction 1 as [|[key val] before Hs _ IH]; cbn [app write_params].
  - now destruct (write_params after).
  - cbn [fst snd] in Hs.
    destruct (attribute_lines_supported key val Hs) as (third & ls1 & -> & _ & _).
    rewrite IH. destruct (write_params before) as [ls e]. cbn [fst snd].
    now rewrite app_assoc.
Qed.

(** On a [__dict__] whose values are floats, strings, [None], lists or dicts
    (with tuple keys made of strings), [write_params] raises nothing and
    drops nothing: every attribute has a line with its name, every element of
    a list and every item of a dict has a line of its own, and the number of
    lines is one per attribute plus one per element or item. *)
Theorem write_params_complete (vars : list (string * value)) :
  Forall (λ kv, supported kv.2) vars ->
  exists ls, write_params vars = (ls, None)
    /\ length ls = sum_list (attribute_size <$> vars.*2)
    /\ (forall key val, (key, val) ∈ vars ->
          exists third, (VStr key, blank, third) ∈ ls)
    /\ (forall key elements val2, (key, VList elements) ∈ vars ->
          val2 ∈ elements -> (blank, val2, blank) ∈ ls)
    /\ (forall key items s val2, (key, VDict items) ∈ vars ->
          (VStr s, val2) ∈ items -> (blank, VStr s, val2) ∈ ls).
Proof.
  intros Hs. destruct (write_params_supported vars Hs) as (ls & E & Hlen & Hkeys).
  exists ls. repeat split; auto.
  - intros key elements val2 Hin Hel.
    apply list_elem_of_split in Hin as (before & after & ->).
    apply Forall_app in Hs as [Hb Ha].
    rewrite (write_params_app _ _ Hb) in E. cbn [write_params attribute_lines] in E.
    destruct (write_params after) as [ls' e']. cbn [fst snd] in E.
    injection E as <- _. apply elem_of_app. right. right.
    apply elem_of_app. left. apply list_elem_of_fmap. eauto.
  - intros key items s val2 Hin Hit.
    apply list_elem_of_split in Hin as (before & after & ->).
    apply Forall_app in Hs as [Hb Ha]. apply Forall_cons in Ha as [Hd Ha].
    rewrite (write_params_app _ _ Hb) in E. cbn [write_params attribute_lines] in E.
    cbn [snd supported] in Hd.
    destruct (dict_lines_supported _ Hd) as (dl & Ed & _ & _). rewrite Ed in E.
    destruct (write_params after) as [ls' e']. cbn [fst snd] in E.
    injection E as <- _. apply elem_of_app. right. right.
    apply elem_of_app. left. clear -Hit Ed. revert dl Ed.
    induction items as [|[k v] items IH]; intros dl Ed; [inversion Hit|].
    cbn [dict_lines] in Ed.
    assert (Hstep : forall ls0 e0, dict_lines items = (ls0, e0) ->
              (VStr s, val2) ∈ items -> e0 = None -> (blank, VStr s, val2) ∈ ls0).
    { intros ls0 e0 E0 Hin0 ->. now apply IH. }
    apply elem_of_cons in Hit as [[= <- <-]|Hit].
    + destruct (dict_lines items) as [ls0 e0]. injection Ed as <- _. left.
    + destruct (dict_lines items) as [ls0 e0] eqn:E0.
      destruct k; try (injection Ed as <- ->; right; now apply (Hstep ls0 None)).
      destruct (join_strings elements); [|discriminate].
      injection Ed as <- ->. right. now apply (Hstep ls0 None).
Qed.

Lemma write_params_complete_witness :
  exists ls,
    write_params [("tortuosity"%string, VFloat 1.5);
                  ("component_i"%string, VList [VStr "CH4"; VStr "H2"])]
    = (ls, None)
    /\ length ls = 4%nat.
Proof.
  destruct (write_params_complete
              [("tortuosity"%string, VFloat 1.5);
               ("component_i"%string, VList [VStr "CH4"; VStr "H2"])])
    as (ls & E & Hlen & _).
  - repeat constructor.
  - exists ls. split; [exact E | exact Hlen].
Defined.

(** An attribute that holds an [int], a [bool] or a tuple stops
    [write_params] with the exception that names the attribute and its value:
    the lines of the attributes before it are in the file, those of the
    attributes after it are never written. *)
Theorem write_params_stops (before after : list (string * value))
    (key : string) (val : value) :
  Forall (λ kv, supported kv.2) before ->
  match val with VInt _ | VBool _ | VTuple _ => True | _ => False end ->
  write_params (before ++ (key, val) :: after)
  = ((write_params before).1, Some (ValTypeNotFound key val)).
Proof.
  intros Hb Hval. rewrite (write_params_app _ _ Hb).
  destruct val; try contradiction; cbn [write_params attribute_lines fst snd];
    now rewrite app_nil_r.
Qed.

Lemma write_params_stops_witness :
  write_params ([("d_pore"%string, VFloat 1e-8)]
                ++ ("tortuosity"%string, VInt 2) :: [("R"%string, VFloat 8.314)])
  = ([(VStr "d_pore", blank, VFloat 1e-8)],
     Some (ValTypeNotFound "tortuosity" (VInt 2))).
Proof.
  apply (write_params_stops [("d_pore"%string, VFloat 1e-8)]
           [("R"%string, VFloat 8.314)] "tortuosity" (VInt 2)).
  - repeat constructor.
  - exact I.
Defined.

(** *** The dump of a constructed mixture *)

Lemma dict_set_elem (items : list (string * R)) (key : string) (val : R)
    (k : string) (v : R) :
  NoDup items.*1 ->
  (k, v) ∈ dict_set items key val
  <-> (k = key /\ v = val) \/ (k <> key /\ (k, v) ∈ items).
Proof.
  induction items as [|[k0 v0] items IH]; intros Hnd; cbn [dict_set].
  - rewrite list_elem_of_singleton, elem_of_nil. split.
    + intros [= -> ->]. now left.
    + intros [[-> ->]|[_ []]]. reflexivity.
  - cbn in Hnd. apply NoDup_cons in Hnd as [Hk0 Hnd].
    destruct (String.eqb_spec k0 key) as [->|Hne].
    + rewrite !elem_of_cons. split.
      * intros [[= -> ->]|Hin]; [now left|]. right. split; [|now right].
        intros ->. apply Hk0. apply list_elem_of_fmap. now exists (key, v).
      * intros [[-> ->]|[Hne [[= -> ->]|Hin]]]; [now left | contradiction | now right].
    + rewrite !elem_of_cons, (IH Hnd). split.
      * intros [[= -> ->]|[[-> ->]|[Hk Hin]]]; auto.
      * intros [[-> ->]|[Hk [[= -> ->]|Hin]]]; auto.
Qed.

Lemma dict_set_keys (items : list (string * R)) (key : string) (val : R) :
  (dict_set items key val).*1
  = if decide (key ∈ items.*1) then items.*1 else items.*1 ++ [key].
Proof.
  induction items as [|[k0 v0] items IH]; cbn [dict_set].
  - rewrite decide_False; [reflexivity | apply not_elem_of_nil].
  - destruct (String.eqb_spec k0 key) as [->|Hne]; cbn.
    + rewrite decide_True; [reflexivity | left].
    + rewrite IH. destruct (decide (key ∈ items.*1)) as [Hin|Hout].
      * rewrite decide_True; [reflexivity | now right].
      * rewrite decide_False; [reflexivity|].
        intros [?|?]%elem_of_cons; [congruence | contradiction].
Qed.

Lemma dict_set_NoDup (items : list (string * R)) (key : string) (val : R) :
  NoDup items.*1 -> NoDup (dict_set items key val).*1.
Proof.
  intros Hnd. rewrite dict_set_keys. destruct (decide (key ∈ items.*1)); [exact Hnd|].
  apply NoDup_app. repeat split; auto.
  - intros x Hx [->|[]%elem_of_nil]%elem_of_cons. contradiction.
  - apply NoDup_singleton.
Qed.

(** The ordered items and the mapping of [dict_zip] describe the same dict. *)
Lemma dict_zip_items_spec (keys : list string) (vals : list R) :
  NoDup (dict_zip_items keys vals).*1
  /\ (forall k v, (k, v) ∈ dict_zip_items keys vals <-> dict_zip keys vals !! k = Some v)
  /\ (NoDup keys ->
      length (dict_zip_items keys vals) = Nat.min (length keys) (length vals)).
Proof.
  unfold dict_zip_items, dict_zip.
  assert (forall kvs,
    NoDup (foldl (λ items kv, dict_set items kv.1 kv.2) [] kvs).*1
    /\ (forall k v, (k, v) ∈ foldl (λ items kv, dict_set items kv.1 kv.2) [] kvs
          <-> foldl (λ d kv, <[kv.1 := kv.2]> d) (∅ : gmap string R) kvs !! k = Some v)
    /\ (NoDup kvs.*1 ->
        (foldl (λ items kv, dict_set items kv.1 kv.2) [] kvs).*1 = kvs.*1)) as H.
  { induction kvs as [|[k0 v0] kvs (Hnd & Hiff & Hkeys)] using rev_ind.
    - cbn. split; [constructor|]. split; [|reflexivity].
      intros k v. rewrite lookup_empty, elem_of_nil. split; [tauto | discriminate].
    - rewrite !foldl_snoc. cbn [fst snd]. split; [now apply dict_set_NoDup|]. split.
      + intros k v. rewrite (dict_set_elem _ _ _ _ _ Hnd), lookup_insert_Some, Hiff.
        split; intros [[? ?]|[? ?]]; subst; auto.
      + rewrite fmap_app. cbn. intros Hnd'. apply NoDup_app in Hnd' as (Hnd1 & Hdis & _).
        rewrite dict_set_keys, (Hkeys Hnd1). rewrite decide_False; [reflexivity|].
        intros Hin. apply (Hdis _ Hin). left. }
  destruct (H (zip keys vals)) as (Hnd & Hiff & Hkeys).
  split; [exact Hnd|]. split; [exact Hiff|].
  intros Hk. rewrite <- (length_fmap fst), Hkeys.
  - rewrite zip_keys_take, length_take. lia.
  - rewrite zip_keys_take. eapply sublist_NoDup; [exact Hk | apply sublist_take].
Qed.

Lemma write_params_attribute_lines (vars : list (string * value))
    (key : string) (val : value) (l : line) :
  Forall (λ kv, supported kv.2) vars -> (key, val) ∈ vars ->
  l ∈ (attribute_lines key val).1 -> l ∈ (write_params vars).1.
Proof.
  intros Hs Hin Hl. apply list_elem_of_split in Hin as (before & after & ->).
  apply Forall_app in Hs as [Hb Ha]. apply Forall_cons in Ha as [Hv Ha].
  rewrite (write_params_app _ _ Hb). cbn [fst snd write_params] in *.
  destruct (attribute_lines_supported key val Hv) as (third & ls1 & E & _ & _).
  rewrite E in *. cbn [fst] in Hl. destruct (write_params after) as [ls' e'].
  cbn [fst]. apply elem_of_app. right. apply elem_of_app. now left.
Qed.

Lemma dict_lines_float_dict (items : list (string * R)) :
  dict_lines ((λ kv, (VStr kv.1, VFloat kv.2)) <$> items)
  = ((λ kv, (blank, VStr kv.1, VFloat kv.2)) <$> items, None).
Proof.
  induction items as [|[k v] items IH]; [reflexivity|].
  cbn [fmap list_fmap dict_lines fst snd]. cbn [fmap] in IH. now rewrite IH.
Qed.

Lemma float_dict_supported (items : list (string * R)) : supported (float_dict items).
Proof. cbn. apply Forall_fmap. now apply Forall_true. Qed.

(** On a constructed mixture [write_params] raises nothing; the file has a
    line for the stored molecular weight (or [None]), a line for every entry
    of the three mappings and a line for every component; for [n] distinct
    components with [n] values in each list that makes [9 + 4 * n] lines. *)
Theorem write_params_mixture (components : list string) (mw sigma eps : list R)
    (e d t : R) (mwo : option R) :
  let self := FluidMixture_init components mw sigma eps e d t mwo in
  exists ls,
    write_params (FluidMixture_vars components mw sigma eps e d t mwo) = (ls, None)
    /\ (VStr "molecular_weight", blank,
        match molecular_weight (base self) with Some m => VFloat m | None => VNone end)
       ∈ ls
    /\ (forall k v, molecular_weight_i self !! k = Some v ->
          (blank, VStr k, VFloat v) ∈ ls)
    /\ (forall k v, sigma_i self !! k = Some v -> (blank, VStr k, VFloat v) ∈ ls)
    /\ (forall k v, epsilon_i self !! k = Some v -> (blank, VStr k, VFloat v) ∈ ls)
    /\ (forall name, name ∈ components -> (blank, VStr name, blank) ∈ ls)
    /\ (NoDup components -> length mw = length components ->
        length sigma = length components -> length eps = length components ->
        length ls = (9 + 4 * length components)%nat).
Proof.
  intros self. set (vars := FluidMixture_vars components mw sigma eps e d t mwo).
  assert (Hs : Forall (λ kv, supported kv.2) vars).
  { unfold vars, FluidMixture_vars. repeat constructor; cbn [snd];
      try apply float_dict_supported. now destruct mwo. }
  destruct (write_params_supported vars Hs) as (ls & E & Hlen & _).
  pose proof (write_params_attribute_lines vars) as Hline. rewrite E in Hline.
  cbn [fst] in Hline.
  assert (Hdict : forall name keys vals k v,
            (name, float_dict (dict_zip_items keys vals)) ∈ vars ->
            dict_zip keys vals !! k = Some v -> (blank, VStr k, VFloat v) ∈ ls).
  { intros name keys vals k v Hin Hk.
    apply (Hline name _ _ Hs Hin). unfold float_dict. cbn [attribute_lines].
    rewrite dict_lines_float_dict. cbn [fst]. right.
    apply list_elem_of_fmap. exists (k, v). split; [reflexivity|].
    now apply dict_zip_items_spec. }
  exists ls. split; [exact E|]. split; [|split; [|split; [|split; [|split]]]].
  - apply (Hline "molecular_weight"%string
             (match mwo with Some m => VFloat m | None => VNone end) _ Hs).
    + unfold vars, FluidMixture_vars. rewrite !elem_of_cons. auto.
    + cbn [self FluidMixture_init base PureFluid_init molecular_weight].
      destruct mwo; left.
  - intros k v. apply (Hdict "molecular_weight_i"%string).
    unfold vars, FluidMixture_vars. rewrite !elem_of_cons. auto 10.
  - intros k v. apply (Hdict "sigma_i"%string).
    unfold vars, FluidMixture_vars. rewrite !elem_of_cons. auto 10.
  - intros k v. apply (Hdict "epsilon_i"%string).
    unfold vars, FluidMixture_vars. rewrite !elem_of_cons. auto 10.
  - intros name Hname.
    apply (Hline "component_i"%string (VList (VStr <$> components)) _ Hs).
    + unfold vars, FluidMixture_vars. rewrite !elem_of_cons. auto 12.
    + cbn [attribute_lines fst]. right. apply list_elem_of_fmap.
      exists (VStr name). split; [reflexivity|]. apply list_elem_of_fmap. eauto.
  - intros Hnd H1 H2 H3. rewrite Hlen. unfold vars, FluidMixture_vars, float_dict.
    cbn [fmap list_fmap snd attribute_size sum_list sum_list_with].
    rewrite !length_fmap.
    destruct (dict_zip_items_spec components mw) as (_ & _ & ->); [|exact Hnd].
    destruct (dict_zip_items_spec components sigma) as (_ & _ & ->); [|exact Hnd].
    destruct (dict_zip_items_spec components eps) as (_ & _ & ->); [|exact Hnd].
    destruct mwo; cbn [attribute_size]; unfold Datatypes.id; lia.
Qed.

(** ** [read_csv] *)

Lemma fields_examples :
  fields "CH4,3.758,148.6
" = ["CH4"; "3.758"; "148.6"]%string
  /\ fields "
" = [""%string]
  /\ fields "a,,b," = ["a"; ""; "b"; ""]%string.
Proof. repeat split. Qed.

Section ReadCsvProperties.
Context {E : Type} (py_eval : string -> E + string) (float_of : string -> option R).

Lemma append_row_lookup (header fs : list string) (d : gmap string (list cell))
    (name : string) :
  name ∉ header ->
  foldl (λ d kv, append_cell d kv.1 (float_or_str float_of kv.2)) d (zip header fs)
    !! name = d !! name.
Proof.
  revert fs d. induction header as [|h hs IH]; intros [|f fs] d Hn; try reflexivity.
  cbn [zip zip_with foldl fst snd]. apply not_elem_of_cons in Hn as [Hne Hn].
  rewrite (IH _ _ Hn). unfold append_cell. now rewrite lookup_alter_ne.
Qed.

Lemma read_row_lookup (header : list string) (d : gmap string (list cell))
    (ln : string) (k : nat) (name : string) :
  NoDup header -> header !! k = Some name ->
  read_row float_of header d ln !! name
  = (λ col, col ++ option_list (cell_at float_of k ln)) <$> d !! name.
Proof.
  unfold read_row, cell_at. generalize (fields ln) as fs.
  revert d k. induction header as [|h hs IH]; intros d k fs Hnd Hk; [discriminate|].
  apply NoDup_cons in Hnd as [Hh Hnd].
  destruct fs as [|f fs].
  - cbn. rewrite lookup_nil. cbn. destruct (d !! name); cbn; [|reflexivity].
    now rewrite app_nil_r.
  - cbn [zip zip_with foldl fst snd]. destruct k as [|k].
    + injection Hk as ->. rewrite append_row_lookup by exact Hh.
      unfold append_cell. now rewrite lookup_alter_eq.
    + cbn in Hk. rewrite (IH _ k fs Hnd Hk). unfold append_cell.
      rewrite lookup_alter_ne; [reflexivity|].
      intros ->. apply Hh. eapply list_elem_of_lookup_2, Hk.
Qed.

Lemma empty_columns_lookup (header : list string) (name : string) :
  empty_columns header !! name = if decide (name ∈ header) then Some [] else None.
Proof.
  unfold empty_columns.
  assert (H : forall d : gmap string (list cell),
                foldl (λ d key, <[key := []]> d) d header !! name
                = if decide (name ∈ header) then Some [] else d !! name).
  { induction header as [|h hs IH]; intros d; cbn.
    - now rewrite decide_False by apply not_elem_of_nil.
    - rewrite IH. destruct (decide (name ∈ hs)) as [Hin|Hout].
      + rewrite decide_True; [reflexivity | now right].
      + destruct (decide (name = h)) as [->|Hne].
        * rewrite lookup_insert_eq. rewrite decide_True; [reflexivity | left].
        * rewrite lookup_insert_ne by congruence. rewrite decide_False; [reflexivity|].
          intros [?|?]%elem_of_cons; contradiction. }
  rewrite H. now rewrite lookup_empty.
Qed.

Lemma read_rows_absent (header rows : list string) (name : string) :
  name ∉ header ->
  foldl (read_row float_of header) (empty_columns header) rows !! name = None.
Proof.
  intros Hn. induction rows as [|ln rows IH] using rev_ind.
  - cbn. rewrite empty_columns_lookup. now rewrite decide_False.
  - rewrite foldl_snoc. unfold read_row. now rewrite append_row_lookup.
Qed.

Lemma read_rows_lookup (header rows : list string) (k : nat) (name : string) :
  NoDup header -> header !! k = Some name ->
  foldl (read_row float_of header) (empty_columns header) rows !! name
  = Some (omap (cell_at float_of k) rows).
Proof.
  intros Hnd Hk. induction rows as [|ln rows IH] using rev_ind.
  - cbn. rewrite empty_columns_lookup. rewrite decide_True; [reflexivity|].
    eapply list_elem_of_lookup_2, Hk.
  - rewrite foldl_snoc, (read_row_lookup _ _ _ k name Hnd Hk), IH. cbn.
    rewrite omap_app. cbn. now destruct (cell_at float_of k ln).
Qed.

(** [read_csv] raises [StopIteration] on a file without lines and passes on
    what [eval] raises on the header.  Otherwise, for a header of distinct
    names, the result has exactly the columns of the header, and the column
    at position [k] holds, in the order of the rows, the [k]-th field of
    every row that has one (as a float where [float] accepts the field, as
    the text otherwise): a row with fewer fields leaves the later columns
    shorter. *)
Theorem read_csv_columns (first : string) (rows : list string) :
  read_csv py_eval float_of [] = inl StopIteration
  /\ (forall e, eval_all py_eval (fields first) = inl e ->
        read_csv py_eval float_of (first :: rows) = inl (EvalRaised e))
  /\ (forall header, eval_all py_eval (fields first) = inr header -> NoDup header ->
        exists data, read_csv py_eval float_of (first :: rows) = inr data
          /\ (forall name, data !! name = None <-> name ∉ header)
          /\ forall k name, header !! k = Some name ->
               data !! name = Some (omap (cell_at float_of k) rows)).
Proof.
  split; [reflexivity|]. split.
  - intros e He. cbn [read_csv]. now rewrite He.
  - intros header Hh Hnd. cbn [read_csv]. rewrite Hh. eexists. split; [reflexivity|].
    split.
    + intros name. split.
      * intros Hnone Hin. apply list_elem_of_lookup in Hin as [k Hk].
        now rewrite (read_rows_lookup _ _ k name Hnd Hk) in Hnone.
      * apply read_rows_absent.
    + intros k name Hk. now apply read_rows_lookup.
Qed.
End ReadCsvProperties.

Section ReadCsvTable.
Context {E : Type} (py_eval : string -> E + string) (float_of : string -> option R).

Lemma column_length (rows : list string) (k n : nat) :
  (k < n)%nat -> Forall (λ ln, (n <= length (fields ln))%nat) rows ->
  length (omap (cell_at float_of k) rows) = length rows.
Proof.
  intros Hk. induction 1 as [|ln rows Hln _ IH]; [reflexivity|].
  cbn [omap list_omap]. unfold cell_at at 1.
  destruct (lookup_lt_is_Some_2 (fields ln) k ltac:(lia)) as [f ->].
  cbn. now rewrite IH.
Qed.

(** For a file whose header evaluates to distinct names, among them the
    three that [get_LJ_params] uses, and whose rows all have at least as many
    fields as the header, [read_csv] returns a Lennard-Jones table with one
    entry per row in each of the three columns. *)
Theorem read_csv_table (first : string) (rows header : list string)
    (ks kg ke : nat) :
  eval_all py_eval (fields first) = inr header ->
  NoDup header ->
  header !! ks = Some "Substance"%string ->
  header !! kg = Some "sigma [angstrom]"%string ->
  header !! ke = Some "epsilon [K]"%string ->
  Forall (λ ln, (length header <= length (fields ln))%nat) rows ->
  exists data substance sigma epsilon,
    read_csv py_eval float_of (first :: rows) = inr data
    /\ LJ_table data substance sigma epsilon
    /\ length substance = length rows
    /\ substance = omap (cell_at float_of ks) rows
    /\ sigma = omap (cell_at float_of kg) rows
    /\ epsilon = omap (cell_at float_of ke) rows.
Proof.
  intros Hh Hnd Hs Hg He Hrows. cbn [read_csv]. rewrite Hh.
  eexists _, _, _, _. split; [reflexivity|].
  pose proof (lookup_lt_Some _ _ _ Hs). pose proof (lookup_lt_Some _ _ _ Hg).
  pose proof (lookup_lt_Some _ _ _ He).
  split; [|split; [|repeat split]].
  - constructor.
    + now apply read_rows_lookup.
    + now apply read_rows_lookup.
    + now apply read_rows_lookup.
    + rewrite !(column_length rows _ (length header)); auto.
    + rewrite !(column_length rows _ (length header)); auto.
  - now apply (column_length rows _ (length header)).
Qed.
End ReadCsvTable.


Lemma example_csv_header :
  eval_all eval_literal
    (fields "'Substance','sigma [angstrom]','epsilon [K]'
")
  = inr ["Substance"; "sigma [angstrom]"; "epsilon [K]"]%string.
Proof. reflexivity. Qed.

Lemma float_decimal_run (s : string) (m scale : Z) (x : R) :
  signed_decimal s = Some (m, scale) -> (IZR m / IZR scale)%R = x ->
  float_decimal s = Some x.
Proof. unfold float_decimal. now intros -> <-. Qed.

Lemma float_decimal_name (s : string) :
  signed_decimal s = None -> float_decimal s = None.
Proof. unfold float_decimal. now intros ->. Qed.

Lemma example_csv_cells :
  let rows := ["CH4,3.758,148.6
"; "H2,2.827,59.7
"]%string in
  omap (cell_at float_decimal 0) rows = [Str "CH4"; Str "H2"]
  /\ omap (cell_at float_decimal 1) rows = [Float 3.758; Float 2.827]
  /\ omap (cell_at float_decimal 2) rows = [Float 148.6; Float 59.7].
Proof.
  cbv zeta. unfold cell_at, float_or_str.
  assert (F1 : fields "CH4,3.758,148.6
" = ["CH4"; "3.758"; "148.6"]%string) by reflexivity.
  assert (F2 : fields "H2,2.827,59.7
" = ["H2"; "2.827"; "59.7"]%string) by reflexivity.
  cbn [omap list_omap]. rewrite F1, F2.
  cbn [lookup list_lookup fmap option_fmap option_map].
  rewrite (float_decimal_name "CH4" eq_refl), (float_decimal_name "H2" eq_refl).
  rewrite (float_decimal_run "3.758" 3758 1000 3.758 eq_refl ltac:(lra)).
  rewrite (float_decimal_run "2.827" 2827 1000 2.827 eq_refl ltac:(lra)).
  rewrite (float_decimal_run "148.6" 1486 10 148.6 eq_refl ltac:(lra)).
  rewrite (float_decimal_run "59.7" 597 10 59.7 eq_refl ltac:(lra)).
  repeat split.
Qed.

Lemma read_csv_table_witness :
  exists data,
    read_csv eval_literal float_decimal example_csv = inr data
    /\ LJ_table data [Str "CH4"; Str "H2"] [Float 3.758; Float 2.827]
         [Float 148.6; Float 59.7].
Proof.
  destruct (read_csv_table eval_literal float_decimal
              "'Substance','sigma [angstrom]','epsilon [K]'
" ["CH4,3.758,148.6
"; "H2,2.827,59.7
"]%string ["Substance"; "sigma [angstrom]"; "epsilon [K]"]%string 0 1 2)
    as (data & substance & sigma & epsilon & E & Ht & _ & Hs & Hg & He);
    try reflexivity.
  - repeat (apply NoDup_cons; split;
      [rewrite ?elem_of_cons, elem_of_nil; intros H;
       repeat destruct H as [H|H]; discriminate || exact H|]).
    apply NoDup_nil_2.
  - repeat constructor.
  - destruct example_csv_cells as (Cs & Cg & Ce).
    rewrite Cs in Hs. rewrite Cg in Hg. rewrite Ce in He. subst.
    exists data. split; [exact E | exact Ht].
Defined.
